(** * PhotoWeave: a verification development for [src/app.py]

    The program is a short Streamlit script around OpenCV.  The embedding
    below follows the script line by line:

    - Python exceptions and the [None] result are kept apart: a call yields
      an [outcome], either a value or a raised exception, and a function that
      may answer [None] yields an [option] inside it;
    - Python floats are IEEE 754 binary64 numbers, taken from the reference
      implementation [SpecFloat] of the standard library, so that the
      arithmetic of [standardize_image] is evaluated bit for bit;
    - a colour image (a [numpy] array of shape [(h, w, 3)], [uint8]) is a
      list of rows of pixels together with its declared width;
    - the calls into OpenCV whose results are not determined by the script
      (feature detection, matching, homography estimation, warping,
      resampling, decoding) are the fields of a record [OpenCV]; what the
      library documents about them is the record [OpenCVSpec];
    - the Streamlit calls of the script are events of a trace. *)

From Stdlib Require Import String.
From Stdlib.Strings Require Import Byte.
From Stdlib Require Import ZArith QArith Qpower.
From Stdlib Require Import Bool List Permutation Sorted Lia.
From Stdlib Require Import SpecFloat.
Import ListNotations.

Close Scope Q_scope.
Close Scope Z_scope.
Open Scope string_scope.
Open Scope list_scope.

(** * Exceptions and results *)

(** The Python exceptions the script can meet. *)
Inductive exn : Type :=
| ZeroDivisionError
| OverflowError
| ValueError
| IndexError
| cv2_error.

(** The result of evaluating a Python expression. *)
Inductive outcome (A : Type) : Type :=
| Ret (a : A)
| Raise (e : exn).

Arguments Ret {A} a.
Arguments Raise {A} e.

Definition bind {A B : Type} (c : outcome A) (k : A -> outcome B) : outcome B :=
  match c with
  | Ret a => k a
  | Raise e => Raise e
  end.

Declare Scope py_scope.
Delimit Scope py_scope with py.
Notation "x <- c ;; k" := (bind c (fun x => k))
  (at level 100, c at next level, right associativity) : py_scope.
Notation "' p <- c ;; k" := (bind c (fun x => let 'p := x in k))
  (at level 100, p pattern, c at next level, right associativity) : py_scope.
Open Scope py_scope.

(** [[f(x) for x in l]]: the elements are evaluated from left to right and
    the first exception ends the comprehension. *)
Fixpoint comprehension {A B : Type} (f : A -> outcome B) (l : list A)
  : outcome (list B) :=
  match l with
  | [] => Ret []
  | x :: l' => y <- f x ;; ys <- comprehension f l' ;; Ret (y :: ys)
  end.

(** * Python floats *)

Module Float.

Definition prec : Z := 53.
Definition emax : Z := 1024.

Definition float : Type := spec_float.

(** An integer as an unrounded floating-point datum. *)
Definition of_int_exact (n : Z) : float :=
  match n with
  | Z0 => S754_zero false
  | Zpos p => S754_finite false p 0
  | Zneg p => S754_finite true p 0
  end.

Definition is_infinite (x : float) : bool :=
  match x with
  | S754_infinity _ => true
  | _ => false
  end.

(** [float(n)]: the nearest binary64 number, ties to even;
    [OverflowError] when [n] is too large. *)
Definition of_int (n : Z) : outcome float :=
  let x := binary_normalize prec emax n 0 false in
  if is_infinite x then Raise OverflowError else Ret x.

(** [a / b] on two Python integers: the correctly rounded quotient. *)
Definition int_truediv (a b : Z) : outcome float :=
  if (b =? 0)%Z then Raise ZeroDivisionError
  else
    let x := SFdiv prec emax (of_int_exact a) (of_int_exact b) in
    if is_infinite x then Raise OverflowError else Ret x.

(** [n * x] with [n] an integer and [x] a float. *)
Definition int_mul (n : Z) (x : float) : outcome float :=
  fn <- of_int n ;;
  Ret (SFmul prec emax fn x).

(** [min(x, y)] keeps its first argument unless the second is smaller. *)
Definition min (x y : float) : float :=
  if SFltb y x then y else x.

(** [int(x)]: truncation towards zero. *)
Definition to_int (x : float) : outcome Z :=
  match x with
  | S754_nan => Raise ValueError
  | S754_infinity _ => Raise OverflowError
  | S754_zero _ => Ret 0%Z
  | S754_finite s m e => Ret (cond_Zopp s (Z.shiftl (Zpos m) e))
  end.

(** The rational number a float denotes. *)
Definition value (x : float) : Q :=
  match x with
  | S754_finite s m e => (inject_Z (cond_Zopp s (Zpos m)) * 2 ^ e)%Q
  | _ => 0%Q
  end.

End Float.

(** * Images *)

(** One [uint8] sample. *)
Definition uint8 : Type := byte.

(** The three samples of a pixel, in the order of the last axis. *)
Definition pixel : Type := (uint8 * uint8 * uint8)%type.

Definition black : pixel := (x00, x00, x00).

(** An array of shape [(len(img_rows), img_width, 3)]. *)
Record Image : Type := {
  img_width : nat;
  img_rows : list (list pixel)
}.

(** [image.shape[0]] and [image.shape[1]]. *)
Definition shape0 (img : Image) : nat := length (img_rows img).
Definition shape1 (img : Image) : nat := img_width img.

(** Every row has the declared width. *)
Definition wf_image (img : Image) : Prop :=
  Forall (fun row => length row = img_width img) (img_rows img).

Definition is_empty (img : Image) : bool :=
  (shape0 img =? 0)%nat || (shape1 img =? 0)%nat.

(** [img[r, c]], for indices inside the array. *)
Definition getpixel (img : Image) (r c : nat) : option pixel :=
  match nth_error (img_rows img) r with
  | Some row => nth_error row c
  | None => None
  end.

(** [np.zeros((h, w, 3), dtype=np.uint8)]. *)
Definition np_zeros (h w : Z) : outcome Image :=
  if ((h <? 0) || (w <? 0))%Z then Raise ValueError
  else Ret {| img_width := Z.to_nat w;
              img_rows := repeat (repeat black (Z.to_nat w)) (Z.to_nat h) |}.

(** The bound [i] of a slice [a[i:j]] over an axis of length [n]: a negative
    bound counts from the end, and bounds are clipped to the axis. *)
Definition slice_bound (n : nat) (i : Z) : nat :=
  if (i <? 0)%Z then Z.to_nat (Z.max 0 (i + Z.of_nat n))
  else Z.to_nat (Z.min i (Z.of_nat n)).

(** [map] with the position of each element. *)
Fixpoint imap_from {A : Type} (f : nat -> A -> A) (i : nat) (l : list A) : list A :=
  match l with
  | [] => []
  | x :: l' => f i x :: imap_from f (S i) l'
  end.

Definition imap {A : Type} (f : nat -> A -> A) (l : list A) : list A :=
  imap_from f 0 l.

(** An axis of length [s] can be assigned to a slice of length [n] when the
    lengths agree or when [s] is 1 (broadcasting). *)
Definition broadcastable (s n : nat) : bool :=
  (s =? n)%nat || (s =? 1)%nat.

Definition broadcast_index (s k : nat) : nat :=
  if (s =? 1)%nat then 0%nat else k.

Definition in_slice (lo hi i : nat) : bool :=
  (lo <=? i)%nat && (i <? hi)%nat.

(** [dst[ys:ye, xs:xe] = src].  The array is updated in place in Python; every
    use below assigns into an array no other name refers to, so the updated
    array is returned. *)
Definition slice_assign (dst : Image) (ys ye xs xe : Z) (src : Image)
  : outcome Image :=
  let r0 := slice_bound (shape0 dst) ys in
  let r1 := slice_bound (shape0 dst) ye in
  let c0 := slice_bound (shape1 dst) xs in
  let c1 := slice_bound (shape1 dst) xe in
  if broadcastable (shape0 src) (r1 - r0) && broadcastable (shape1 src) (c1 - c0)
  then
    Ret {| img_width := img_width dst;
           img_rows :=
             imap (fun i row =>
                     if in_slice r0 r1 i then
                       imap (fun j p =>
                               if in_slice c0 c1 j then
                                 nth (broadcast_index (shape1 src) (j - c0))
                                     (nth (broadcast_index (shape0 src) (i - r0))
                                          (img_rows src) [])
                                     black
                               else p)
                            row
                     else row)
                  (img_rows dst) |}
  else Raise ValueError.

(** [cv2.cvtColor(img, cv2.COLOR_BGR2RGB)]: the first and the third sample of
    every pixel change places; OpenCV rejects an empty array. *)
Definition swap_channels (p : pixel) : pixel :=
  let '(c0, c1, c2) := p in (c2, c1, c0).

Definition cvtColor_BGR2RGB (img : Image) : outcome Image :=
  if is_empty img then Raise cv2_error
  else Ret {| img_width := img_width img;
              img_rows := map (map swap_channels) (img_rows img) |}.

(** * The calls into OpenCV *)

(** The detectors the script can select: ['sift'], ['surf'], ['brisk'],
    ['orb']. *)
Inductive descriptor_method : Type := SIFT | SURF | BRISK | ORB.

Inductive norm_type : Type := NORM_L2 | NORM_HAMMING.

(** [cv2.DMatch]; the distance is a finite float, read as the rational it
    denotes (comparison of floats is exact). *)
Record DMatch : Type := {
  queryIdx : Z;
  trainIdx : Z;
  distance : Q
}.

Record OpenCV : Type := {
  gray_image : Type;
  KeyPoint : Type;
  point : Type;
  descriptors : Type;
  Mat3x3 : Type;
  inlier_mask : Type;
  (** [keypoint.pt], as a row of [np.float32] *)
  pt : KeyPoint -> point;
  (** [cv2.cvtColor(img, cv2.COLOR_RGB2GRAY)] *)
  cvtColor_RGB2GRAY : Image -> outcome gray_image;
  (** [cv2.X_create().detectAndCompute(image, None)] *)
  detectAndCompute : descriptor_method -> gray_image
                     -> outcome (list KeyPoint * descriptors);
  (** [cv2.BFMatcher(norm, crossCheck=c).match(a, b)] *)
  BFMatcher_match : norm_type -> bool -> descriptors -> descriptors
                    -> outcome (list DMatch);
  (** [cv2.findHomography(src, dst, cv2.RANSAC, thresh)]; the matrix is
      [None] when no model is found *)
  findHomography_RANSAC : list point -> list point -> Z
                          -> outcome (option Mat3x3 * inlier_mask);
  (** [cv2.warpPerspective(src, M, (width, height))] for a 3x3 matrix [M] *)
  warp : Image -> Mat3x3 -> Z * Z -> outcome Image;
  (** [cv2.resize(src, (width, height), interpolation=cv2.INTER_AREA)] *)
  resize_INTER_AREA : Image -> Z * Z -> outcome Image;
  (** [cv2.imdecode(np.frombuffer(data, np.uint8), cv2.IMREAD_COLOR)]; the
      result is [None] when the data cannot be decoded *)
  imdecode_COLOR : list byte -> outcome (option Image)
}.

(** What OpenCV documents about these calls and the results below rely on. *)
Record OpenCVSpec (cv : OpenCV) : Prop := {
  (** the output of [warpPerspective] has the requested size *)
  warp_shape : forall src M w h dst,
    warp cv src M (w, h) = Ret dst ->
    wf_image dst /\ Z.of_nat (shape0 dst) = h /\ Z.of_nat (shape1 dst) = w;
  (** [resize] to a positive size yields an array of that size *)
  resize_shape : forall src w h,
    is_empty src = false -> wf_image src ->
    (0 < w < 2 ^ 31)%Z -> (0 < h < 2 ^ 31)%Z ->
    exists dst, resize_INTER_AREA cv src (w, h) = Ret dst
                /\ wf_image dst
                /\ Z.of_nat (shape0 dst) = h /\ Z.of_nat (shape1 dst) = w;
  (** [resize] to a size with a zero or negative side fails *)
  resize_empty : forall src w h,
    (w <= 0)%Z \/ (h <= 0)%Z ->
    resize_INTER_AREA cv src (w, h) = Raise cv2_error;
  (** a decoded image is a non-empty array *)
  imdecode_image : forall data img,
    imdecode_COLOR cv data = Ret (Some img) ->
    wf_image img /\ is_empty img = false
}.

(** * [standardize_image] *)

Definition TARGET_WIDTH : Z := 1280.
Definition TARGET_HEIGHT : Z := 720.

Section Program.

Variable cv : OpenCV.

(** The scale factor and the scaled size, lines 30 to 35. *)
Definition scaled_size (h w target_width target_height : Z)
  : outcome (Z * Z) :=
  rw <- Float.int_truediv target_width w ;;
  rh <- Float.int_truediv target_height h ;;
  let scale_factor := Float.min rw rh in
  x <- Float.int_mul w scale_factor ;;
  new_width <- Float.to_int x ;;
  y <- Float.int_mul h scale_factor ;;
  new_height <- Float.to_int y ;;
  Ret (new_width, new_height).

Definition standardize_image (image : Image) (target_width target_height : Z)
  : outcome Image :=
  let h := Z.of_nat (shape0 image) in
  let w := Z.of_nat (shape1 image) in
  '(new_width, new_height) <- scaled_size h w target_width target_height ;;
  resized_image <- resize_INTER_AREA cv image (new_width, new_height) ;;
  standardized_image <- np_zeros target_height target_width ;;
  let y_offset := ((target_height - new_height) / 2)%Z in
  let x_offset := ((target_width - new_width) / 2)%Z in
  slice_assign standardized_image
               y_offset (y_offset + new_height)
               x_offset (x_offset + new_width)
               resized_image.

(** ** [stitch_images] *)

(** [select_descriptor_methods]: the method selects the detector. *)
Definition select_descriptor_methods (image : gray_image cv)
           (method : descriptor_method)
  : outcome (list (KeyPoint cv) * descriptors cv) :=
  detectAndCompute cv method image.

(** [create_matching_object]: the matcher is its norm and its
    cross-check flag. *)
Definition create_matching_object (method : descriptor_method)
           (crossCheck : bool) : norm_type * bool :=
  match method with
  | SIFT | SURF => (NORM_L2, crossCheck)
  | ORB | BRISK => (NORM_HAMMING, crossCheck)
  end.

(** [sorted(l, key=lambda x: x.distance)].  Python's sort is stable; a
    stable sort by a key has one possible result, computed here by
    insertion from the right. *)
Fixpoint insert_by_distance (m : DMatch) (l : list DMatch) : list DMatch :=
  match l with
  | [] => [m]
  | m' :: l' =>
      if Qle_bool (distance m) (distance m') then m :: l
      else m' :: insert_by_distance m l'
  end.

Fixpoint sorted_by_distance (l : list DMatch) : list DMatch :=
  match l with
  | [] => []
  | m :: l' => insert_by_distance m (sorted_by_distance l')
  end.

Definition key_points_matching
           (features_train_img features_query_img : descriptors cv)
           (method : descriptor_method) : outcome (list DMatch) :=
  let bf := create_matching_object method true in
  best_matches <- BFMatcher_match cv (fst bf) (snd bf)
                                  features_train_img features_query_img ;;
  let rawMatches := sorted_by_distance best_matches in
  Ret rawMatches.

(** [a[i]] on the first axis of an array: a negative index counts from the
    end, an index outside the axis raises [IndexError]. *)
Definition np_index {A : Type} (a : list A) (i : Z) : outcome A :=
  let n := Z.of_nat (length a) in
  let j := if (i <? 0)%Z then (i + n)%Z else i in
  if ((0 <=? j) && (j <? n))%Z then
    match nth_error a (Z.to_nat j) with
    | Some x => Ret x
    | None => Raise IndexError
    end
  else Raise IndexError.

Definition homography_stitching
           (keypoints_train_img keypoints_query_img : list (KeyPoint cv))
           (matches : list DMatch) (reprojThresh : Z)
  : outcome (option (list DMatch * option (Mat3x3 cv) * inlier_mask cv)) :=
  let keypoints_train_img := map (pt cv) keypoints_train_img in
  let keypoints_query_img := map (pt cv) keypoints_query_img in
  if (4 <? length matches)%nat then
    points_train <-
      comprehension (fun m => np_index keypoints_train_img (queryIdx m)) matches ;;
    points_query <-
      comprehension (fun m => np_index keypoints_query_img (trainIdx m)) matches ;;
    '(H, status) <- findHomography_RANSAC cv points_train points_query reprojThresh ;;
    Ret (Some (matches, H, status))
  else Ret None.

(** [cv2.warpPerspective(src, M, dsize)] where [M] may be [None]: OpenCV
    refuses an argument that is not a 3x3 matrix. *)
Definition warpPerspective (src : Image) (M : option (Mat3x3 cv))
           (dsize : Z * Z) : outcome Image :=
  match M with
  | Some m => warp cv src m dsize
  | None => Raise cv2_error
  end.

Definition stitch_images (train_image query_image : Image)
  : outcome (option Image) :=
  train_photo <- cvtColor_BGR2RGB train_image ;;
  train_photo_gray <- cvtColor_RGB2GRAY cv train_photo ;;
  query_photo <- cvtColor_BGR2RGB query_image ;;
  query_photo_gray <- cvtColor_RGB2GRAY cv query_photo ;;
  '(keypoints_train_img, features_train_img) <-
    select_descriptor_methods train_photo_gray SIFT ;;
  '(keypoints_query_img, features_query_img) <-
    select_descriptor_methods query_photo_gray SIFT ;;
  matches <- key_points_matching features_train_img features_query_img SIFT ;;
  M <- homography_stitching keypoints_train_img keypoints_query_img matches 4 ;;
  match M with
  | None => Ret None
  | Some (matches, Homography_Matrix, status) =>
      let width := (Z.of_nat (shape1 query_photo) + Z.of_nat (shape1 train_photo))%Z in
      let height := Z.max (Z.of_nat (shape0 query_photo)) (Z.of_nat (shape0 train_photo)) in
      result <- warpPerspective train_photo Homography_Matrix (width, height) ;;
      result <- slice_assign result
                             0 (Z.of_nat (shape0 query_photo))
                             0 (Z.of_nat (shape1 query_photo))
                             query_photo ;;
      Ret (Some result)
  end.

End Program.

(** * The Streamlit script *)

(** What the script does to the page and to the file system, and, for the
    sake of the statements below, each call of [stitch_images]. *)
Inductive event : Type :=
| st_title (body : string)
| st_write (body : string)
| st_file_uploader (label : string) (type : list string)
                   (accept_multiple_files : bool)
| st_error (body : string)
| st_subheader (body : string)
| st_columns (spec : nat)
| col_image (col : nat) (image : Image)
| st_spinner_enter (text : string)
| st_spinner_exit
| call_stitch_images (train_image query_image : Image)
| st_image (image : Image) (caption : string)
| imageio_imwrite (uri : string) (im : Image)
| st_download_button (label : string) (data : string) (file_name : string)
                     (mime : string).

(** A run of a piece of the script: the events so far and how it ended. *)
Definition script (A : Type) : Type := (list event * outcome A)%type.

Definition sret {A : Type} (a : A) : script A := ([], Ret a).

Definition sbind {A B : Type} (c : script A) (k : A -> script B) : script B :=
  match c with
  | (t, Ret a) => let (t', r) := k a in (t ++ t', r)
  | (t, Raise e) => (t, Raise e)
  end.

Definition emit (e : event) : script unit := ([e], Ret tt).

Definition lift {A : Type} (c : outcome A) : script A := ([], c).

Notation "x <~ c ;; k" := (sbind c (fun x => k))
  (at level 100, c at next level, right associativity) : py_scope.
Notation "c ;;; k" := (sbind c (fun _ => k))
  (at level 100, right associativity) : py_scope.

(** [with st.spinner(text): body]. *)
Definition with_spinner {A : Type} (text : string) (body : script A) : script A :=
  let (t, r) := body in (st_spinner_enter text :: t ++ [st_spinner_exit], r).

Definition is_None {A : Type} (x : option A) : bool :=
  match x with
  | None => true
  | Some _ => false
  end.

(** The arrays of a list in which no entry is [None]. *)
Fixpoint arrays {A : Type} (l : list (option A)) : list A :=
  match l with
  | [] => []
  | Some x :: l' => x :: arrays l'
  | None :: l' => arrays l'
  end.

Section App.

Variable cv : OpenCV.

(** [for col, img in zip(cols, images): col.image(img, ...)]. *)
Fixpoint show_columns (col : nat) (images : list Image) : script unit :=
  match images with
  | [] => sret tt
  | img :: images' => emit (col_image col img) ;;; show_columns (S col) images'
  end.

(** The loop of lines 150 to 154 over [images[1:]], from the value of
    [stitched_image] before it to its value after it. *)
Fixpoint stitching_loop (stitched_image : Image) (images : list Image)
  : script (option Image) :=
  match images with
  | [] => sret (Some stitched_image)
  | image_i :: images' =>
      emit (call_stitch_images stitched_image image_i) ;;;
      stitched_image <~ lift (stitch_images cv stitched_image image_i) ;;
      match stitched_image with
      | None =>
          emit (st_error "Error stitching images. Please ensure the images overlap sufficiently.") ;;;
          sret None
      | Some stitched_image => stitching_loop stitched_image images'
      end
  end.

Definition result_path : string := "stitched_image.jpg".

(** The script from the first line to the last, for one run of the page
    with the given uploaded files. *)
Definition main (uploaded_files : list (list byte)) : script unit :=
  emit (st_title "Image Stitching App") ;;;
  emit (st_write "Upload multiple images to stitch them together.") ;;;
  emit (st_file_uploader "Upload images (Train Image and Query Images)"
                         ["jpg"; "jpeg"; "png"] true) ;;;
  match uploaded_files with
  | [] => sret tt
  | _ :: _ =>
      images <~ lift (comprehension (imdecode_COLOR cv) uploaded_files) ;;
      if existsb is_None images then
        emit (st_error "Error loading one or more images. Please check the files.")
      else
        let images := arrays images in
        emit (st_subheader "Uploaded Images") ;;;
        emit (st_columns (length images)) ;;;
        show_columns 0 images ;;;
        emit (st_subheader "Stitched Image") ;;;
        stitched_image <~
          with_spinner "Stitching images..."
            (stitched_image <~ lift (np_index images 0) ;;
             stitching_loop stitched_image (skipn 1 images)) ;;
        match stitched_image with
        | Some stitched_image =>
            result_image <~ lift (cvtColor_BGR2RGB stitched_image) ;;
            emit (st_image result_image "Stitched Image") ;;;
            emit (imageio_imwrite result_path stitched_image) ;;;
            emit (st_download_button "Download Stitched Image" result_path
                                     result_path "image/jpeg")
        | None => sret tt
        end
  end.

End App.

(** * A small executable stand-in for OpenCV

    The script is run on concrete inputs with this stand-in: key points are
    the pixel positions, the descriptor of a key point is its pixel, the
    matcher is a brute-force matcher with cross-check, a homography is a
    translation that every correspondence agrees on, resampling takes the
    nearest sample, and an encoded image is its height, its width and its
    samples. *)
Module Demo.

(** The array of shape [(h, w, 3)] whose pixel at [(r, c)] is [f r c]. *)
Definition tabulate (h w : nat) (f : nat -> nat -> pixel) : Image :=
  {| img_width := w;
     img_rows := map (fun r => map (f r) (seq 0 w)) (seq 0 h) |}.

Definition pixel_at (img : Image) (r c : nat) : pixel :=
  nth c (nth r (img_rows img) []) black.

Definition positions (img : Image) : list (Z * Z) :=
  flat_map (fun r => map (fun c => (Z.of_nat c, Z.of_nat r)) (seq 0 (shape1 img)))
           (seq 0 (shape0 img)).

Definition detect (_ : descriptor_method) (img : Image)
  : outcome (list (Z * Z) * list pixel) :=
  if is_empty img then Raise cv2_error
  else Ret (positions img, concat (img_rows img)).

Definition sample_distance (a b : uint8) : Z :=
  Z.abs (Z.of_N (Byte.to_N a) - Z.of_N (Byte.to_N b)).

Definition pixel_distance (p q : pixel) : Z :=
  let '(p0, p1, p2) := p in
  let '(q0, q1, q2) := q in
  (sample_distance p0 q0 + sample_distance p1 q1 + sample_distance p2 q2)%Z.

(** The first position of [l] nearest to [p], and its distance. *)
Fixpoint nearest_from (p : pixel) (l : list pixel) (i : nat)
  : option (nat * Z) :=
  match l with
  | [] => None
  | q :: l' =>
      let d := pixel_distance p q in
      match nearest_from p l' (S i) with
      | Some (j, d') => if (d' <? d)%Z then Some (j, d') else Some (i, d)
      | None => Some (i, d)
      end
  end.

Definition nearest (p : pixel) (l : list pixel) : option (nat * Z) :=
  nearest_from p l 0.

Definition cross_checked (a b : list pixel) (i : nat) (p : pixel)
  : list DMatch :=
  match nearest p b with
  | Some (j, d) =>
      match nearest (nth j b black) a with
      | Some (i', _) =>
          if (i' =? i)%nat
          then [{| queryIdx := Z.of_nat i; trainIdx := Z.of_nat j;
                   distance := inject_Z d |}]
          else []
      | None => []
      end
  | None => []
  end.

Fixpoint match_from (a b : list pixel) (i : nat) (l : list pixel)
  : list DMatch :=
  match l with
  | [] => []
  | p :: l' => cross_checked a b i p ++ match_from a b (S i) l'
  end.

Definition bf_match (_ : norm_type) (_ : bool) (a b : list pixel)
  : outcome (list DMatch) :=
  Ret (match_from a b 0 a).

Definition displacement (p q : Z * Z) : Z * Z :=
  (fst q - fst p, snd q - snd p)%Z.

Definition same_displacement (d : Z * Z) (pq : (Z * Z) * (Z * Z)) : bool :=
  let d' := displacement (fst pq) (snd pq) in
  ((fst d' =? fst d) && (snd d' =? snd d))%Z.

Definition find_translation (src dst : list (Z * Z)) (_ : Z)
  : outcome (option (Z * Z) * list bool) :=
  match combine src dst with
  | [] => Raise cv2_error
  | (p, q) :: rest =>
      let d := displacement p q in
      if forallb (same_displacement d) rest
      then Ret (Some d, map (fun _ => true) src)
      else Ret (None, [])
  end.

Definition translate (src : Image) (d : Z * Z) (dsize : Z * Z)
  : outcome Image :=
  if ((fst dsize <=? 0) || (snd dsize <=? 0))%Z then Raise cv2_error
  else
    Ret (tabulate (Z.to_nat (snd dsize)) (Z.to_nat (fst dsize))
           (fun r c =>
              let r' := (Z.of_nat r - snd d)%Z in
              let c' := (Z.of_nat c - fst d)%Z in
              if ((0 <=? r') && (0 <=? c'))%Z
              then pixel_at src (Z.to_nat r') (Z.to_nat c')
              else black)).

Definition resize_nearest (src : Image) (dsize : Z * Z) : outcome Image :=
  if ((fst dsize <=? 0) || (snd dsize <=? 0))%Z || is_empty src
  then Raise cv2_error
  else
    let h := Z.to_nat (snd dsize) in
    let w := Z.to_nat (fst dsize) in
    Ret (tabulate h w
           (fun r c => pixel_at src (r * shape0 src / h) (c * shape1 src / w))).

Fixpoint take_pixels (n : nat) (data : list byte)
  : option (list pixel * list byte) :=
  match n with
  | O => Some ([], data)
  | S n' =>
      match data with
      | c0 :: c1 :: c2 :: data' =>
          match take_pixels n' data' with
          | Some (row, rest) => Some ((c0, c1, c2) :: row, rest)
          | None => None
          end
      | _ => None
      end
  end.

Fixpoint take_rows (h w : nat) (data : list byte)
  : option (list (list pixel) * list byte) :=
  match h with
  | O => Some ([], data)
  | S h' =>
      match take_pixels w data with
      | Some (row, rest) =>
          match take_rows h' w rest with
          | Some (rows, rest') => Some (row :: rows, rest')
          | None => None
          end
      | None => None
      end
  end.

Definition decode (data : list byte) : option Image :=
  match data with
  | bh :: bw :: samples =>
      let h := N.to_nat (Byte.to_N bh) in
      let w := N.to_nat (Byte.to_N bw) in
      if ((h =? 0) || (w =? 0))%nat then None
      else
        match take_rows h w samples with
        | Some (rows, []) => Some {| img_width := w; img_rows := rows |}
        | _ => None
        end
  | _ => None
  end.

(** Like OpenCV, the decoder refuses an empty buffer. *)
Definition imdecode (data : list byte) : outcome (option Image) :=
  match data with
  | [] => Raise cv2_error
  | _ :: _ => Ret (decode data)
  end.

Definition cv : OpenCV :=
  {| gray_image := Image;
     KeyPoint := (Z * Z)%type;
     point := (Z * Z)%type;
     descriptors := list pixel;
     Mat3x3 := (Z * Z)%type;
     inlier_mask := list bool;
     pt := fun k => k;
     cvtColor_RGB2GRAY := fun img => if is_empty img then Raise cv2_error else Ret img;
     detectAndCompute := detect;
     BFMatcher_match := bf_match;
     findHomography_RANSAC := find_translation;
     warp := translate;
     resize_INTER_AREA := resize_nearest;
     imdecode_COLOR := imdecode |}.

(** Some inputs. *)
Definition px (n : N) : pixel :=
  match Byte.of_N n, Byte.of_N (n + 1), Byte.of_N (n + 2) with
  | Some a, Some b, Some c => (a, b, c)
  | _, _, _ => black
  end.

(** One row of [w] pixels whose samples start at [n], [n + 10], ... *)
Definition strip (n : N) (w : nat) : Image :=
  tabulate 1 w (fun _ c => px (n + 10 * N.of_nat c)).

(** The same pixels from right to left. *)
Definition reversed_strip (n : N) (w : nat) : Image :=
  tabulate 1 w (fun _ c => px (n + 10 * N.of_nat (w - 1 - c))).

(** The file [decode] reads an image from. *)
Definition encode (img : Image) : list byte :=
  let size n := match Byte.of_N (N.of_nat n) with Some b => b | None => x00 end in
  size (shape0 img) :: size (shape1 img)
       :: flat_map (flat_map (fun p : pixel => let '(c0, c1, c2) := p in [c0; c1; c2]))
                   (img_rows img).

(** Six pixels in a row, four pixels in a row, the six from right to
    left, and a single pixel with three different samples. *)
Definition wide : Image := strip 0 6.
Definition narrow : Image := strip 0 4.
Definition backwards : Image := reversed_strip 0 6.
Definition dot : Image := tabulate 1 1 (fun _ _ => (x01, x02, x03)).

(** The six pixels of [wide], each sample raised by 3, 1, 2, 0, 4 and 1: a
    second picture of the same scene, every pixel a little off. *)
Definition shifted : Image :=
  tabulate 1 6 (fun _ c => px (nth c [3; 1; 2; 0; 4; 1]%N 0%N + 10 * N.of_nat c)).

(** The panorama of a pair, when there is one. *)
Definition stitched (train_image query_image : Image) : Image :=
  match stitch_images cv train_image query_image with
  | Ret (Some result) => result
  | _ => query_image
  end.

End Demo.

(** * Notions used in the statements *)

Section Notions.

Variable cv : OpenCV.

(** The part of [stitch_images] before [homography_stitching]: the two
    converted images, their key points and the sorted matches. *)
Definition detect_and_match (train_image query_image : Image)
  : outcome (Image * Image * list (KeyPoint cv) * list (KeyPoint cv)
             * list DMatch) :=
  train_photo <- cvtColor_BGR2RGB train_image ;;
  train_photo_gray <- cvtColor_RGB2GRAY cv train_photo ;;
  query_photo <- cvtColor_BGR2RGB query_image ;;
  query_photo_gray <- cvtColor_RGB2GRAY cv query_photo ;;
  '(keypoints_train_img, features_train_img) <-
    select_descriptor_methods cv train_photo_gray SIFT ;;
  '(keypoints_query_img, features_query_img) <-
    select_descriptor_methods cv query_photo_gray SIFT ;;
  matches <- key_points_matching cv features_train_img features_query_img SIFT ;;
  Ret (train_photo, query_photo, keypoints_train_img, keypoints_query_img,
       matches).

(** The part of [stitch_images] before the matcher, lines 60 to 80: the two
    converted images, their key points and their descriptors. *)
Definition detect_features (train_image query_image : Image)
  : outcome (Image * Image * list (KeyPoint cv) * list (KeyPoint cv)
             * descriptors cv * descriptors cv) :=
  train_photo <- cvtColor_BGR2RGB train_image ;;
  train_photo_gray <- cvtColor_RGB2GRAY cv train_photo ;;
  query_photo <- cvtColor_BGR2RGB query_image ;;
  query_photo_gray <- cvtColor_RGB2GRAY cv query_photo ;;
  '(keypoints_train_img, features_train_img) <-
    select_descriptor_methods cv train_photo_gray SIFT ;;
  '(keypoints_query_img, features_query_img) <-
    select_descriptor_methods cv query_photo_gray SIFT ;;
  Ret (train_photo, query_photo, keypoints_train_img, keypoints_query_img,
       features_train_img, features_query_img).

(** Every file decodes, to the images of the list in the same order. *)
Definition decoded (uploaded_files : list (list byte)) (images : list Image)
  : Prop :=
  Forall2 (fun data img => imdecode_COLOR cv data = Ret (Some img))
          uploaded_files images.

(** Stitching [images] one after the other onto [acc] succeeds at every
    pair and ends with the panorama [acc']. *)
Fixpoint stitches_to (acc : Image) (images : list Image) (acc' : Image)
  : Prop :=
  match images with
  | [] => acc' = acc
  | image_i :: images' =>
      exists s, stitch_images cv acc image_i = Ret (Some s)
                /\ stitches_to s images' acc'
  end.

End Notions.

(** A colour, by its parts.  The arrays of OpenCV ([cv2.imdecode], the
    arguments of [cv2.cvtColor(..., COLOR_BGR2RGB)]) hold the samples of a
    pixel in the order blue, green, red; [st.image] and [imageio.imwrite]
    read the samples of a pixel in the order red, green, blue. *)
Record colour : Type := {
  red : uint8;
  green : uint8;
  blue : uint8
}.

Definition read_bgr (p : pixel) : colour :=
  let '(c0, c1, c2) := p in {| red := c2; green := c1; blue := c0 |}.

Definition read_rgb (p : pixel) : colour :=
  let '(c0, c1, c2) := p in {| red := c0; green := c1; blue := c2 |}.

Definition exchange_red_blue (k : colour) : colour :=
  {| red := blue k; green := green k; blue := red k |}.

(** The colour at a place of the picture an array holds, for an array in
    the order of OpenCV and for an array as the two sinks read it. *)
Definition bgr_picture (img : Image) (r c : nat) : option colour :=
  option_map read_bgr (getpixel img r c).

Definition rgb_picture (img : Image) (r c : nat) : option colour :=
  option_map read_rgb (getpixel img r c).

(** The events that are calls of [stitch_images]. *)
Definition is_call (e : event) : bool :=
  match e with
  | call_stitch_images _ _ => true
  | _ => false
  end.

(** The events that show or offer a result. *)
Definition is_result (e : event) : bool :=
  match e with
  | st_image _ _ | imageio_imwrite _ _ | st_download_button _ _ _ _ => true
  | _ => false
  end.

(** The events that are error messages. *)
Definition is_error (e : event) : bool :=
  match e with
  | st_error _ => true
  | _ => false
  end.

(** Ascending distances. *)
Definition distance_le (m m' : DMatch) : Prop :=
  (distance m <= distance m')%Q.

(** A finite, positive, normalised binary64 number with its exponent between
    [lo] and [hi]. *)
Definition normal (x : Float.float) (lo hi : Z) : Prop :=
  exists m e, x = S754_finite false m e
              /\ (2 ^ 52 <= Zpos m < 2 ^ 53)%Z /\ (lo <= e <= hi)%Z.

(** The two integers whose quotient, [1 + 2^-52], bounds the growth of a
    number in one rounding. *)
Definition P52 : Q := inject_Z (2 ^ 52).
Definition P52' : Q := inject_Z (2 ^ 52 + 1).

(** The integer whose quotient by [2^52], [1 - 2^-52], bounds the loss of a
    number in one rounding. *)
Definition P52m : Q := inject_Z (2 ^ 52 - 1).

(** The events before the uploaded files are looked at. *)
Definition page_header : list event :=
  [st_title "Image Stitching App";
   st_write "Upload multiple images to stitch them together.";
   st_file_uploader "Upload images (Train Image and Query Images)"
                    ["jpg"; "jpeg"; "png"] true].

(** The events of [show_columns]. *)
Fixpoint column_events (col : nat) (images : list Image) : list event :=
  match images with
  | [] => []
  | img :: images' => col_image col img :: column_events (S col) images'
  end.

(** Lines 156 to 170: what the script does with [stitched_image] after the
    loop. *)
Definition show_result (stitched_image : option Image) : script unit :=
  match stitched_image with
  | Some stitched_image =>
      result_image <~ lift (cvtColor_BGR2RGB stitched_image) ;;
      emit (st_image result_image "Stitched Image") ;;;
      emit (imageio_imwrite result_path stitched_image) ;;;
      emit (st_download_button "Download Stitched Image" result_path
                               result_path "image/jpeg")
  | None => sret tt
  end.

Definition stitch_error_message : string :=
  "Error stitching images. Please ensure the images overlap sufficiently.".

Definition decode_error_message : string :=
  "Error loading one or more images. Please check the files.".

(** * Results and exceptions: basic facts *)

Lemma bind_Ret_inv {A B : Type} (c : outcome A) (k : A -> outcome B) (b : B) :
  bind c k = Ret b -> exists a, c = Ret a /\ k a = Ret b.
Proof.
  destruct c as [a | e]; simpl; intros H.
  - exists a. split; [reflexivity | exact H].
  - discriminate H.
Qed.

(** Splits a hypothesis [bind c k = Ret b] into its two steps, repeatedly. *)
Ltac bind_inv :=
  repeat match goal with
         | H : bind _ _ = Ret _ |- _ =>
             let a := fresh "v" in
             let E := fresh "E" in
             apply bind_Ret_inv in H; destruct H as [a [E H]]
         | H : (let '(_, _) := ?p in _) = Ret _ |- _ => destruct p
         | H : Ret _ = Ret _ |- _ => injection H as H
         end.

Lemma comprehension_Forall2 {A B : Type} (f : A -> outcome B) (l : list A)
      (ys : list B) :
  comprehension f l = Ret ys ->
  Forall2 (fun x y => f x = Ret y) l ys.
Proof.
  revert ys. induction l as [| x l IH]; simpl; intros ys H.
  - injection H as <-. constructor.
  - bind_inv. subst ys. constructor; [assumption | apply IH; assumption].
Qed.

(** * Arrays: basic facts *)

Lemma length_imap_from {A : Type} (f : nat -> A -> A) (l : list A) :
  forall i, length (imap_from f i l) = length l.
Proof.
  induction l as [| x l IH]; simpl; intros i; [reflexivity |].
  now rewrite IH.
Qed.

Lemma nth_error_imap_from {A : Type} (f : nat -> A -> A) (l : list A) :
  forall i k, nth_error (imap_from f i l) k
              = option_map (f (i + k)) (nth_error l k).
Proof.
  induction l as [| x l IH]; simpl; intros i k.
  - now destruct k.
  - destruct k as [| k]; simpl.
    + now rewrite Nat.add_0_r.
    + rewrite IH. now rewrite Nat.add_succ_r.
Qed.

Lemma Forall_imap_from {A : Type} (P : A -> Prop) (f : nat -> A -> A)
      (l : list A) :
  (forall i x, P x -> P (f i x)) ->
  Forall P l -> forall i, Forall P (imap_from f i l).
Proof.
  intros Hf Hl. induction Hl as [| x l Hx Hl IH]; simpl; intros i.
  - constructor.
  - constructor; [apply Hf; assumption | apply IH].
Qed.

Lemma slice_bound_inside (n : nat) (i : Z) :
  (0 <= i <= Z.of_nat n)%Z -> slice_bound n i = Z.to_nat i.
Proof.
  intros H. unfold slice_bound.
  destruct (Z.ltb_spec i 0); [lia |].
  now rewrite Z.min_l by lia.
Qed.

(** An assignment to a slice changes neither the shape of the array nor the
    length of any row. *)
Lemma slice_assign_shape (dst src res : Image) (ys ye xs xe : Z) :
  slice_assign dst ys ye xs xe src = Ret res ->
  shape0 res = shape0 dst /\ shape1 res = shape1 dst
  /\ (wf_image dst -> wf_image res).
Proof.
  unfold slice_assign.
  destruct (_ && _); [| discriminate].
  intros H. injection H as <-.
  unfold shape0, shape1, wf_image, imap. simpl.
  rewrite length_imap_from. repeat split.
  intros Hwf. apply Forall_imap_from; [| exact Hwf].
  intros i row Hrow. destruct (in_slice _ _ i); [| exact Hrow].
  now rewrite length_imap_from.
Qed.

(** Inside the slice the array holds the assigned samples. *)
Lemma slice_assign_inside (dst src res : Image) (h w : nat) (r c : nat) :
  wf_image dst ->
  shape0 src = h -> shape1 src = w ->
  h <= shape0 dst -> w <= shape1 dst ->
  slice_assign dst 0 (Z.of_nat h) 0 (Z.of_nat w) src = Ret res ->
  r < h -> c < w ->
  getpixel res r c = Some (nth c (nth r (img_rows src) []) black).
Proof.
  intros Hwf Hh Hw Hhd Hwd H Hr Hc.
  unfold slice_assign in H.
  rewrite !slice_bound_inside in H by lia.
  destruct (_ && _); [| discriminate].
  injection H as <-.
  unfold getpixel, imap. simpl.
  rewrite nth_error_imap_from. simpl.
  destruct (nth_error (img_rows dst) r) as [row |] eqn:Erow.
  2:{ apply nth_error_None in Erow. unfold shape0 in Hhd. lia. }
  simpl.
  assert (Hlen : length row = img_width dst).
  { unfold wf_image in Hwf. rewrite Forall_forall in Hwf.
    apply Hwf. eapply nth_error_In. exact Erow. }
  rewrite !Nat2Z.id.
  unfold in_slice. simpl.
  destruct (Nat.ltb_spec r h); [| lia]. simpl.
  rewrite nth_error_imap_from. simpl.
  destruct (nth_error row c) as [p |] eqn:Ep.
  2:{ apply nth_error_None in Ep. unfold shape1 in Hwd. lia. }
  simpl. destruct (Nat.ltb_spec c w); [| lia].
  rewrite !Nat.sub_0_r. unfold broadcast_index.
  rewrite Hh, Hw.
  destruct (Nat.eqb_spec h 1) as [-> |]; destruct (Nat.eqb_spec w 1) as [-> |];
    repeat match goal with
           | H : ?x < 1 |- _ => assert (x = 0) by lia; clear H; subst x
           end; reflexivity.
Qed.

Lemma cvtColor_BGR2RGB_inv (img res : Image) :
  cvtColor_BGR2RGB img = Ret res ->
  is_empty img = false
  /\ res = {| img_width := img_width img;
              img_rows := map (map swap_channels) (img_rows img) |}.
Proof.
  unfold cvtColor_BGR2RGB. destruct (is_empty img); [discriminate |].
  intros H. injection H as <-. split; reflexivity.
Qed.

Lemma cvtColor_BGR2RGB_shape (img res : Image) :
  cvtColor_BGR2RGB img = Ret res ->
  shape0 res = shape0 img /\ shape1 res = shape1 img
  /\ (wf_image img -> wf_image res).
Proof.
  intros H. apply cvtColor_BGR2RGB_inv in H. destruct H as [_ ->].
  unfold shape0, shape1, wf_image. simpl. rewrite length_map.
  repeat split. intros Hwf. rewrite Forall_map.
  eapply Forall_impl; [| exact Hwf].
  intros row Hrow. now rewrite length_map.
Qed.

(** The pixel of a converted image is the pixel of the image with its first
    and third samples exchanged. *)
Lemma cvtColor_BGR2RGB_pixel (img res : Image) (r c : nat) :
  cvtColor_BGR2RGB img = Ret res ->
  getpixel res r c = option_map swap_channels (getpixel img r c).
Proof.
  intros H. apply cvtColor_BGR2RGB_inv in H. destruct H as [_ ->].
  unfold getpixel. simpl. rewrite nth_error_map.
  destruct (nth_error (img_rows img) r) as [row |]; simpl; [| reflexivity].
  now rewrite nth_error_map.
Qed.

Lemma getpixel_nth (img : Image) (r c : nat) :
  wf_image img -> r < shape0 img -> c < shape1 img ->
  getpixel img r c = Some (nth c (nth r (img_rows img) []) black).
Proof.
  intros Hwf Hr Hc. unfold getpixel.
  destruct (nth_error (img_rows img) r) as [row |] eqn:Erow.
  2:{ apply nth_error_None in Erow. unfold shape0 in Hr. lia. }
  assert (Hlen : length row = img_width img).
  { unfold wf_image in Hwf. rewrite Forall_forall in Hwf.
    apply Hwf. eapply nth_error_In. exact Erow. }
  rewrite (nth_error_nth _ _ [] Erow).
  apply nth_error_nth'. unfold shape1 in Hc. lia.
Qed.

(** * [sorted] by distance *)

Lemma insert_by_distance_Permutation (m : DMatch) (l : list DMatch) :
  Permutation (m :: l) (insert_by_distance m l).
Proof.
  induction l as [| m' l IH]; simpl.
  - apply Permutation_refl.
  - destruct (Qle_bool (distance m) (distance m')).
    + apply Permutation_refl.
    + apply perm_trans with (m' :: m :: l); [apply perm_swap |].
      apply perm_skip. exact IH.
Qed.

Lemma sorted_by_distance_Permutation (l : list DMatch) :
  Permutation l (sorted_by_distance l).
Proof.
  induction l as [| m l IH]; simpl.
  - apply perm_nil.
  - apply perm_trans with (m :: sorted_by_distance l).
    + apply perm_skip. exact IH.
    + apply insert_by_distance_Permutation.
Qed.

Lemma distance_le_trans : Relations_1.Transitive distance_le.
Proof.
  intros a b c Hab Hbc. unfold distance_le in *.
  eapply Qle_trans; eassumption.
Qed.

Lemma insert_by_distance_Sorted (m : DMatch) (l : list DMatch) :
  Sorted distance_le l -> Sorted distance_le (insert_by_distance m l).
Proof.
  induction 1 as [| m' l Hl IH Hhd]; simpl.
  - repeat constructor.
  - destruct (Qle_bool (distance m) (distance m')) eqn:E.
    + constructor; [constructor; assumption |].
      constructor. apply Qle_bool_iff. exact E.
    + assert (Hlt : distance_le m' m).
      { unfold distance_le. apply Qlt_le_weak. apply Qnot_le_lt.
        intros Hle. apply Qle_bool_iff in Hle. congruence. }
      constructor; [exact IH |].
      destruct Hhd as [| m'' l' Hm'']; simpl.
      * constructor. exact Hlt.
      * destruct (Qle_bool (distance m) (distance m'')); constructor; assumption.
Qed.

Lemma sorted_by_distance_Sorted (l : list DMatch) :
  StronglySorted distance_le (sorted_by_distance l).
Proof.
  apply Sorted_StronglySorted; [exact distance_le_trans |].
  induction l as [| m l IH]; simpl.
  - constructor.
  - apply insert_by_distance_Sorted. exact IH.
Qed.

(** The sort is stable: the matches at any one distance keep the order the
    matcher gave them. *)
Lemma sorted_by_distance_stable (d : Q) (l : list DMatch) :
  filter (fun m => Qeq_bool (distance m) d) (sorted_by_distance l)
  = filter (fun m => Qeq_bool (distance m) d) l.
Proof.
  induction l as [| m l IH]; simpl; [reflexivity |].
  rewrite <- IH. clear IH.
  induction (sorted_by_distance l) as [| m' s IHs]; simpl; [reflexivity |].
  destruct (Qle_bool (distance m) (distance m')) eqn:E; simpl; [reflexivity |].
  rewrite IHs.
  destruct (Qeq_bool (distance m) d) eqn:Em; [| reflexivity].
  destruct (Qeq_bool (distance m') d) eqn:Em'; [| reflexivity].
  exfalso.
  apply Qeq_bool_iff in Em. apply Qeq_bool_iff in Em'.
  assert (Hle : (distance m <= distance m')%Q).
  { rewrite Em, Em'. apply Qle_refl. }
  apply Qle_bool_iff in Hle. congruence.
Qed.

(** * [stitch_images]: how a call proceeds *)

Lemma stitch_images_steps (cv : OpenCV) (train_image query_image : Image) :
  stitch_images cv train_image query_image
  = ('(train_photo, query_photo, keypoints_train_img, keypoints_query_img,
       matches) <- detect_and_match cv train_image query_image ;;
     M <- homography_stitching cv keypoints_train_img keypoints_query_img
                               matches 4 ;;
     match M with
     | None => Ret None
     | Some (matches, Homography_Matrix, status) =>
         let width := (Z.of_nat (shape1 query_photo) + Z.of_nat (shape1 train_photo))%Z in
         let height := Z.max (Z.of_nat (shape0 query_photo)) (Z.of_nat (shape0 train_photo)) in
         result <- warpPerspective cv train_photo Homography_Matrix (width, height) ;;
         result <- slice_assign result
                                0 (Z.of_nat (shape0 query_photo))
                                0 (Z.of_nat (shape1 query_photo))
                                query_photo ;;
         Ret (Some result)
     end).
Proof.
  unfold stitch_images, detect_and_match, select_descriptor_methods,
    key_points_matching.
  destruct (cvtColor_BGR2RGB train_image) as [tp |]; simpl; [| reflexivity].
  destruct (cvtColor_RGB2GRAY cv tp) as [tg |]; simpl; [| reflexivity].
  destruct (cvtColor_BGR2RGB query_image) as [qp |]; simpl; [| reflexivity].
  destruct (cvtColor_RGB2GRAY cv qp) as [qg |]; simpl; [| reflexivity].
  destruct (detectAndCompute cv SIFT tg) as [[kt ft] |]; simpl; [| reflexivity].
  destruct (detectAndCompute cv SIFT qg) as [[kq fq] |]; simpl; [| reflexivity].
  destruct (BFMatcher_match cv NORM_L2 true ft fq) as [best |]; simpl;
    reflexivity.
Qed.

Lemma homography_stitching_few (cv : OpenCV) kt kq (ms : list DMatch) thr :
  length ms <= 4 -> homography_stitching cv kt kq ms thr = Ret None.
Proof.
  intros H. unfold homography_stitching.
  destruct (Nat.ltb_spec 4 (length ms)); [lia | reflexivity].
Qed.

Lemma homography_stitching_Some (cv : OpenCV) kt kq (ms : list DMatch) thr r :
  homography_stitching cv kt kq ms thr = Ret (Some r) ->
  4 < length ms
  /\ exists points_train points_query H status,
      r = (ms, H, status)
      /\ comprehension (fun m => np_index (map (pt cv) kt) (queryIdx m)) ms
         = Ret points_train
      /\ comprehension (fun m => np_index (map (pt cv) kq) (trainIdx m)) ms
         = Ret points_query
      /\ findHomography_RANSAC cv points_train points_query thr = Ret (H, status).
Proof.
  unfold homography_stitching.
  destruct (Nat.ltb_spec 4 (length ms)) as [Hlt | Hge]; [| discriminate].
  intros H. split; [exact Hlt |].
  bind_inv. subst r.
  eauto 10.
Qed.

Lemma homography_stitching_None (cv : OpenCV) kt kq (ms : list DMatch) thr :
  homography_stitching cv kt kq ms thr = Ret None -> length ms <= 4.
Proof.
  unfold homography_stitching.
  destruct (Nat.ltb_spec 4 (length ms)) as [Hlt | Hge]; [| lia].
  intros H. bind_inv. discriminate H.
Qed.

Lemma detect_and_match_inv (cv : OpenCV) (train_image query_image : Image)
      train_photo query_photo kt kq ms :
  detect_and_match cv train_image query_image
  = Ret (train_photo, query_photo, kt, kq, ms) ->
  cvtColor_BGR2RGB train_image = Ret train_photo
  /\ cvtColor_BGR2RGB query_image = Ret query_photo
  /\ exists features_train_img features_query_img,
      key_points_matching cv features_train_img features_query_img SIFT
      = Ret ms.
Proof.
  unfold detect_and_match, select_descriptor_methods.
  destruct (cvtColor_BGR2RGB train_image) as [tp |]; simpl; [| discriminate].
  destruct (cvtColor_RGB2GRAY cv tp) as [tg |]; simpl; [| discriminate].
  destruct (cvtColor_BGR2RGB query_image) as [qp |]; simpl; [| discriminate].
  destruct (cvtColor_RGB2GRAY cv qp) as [qg |]; simpl; [| discriminate].
  destruct (detectAndCompute cv SIFT tg) as [[kt' ft] |]; simpl; [| discriminate].
  destruct (detectAndCompute cv SIFT qg) as [[kq' fq] |]; simpl; [| discriminate].
  destruct (key_points_matching cv ft fq SIFT) as [ms' |] eqn:E; simpl;
    [| discriminate].
  intros H. injection H as -> -> -> -> ->.
  repeat split. exists ft, fq. exact E.
Qed.

Lemma warpPerspective_inv (cv : OpenCV) src M dsize dst :
  warpPerspective cv src M dsize = Ret dst ->
  exists m, M = Some m /\ warp cv src m dsize = Ret dst.
Proof.
  destruct M as [m |]; simpl; [| discriminate].
  intros H. exists m. split; [reflexivity | exact H].
Qed.

(** A successful call, step by step. *)
Lemma stitch_images_Some_inv (cv : OpenCV) (train_image query_image result : Image) :
  stitch_images cv train_image query_image = Ret (Some result) ->
  exists train_photo query_photo kt kq ms H status warped,
    detect_and_match cv train_image query_image
    = Ret (train_photo, query_photo, kt, kq, ms)
    /\ homography_stitching cv kt kq ms 4 = Ret (Some (ms, Some H, status))
    /\ warp cv train_photo H
            ((Z.of_nat (shape1 query_photo) + Z.of_nat (shape1 train_photo))%Z,
             Z.max (Z.of_nat (shape0 query_photo)) (Z.of_nat (shape0 train_photo)))
       = Ret warped
    /\ slice_assign warped 0 (Z.of_nat (shape0 query_photo))
                    0 (Z.of_nat (shape1 query_photo)) query_photo
       = Ret result.
Proof.
  intros H. rewrite stitch_images_steps in H.
  apply bind_Ret_inv in H. destruct H as [[[[[tp qp] kt] kq] ms] [E H]].
  apply bind_Ret_inv in H. destruct H as [M [EM H]].
  destruct M as [[[ms' Hm] status] |]; [| discriminate].
  apply bind_Ret_inv in H. destruct H as [warped [Ew H]].
  apply bind_Ret_inv in H. destruct H as [res [Es H]].
  injection H as ->.
  apply warpPerspective_inv in Ew. destruct Ew as [m [-> Ew]].
  destruct (homography_stitching_Some _ _ _ _ _ _ EM)
    as [_ (pt' & pq' & H' & st' & Er & _)].
  injection Er as -> _ _.
  exists tp, qp, kt, kq, ms, m, status, warped. auto.
Qed.

(** * The stand-in satisfies what is assumed of OpenCV *)

Lemma tabulate_shape0 (h w : nat) f : shape0 (Demo.tabulate h w f) = h.
Proof.
  unfold shape0, Demo.tabulate. simpl. now rewrite length_map, length_seq.
Qed.

Lemma tabulate_shape1 (h w : nat) f : shape1 (Demo.tabulate h w f) = w.
Proof. reflexivity. Qed.

Lemma tabulate_wf (h w : nat) f : wf_image (Demo.tabulate h w f).
Proof.
  unfold wf_image, Demo.tabulate. simpl. rewrite Forall_map.
  apply Forall_forall. intros r _. now rewrite length_map, length_seq.
Qed.

Lemma take_pixels_length (n : nat) :
  forall data row rest,
    Demo.take_pixels n data = Some (row, rest) -> length row = n.
Proof.
  induction n as [| n IH]; simpl; intros data row rest H.
  - injection H as <- _. reflexivity.
  - destruct data as [| c0 [| c1 [| c2 data]]]; try discriminate.
    destruct (Demo.take_pixels n data) as [[row' rest'] |] eqn:E;
      [| discriminate].
    injection H as <- _. simpl. f_equal. eapply IH. exact E.
Qed.

Lemma take_rows_shape (h w : nat) :
  forall data rows rest,
    Demo.take_rows h w data = Some (rows, rest) ->
    length rows = h /\ Forall (fun row => length row = w) rows.
Proof.
  induction h as [| h IH]; simpl; intros data rows rest H.
  - injection H as <- _. split; [reflexivity | constructor].
  - destruct (Demo.take_pixels w data) as [[row rest1] |] eqn:Er;
      [| discriminate].
    destruct (Demo.take_rows h w rest1) as [[rows' rest2] |] eqn:Es;
      [| discriminate].
    injection H as <- _.
    destruct (IH _ _ _ Es) as [Hl Hf].
    split; [simpl; now rewrite Hl |].
    constructor; [eapply take_pixels_length; exact Er | exact Hf].
Qed.

Lemma demo_cv_spec : OpenCVSpec Demo.cv.
Proof.
  constructor; simpl.
  - intros src M w h dst. unfold Demo.translate. simpl.
    destruct (Z.leb_spec w 0) as [Hw | Hw]; simpl; [discriminate |].
    destruct (Z.leb_spec h 0) as [Hh | Hh]; simpl; [discriminate |].
    intros E. injection E as <-.
    rewrite tabulate_shape0, tabulate_shape1.
    split; [apply tabulate_wf | lia].
  - intros src w h Hne _ Hw Hh. unfold Demo.resize_nearest. simpl.
    destruct (Z.leb_spec w 0) as [Hw0 | Hw0]; [lia |].
    destruct (Z.leb_spec h 0) as [Hh0 | Hh0]; [lia |].
    rewrite Hne. simpl. eexists. split; [reflexivity |].
    rewrite tabulate_shape0, tabulate_shape1.
    split; [apply tabulate_wf | lia].
  - intros src w h Hwh. unfold Demo.resize_nearest. simpl.
    destruct (Z.leb_spec w 0) as [Hw | Hw]; simpl; [reflexivity |].
    destruct (Z.leb_spec h 0) as [Hh | Hh]; simpl; [reflexivity | lia].
  - intros data img. unfold Demo.imdecode, Demo.decode.
    destruct data as [| bh [| bw samples]]; try discriminate.
    destruct (orb _ _) eqn:E0; [discriminate |].
    destruct (Demo.take_rows _ _ samples) as [[rows rest] |] eqn:E;
      [| discriminate].
    destruct rest; [| discriminate].
    intros Ei. injection Ei as <-.
    destruct (take_rows_shape _ _ _ _ _ E) as [Hl Hf].
    split; [exact Hf |].
    unfold is_empty, shape0, shape1. simpl. rewrite Hl. exact E0.
Qed.

(** * Pairwise stitching *)

(** C1.  The homography is estimated only for a match set of more than 4
    entries: with 4 matches or fewer [homography_stitching] answers [None]
    whatever the estimator would do, and when it answers a triple the match
    set has more than 4 entries and the triple comes from the estimator.
    [stitch_images] returns [None] exactly when the matches of the pair were
    computed and are fewer than 5. *)
Theorem stitch_images_None_iff_few_matches (cv : OpenCV) :
  (forall kt kq ms thr,
      length ms <= 4 -> homography_stitching cv kt kq ms thr = Ret None)
  /\ (forall kt kq ms thr ms' H status,
         homography_stitching cv kt kq ms thr = Ret (Some (ms', H, status)) ->
         4 < length ms
         /\ exists points_train points_query,
             findHomography_RANSAC cv points_train points_query thr
             = Ret (H, status))
  /\ (forall train_image query_image,
         stitch_images cv train_image query_image = Ret None
         <-> exists train_photo query_photo kt kq ms,
             detect_and_match cv train_image query_image
             = Ret (train_photo, query_photo, kt, kq, ms)
             /\ length ms < 5).
Proof.
  split; [| split].
  - intros kt kq ms thr Hlen. apply homography_stitching_few. exact Hlen.
  - intros kt kq ms thr ms' H status E.
    destruct (homography_stitching_Some _ _ _ _ _ _ E)
      as [Hlen (pt' & pq' & H' & st' & Er & _ & _ & Ef)].
    injection Er as _ -> ->.
    split; [exact Hlen |]. exists pt', pq'. exact Ef.
  - intros train_image query_image. rewrite stitch_images_steps. split.
    + intros H.
      apply bind_Ret_inv in H. destruct H as [[[[[tp qp] kt] kq] ms] [E H]].
      apply bind_Ret_inv in H. destruct H as [M [EM H]].
      destruct M as [[[ms' Hm] status] |].
      * apply bind_Ret_inv in H. destruct H as [warped [_ H]].
        apply bind_Ret_inv in H. destruct H as [res [_ H]].
        discriminate H.
      * apply homography_stitching_None in EM.
        exists tp, qp, kt, kq, ms. split; [exact E | lia].
    + intros (tp & qp & kt & kq & ms & E & Hlen).
      rewrite E. simpl.
      rewrite homography_stitching_few by lia. reflexivity.
Qed.

(** C2, as the code behaves.  When the pair has more than 4 matches and the
    estimator finds no model, the call of [warpPerspective] with [None] in
    place of the matrix raises: [stitch_images] does not return [None]. *)
Theorem stitch_images_raises_without_homography
        (cv : OpenCV) (train_image query_image : Image)
        train_photo query_photo kt kq ms points_train points_query status :
  detect_and_match cv train_image query_image
  = Ret (train_photo, query_photo, kt, kq, ms) ->
  4 < length ms ->
  comprehension (fun m => np_index (map (pt cv) kt) (queryIdx m)) ms
  = Ret points_train ->
  comprehension (fun m => np_index (map (pt cv) kq) (trainIdx m)) ms
  = Ret points_query ->
  findHomography_RANSAC cv points_train points_query 4 = Ret (None, status) ->
  stitch_images cv train_image query_image = Raise cv2_error.
Proof.
  intros E Hlen Et Eq Ef.
  rewrite stitch_images_steps, E. simpl.
  unfold homography_stitching.
  destruct (Nat.ltb_spec 4 (length ms)); [| lia].
  rewrite Et. simpl. rewrite Eq. simpl. rewrite Ef. reflexivity.
Qed.

(** C3.  The canvas of a successful stitch is as wide as the two images
    together and as high as the higher of the two; stitching an image with
    itself therefore gives a canvas at least as large as the image in both
    directions, and its larger side is at least the larger side of the
    image. *)
Theorem stitch_images_canvas_size
        (cv : OpenCV) (train_image query_image result : Image) :
  OpenCVSpec cv ->
  stitch_images cv train_image query_image = Ret (Some result) ->
  shape1 result = shape1 query_image + shape1 train_image
  /\ shape0 result = Nat.max (shape0 query_image) (shape0 train_image)
  /\ (train_image = query_image ->
      shape0 query_image <= shape0 result
      /\ shape1 query_image <= shape1 result
      /\ Nat.max (shape0 query_image) (shape1 query_image)
         <= Nat.max (shape0 result) (shape1 result)).
Proof.
  intros L H.
  destruct (stitch_images_Some_inv _ _ _ _ H)
    as (tp & qp & kt & kq & ms & Hm & status & warped & E & _ & Ew & Es).
  destruct (detect_and_match_inv _ _ _ _ _ _ _ _ E) as (Et & Eq & _).
  destruct (cvtColor_BGR2RGB_shape _ _ Et) as (Ht0 & Ht1 & _).
  destruct (cvtColor_BGR2RGB_shape _ _ Eq) as (Hq0 & Hq1 & _).
  destruct (warp_shape cv L _ _ _ _ _ Ew) as (_ & Hw0 & Hw1).
  destruct (slice_assign_shape _ _ _ _ _ _ _ Es) as (Hr0 & Hr1 & _).
  assert (W : shape1 result = shape1 query_image + shape1 train_image) by lia.
  assert (Hh : shape0 result = Nat.max (shape0 query_image) (shape0 train_image))
    by lia.
  split; [exact W |]. split; [exact Hh |].
  intros ->. lia.
Qed.

(** C4, as the code behaves.  Inside the top-left rectangle of the size of
    the query image, every pixel of the canvas of a successful stitch is the
    pixel of the query image at the same place with its first and third
    samples exchanged (the query image converted from BGR to RGB), whatever
    the warped train image holds there. *)
Theorem stitch_images_paste_precedence
        (cv : OpenCV) (train_image query_image result : Image) (r c : nat) :
  OpenCVSpec cv ->
  wf_image query_image ->
  stitch_images cv train_image query_image = Ret (Some result) ->
  r < shape0 query_image -> c < shape1 query_image ->
  exists p, getpixel query_image r c = Some p
            /\ getpixel result r c = Some (swap_channels p).
Proof.
  intros L Hwf H Hr Hc.
  destruct (stitch_images_Some_inv _ _ _ _ H)
    as (tp & qp & kt & kq & ms & Hm & status & warped & E & _ & Ew & Es).
  destruct (detect_and_match_inv _ _ _ _ _ _ _ _ E) as (Et & Eq & _).
  destruct (cvtColor_BGR2RGB_shape _ _ Et) as (Ht0 & Ht1 & _).
  destruct (cvtColor_BGR2RGB_shape _ _ Eq) as (Hq0 & Hq1 & Hqwf).
  destruct (warp_shape cv L _ _ _ _ _ Ew) as (Hwwf & Hw0 & Hw1).
  exists (nth c (nth r (img_rows query_image) []) black).
  split; [apply getpixel_nth; assumption |].
  assert (Hp : getpixel result r c
               = Some (nth c (nth r (img_rows qp) []) black)).
  { eapply slice_assign_inside with (dst := warped) (h := shape0 qp)
                                    (w := shape1 qp);
      try eassumption; try reflexivity; lia. }
  rewrite Hp.
  rewrite <- (getpixel_nth qp) by (auto; lia).
  rewrite (cvtColor_BGR2RGB_pixel query_image qp r c Eq).
  rewrite getpixel_nth by assumption. reflexivity.
Qed.

(** [stitch_images] after the features of the two images are computed. *)
Lemma stitch_images_from_features
      (cv : OpenCV) (train_image query_image train_photo query_photo : Image)
      kt kq ft fq :
  detect_features cv train_image query_image
  = Ret (train_photo, query_photo, kt, kq, ft, fq) ->
  stitch_images cv train_image query_image
  = (matches <- key_points_matching cv ft fq SIFT ;;
     M <- homography_stitching cv kt kq matches 4 ;;
     match M with
     | None => Ret None
     | Some (matches, Homography_Matrix, status) =>
         let width := (Z.of_nat (shape1 query_photo) + Z.of_nat (shape1 train_photo))%Z in
         let height := Z.max (Z.of_nat (shape0 query_photo)) (Z.of_nat (shape0 train_photo)) in
         result <- warpPerspective cv train_photo Homography_Matrix (width, height) ;;
         result <- slice_assign result
                                0 (Z.of_nat (shape0 query_photo))
                                0 (Z.of_nat (shape1 query_photo))
                                query_photo ;;
         Ret (Some result)
     end).
Proof.
  unfold detect_features, stitch_images, select_descriptor_methods.
  destruct (cvtColor_BGR2RGB train_image) as [tp |]; simpl; [| discriminate].
  destruct (cvtColor_RGB2GRAY cv tp) as [tg |]; simpl; [| discriminate].
  destruct (cvtColor_BGR2RGB query_image) as [qp |]; simpl; [| discriminate].
  destruct (cvtColor_RGB2GRAY cv qp) as [qg |]; simpl; [| discriminate].
  destruct (detectAndCompute cv SIFT tg) as [[kt' ft'] |]; simpl; [| discriminate].
  destruct (detectAndCompute cv SIFT qg) as [[kq' fq'] |]; simpl; [| discriminate].
  intros H. injection H as -> -> -> -> -> ->. reflexivity.
Qed.

(** C8.  In every call of [stitch_images] in which the matcher answers, the
    list [key_points_matching] returns is the list of the matcher in
    ascending order of distance, with the same matches, and the call goes
    on with that list and no other: with 4 matches or fewer it returns
    [None], and with more the two point lists are computed from every match
    of the sorted list, in its order, one point for each match, and these
    two lists are the arguments of [cv2.findHomography], whose matrix is the
    one the train image is warped with. *)
Theorem stitch_images_estimates_from_all_sorted_matches
        (cv : OpenCV) (train_image query_image train_photo query_photo : Image)
        (kt kq : list (KeyPoint cv)) (ft fq : descriptors cv)
        (best_matches : list DMatch) :
  detect_features cv train_image query_image
  = Ret (train_photo, query_photo, kt, kq, ft, fq) ->
  BFMatcher_match cv NORM_L2 true ft fq = Ret best_matches ->
  exists matches,
    key_points_matching cv ft fq SIFT = Ret matches
    /\ StronglySorted distance_le matches
    /\ Permutation best_matches matches
    /\ stitch_images cv train_image query_image
       = (if (4 <? length matches)%nat then
            points_train <-
              comprehension (fun m => np_index (map (pt cv) kt) (queryIdx m))
                            matches ;;
            points_query <-
              comprehension (fun m => np_index (map (pt cv) kq) (trainIdx m))
                            matches ;;
            '(H, status) <-
              findHomography_RANSAC cv points_train points_query 4 ;;
            result <-
              warpPerspective cv train_photo H
                ((Z.of_nat (shape1 query_photo)
                  + Z.of_nat (shape1 train_photo))%Z,
                 Z.max (Z.of_nat (shape0 query_photo))
                       (Z.of_nat (shape0 train_photo))) ;;
            result <- slice_assign result
                                   0 (Z.of_nat (shape0 query_photo))
                                   0 (Z.of_nat (shape1 query_photo))
                                   query_photo ;;
            Ret (Some result)
          else Ret None)
    /\ (forall points_train,
           comprehension (fun m => np_index (map (pt cv) kt) (queryIdx m))
                         matches
           = Ret points_train ->
           length points_train = length best_matches
           /\ Forall2 (fun m p => np_index (map (pt cv) kt) (queryIdx m) = Ret p)
                      matches points_train)
    /\ (forall points_query,
           comprehension (fun m => np_index (map (pt cv) kq) (trainIdx m))
                         matches
           = Ret points_query ->
           length points_query = length best_matches
           /\ Forall2 (fun m p => np_index (map (pt cv) kq) (trainIdx m) = Ret p)
                      matches points_query).
Proof.
  intros Hd Hb.
  assert (Hk : key_points_matching cv ft fq SIFT
               = Ret (sorted_by_distance best_matches)).
  { unfold key_points_matching. simpl. rewrite Hb. reflexivity. }
  pose proof (sorted_by_distance_Permutation best_matches) as Hp.
  exists (sorted_by_distance best_matches).
  split; [exact Hk |].
  split; [apply sorted_by_distance_Sorted |].
  split; [exact Hp |].
  split.
  { rewrite (stitch_images_from_features cv _ _ _ _ _ _ _ _ Hd), Hk.
    cbn [bind]. unfold homography_stitching.
    destruct (4 <? length (sorted_by_distance best_matches))%nat;
      [| reflexivity].
    destruct (comprehension _ (sorted_by_distance best_matches))
      as [points_train |]; cbn [bind]; [| reflexivity].
    destruct (comprehension _ (sorted_by_distance best_matches))
      as [points_query |]; cbn [bind]; [| reflexivity].
    destruct (findHomography_RANSAC cv points_train points_query 4)
      as [[H status] |]; reflexivity. }
  split.
  - intros points Hc. apply comprehension_Forall2 in Hc.
    split; [| exact Hc].
    rewrite <- (Forall2_length Hc). symmetry. apply Permutation_length, Hp.
  - intros points Hc. apply comprehension_Forall2 in Hc.
    split; [| exact Hc].
    rewrite <- (Forall2_length Hc). symmetry. apply Permutation_length, Hp.
Qed.

(** * The script: how a run proceeds *)

Lemma show_columns_run (images : list Image) :
  forall col, show_columns col images = (column_events col images, Ret tt).
Proof.
  induction images as [| img images IH]; intros col; simpl.
  - reflexivity.
  - rewrite IH. reflexivity.
Qed.

Lemma existsb_is_None_map_Some {A : Type} (l : list A) :
  existsb is_None (map Some l) = false.
Proof. induction l as [| x l IH]; simpl; [reflexivity | exact IH]. Qed.

Lemma arrays_map_Some {A : Type} (l : list A) : arrays (map Some l) = l.
Proof. induction l as [| x l IH]; simpl; [reflexivity | now rewrite IH]. Qed.

Lemma decoded_comprehension (cv : OpenCV) (uploaded_files : list (list byte))
      (images : list Image) :
  decoded cv uploaded_files images ->
  comprehension (imdecode_COLOR cv) uploaded_files = Ret (map Some images).
Proof.
  induction 1 as [| data img files images Hd Hf IH]; simpl.
  - reflexivity.
  - rewrite Hd. simpl. rewrite IH. reflexivity.
Qed.

Lemma comprehension_In {A B : Type} (f : A -> outcome B) (l : list A)
      (ys : list B) (x : A) :
  comprehension f l = Ret ys -> In x l -> exists y, In y ys /\ f x = Ret y.
Proof.
  intros H Hin. apply comprehension_Forall2 in H.
  induction H as [| x' y l' ys' Hxy Hl IH]; [destruct Hin |].
  destruct Hin as [-> | Hin].
  - exists y. split; [left; reflexivity | exact Hxy].
  - destruct (IH Hin) as [y' [Hy' Hf]]. exists y'. split; [right |]; assumption.
Qed.

Lemma comprehension_total {A B : Type} (f : A -> outcome B) (l : list A) :
  (forall x, In x l -> exists y, f x = Ret y) ->
  exists ys, comprehension f l = Ret ys.
Proof.
  induction l as [| x l IH]; simpl; intros H.
  - exists []. reflexivity.
  - destruct (H x (or_introl eq_refl)) as [y Hy].
    destruct IH as [ys Hys]; [intros x' Hx'; apply H; right; exact Hx' |].
    exists (y :: ys). rewrite Hy. simpl. rewrite Hys. reflexivity.
Qed.

Lemma sbind_emit {A : Type} (e : event) (c : script A) :
  sbind (emit e) (fun _ => c) = (e :: fst c, snd c).
Proof. destruct c as [t r]. reflexivity. Qed.

(** A run in which every file decodes. *)
Lemma main_decoded (cv : OpenCV) (uploaded_files : list (list byte))
      (first : Image) (others : list Image) :
  decoded cv uploaded_files (first :: others) ->
  main cv uploaded_files
  = (let (t, r) := stitching_loop cv first others in
     let before :=
       page_header
         ++ [st_subheader "Uploaded Images"; st_columns (S (length others))]
         ++ column_events 0 (first :: others)
         ++ [st_subheader "Stitched Image"; st_spinner_enter "Stitching images..."]
         ++ t ++ [st_spinner_exit] in
     match r with
     | Ret stitched_image =>
         let (t', r') := show_result stitched_image in (before ++ t', r')
     | Raise e => (before, Raise e)
     end).
Proof.
  intros H. unfold main.
  pose proof (decoded_comprehension cv _ _ H) as Hc.
  destruct uploaded_files as [| data files]; [inversion H |].
  rewrite Hc. cbn [lift sbind]. rewrite sbind_emit.
  rewrite existsb_is_None_map_Some, arrays_map_Some.
  cbn [length skipn]. rewrite show_columns_run.
  unfold show_result. cbn.
  destruct (stitching_loop cv first others) as [t [[s |] | e]]; cbn.
  - destruct (cvtColor_BGR2RGB s) as [shown | e]; cbn;
      repeat (rewrite <- app_assoc; cbn); rewrite ?app_nil_r; reflexivity.
  - repeat (rewrite <- app_assoc; cbn). rewrite ?app_nil_r. reflexivity.
  - repeat (rewrite <- app_assoc; cbn). reflexivity.
Qed.

Lemma stitching_loop_success (cv : OpenCV) (images : list Image) :
  forall first acc,
    stitches_to cv first images acc ->
    exists calls,
      stitching_loop cv first images = (calls, Ret (Some acc))
      /\ Forall (fun e => is_call e = true) calls
      /\ length calls = length images.
Proof.
  induction images as [| image_i images IH]; simpl; intros first acc H.
  - subst acc. exists []. repeat split. constructor.
  - destruct H as [s [Es H]].
    destruct (IH _ _ H) as [calls [El [Hc Hn]]].
    exists (call_stitch_images first image_i :: calls).
    rewrite Es. cbn. rewrite El.
    split; [reflexivity |]. split; [| simpl; now rewrite Hn].
    constructor; [reflexivity | exact Hc].
Qed.

Lemma stitching_loop_failure (cv : OpenCV) (done : list Image) :
  forall first acc image_k rest,
    stitches_to cv first done acc ->
    stitch_images cv acc image_k = Ret None ->
    exists calls,
      stitching_loop cv first (done ++ image_k :: rest)
      = (calls ++ [call_stitch_images acc image_k;
                   st_error stitch_error_message], Ret None)
      /\ Forall (fun e => is_call e = true) calls
      /\ length calls = length done.
Proof.
  induction done as [| image_i done IH]; simpl; intros first acc image_k rest H Hk.
  - subst acc. exists []. rewrite Hk. cbn. repeat split. constructor.
  - destruct H as [s [Es H]].
    destruct (IH _ _ _ rest H Hk) as [calls [El [Hc Hn]]].
    exists (call_stitch_images first image_i :: calls).
    rewrite Es. cbn. rewrite El.
    split; [reflexivity |]. split; [| simpl; now rewrite Hn].
    constructor; [reflexivity | exact Hc].
Qed.

Lemma filter_is_call_calls (calls : list event) :
  Forall (fun e => is_call e = true) calls -> filter is_call calls = calls.
Proof.
  induction 1 as [| e l He Hl IH]; simpl; [reflexivity |].
  now rewrite He, IH.
Qed.

Lemma filter_is_result_calls (calls : list event) :
  Forall (fun e => is_call e = true) calls -> filter is_result calls = [].
Proof.
  induction 1 as [| e l He Hl IH]; simpl; [reflexivity |].
  destruct e; try discriminate He. exact IH.
Qed.

Lemma filter_is_call_columns (images : list Image) :
  forall col, filter is_call (column_events col images) = [].
Proof. induction images as [| img l IH]; simpl; intros col; auto. Qed.

Lemma filter_is_result_columns (images : list Image) :
  forall col, filter is_result (column_events col images) = [].
Proof. induction images as [| img l IH]; simpl; intros col; auto. Qed.

Lemma stitching_loop_raise (cv : OpenCV) (done : list Image) :
  forall first acc image_k rest e,
    stitches_to cv first done acc ->
    stitch_images cv acc image_k = Raise e ->
    exists calls,
      stitching_loop cv first (done ++ image_k :: rest)
      = (calls ++ [call_stitch_images acc image_k], Raise e)
      /\ Forall (fun e => is_call e = true) calls
      /\ length calls = length done.
Proof.
  induction done as [| image_i done IH]; simpl;
    intros first acc image_k rest e H Hk.
  - subst acc. exists []. rewrite Hk. cbn. repeat split. constructor.
  - destruct H as [s [Es H]].
    destruct (IH _ _ _ rest e H Hk) as [calls [El [Hc Hn]]].
    exists (call_stitch_images first image_i :: calls).
    rewrite Es. cbn. rewrite El.
    split; [reflexivity |]. split; [| simpl; now rewrite Hn].
    constructor; [reflexivity | exact Hc].
Qed.

(** * The script: decoding, failure, a single image *)

(** A file that does not decode, on the path the script tests.  When one of
    the uploaded files does not decode into an image, no event of the run is
    a call of [stitch_images], inside which all feature detection happens,
    and no event shows or offers a result; when moreover every call of
    [imdecode] returns, the run consists of the page header and the decode
    error message and ends there. *)
Theorem decode_failure_halts_before_stitching
        (cv : OpenCV) (uploaded_files : list (list byte)) :
  (exists data, In data uploaded_files
                /\ forall img, imdecode_COLOR cv data <> Ret (Some img)) ->
  filter is_call (fst (main cv uploaded_files)) = []
  /\ filter is_result (fst (main cv uploaded_files)) = []
  /\ ((forall data, In data uploaded_files ->
                    exists r, imdecode_COLOR cv data = Ret r) ->
      main cv uploaded_files
      = (page_header ++ [st_error decode_error_message], Ret tt)).
Proof.
  intros [data [Hin Hfail]].
  destruct uploaded_files as [| d files]; [destruct Hin |].
  unfold main. rewrite !sbind_emit.
  destruct (comprehension (imdecode_COLOR cv) (d :: files)) as [images | e] eqn:E.
  - destruct (comprehension_In _ _ _ data E Hin) as [r [Hr Hd]].
    assert (Hex : existsb is_None images = true).
    { apply existsb_exists. exists r. split; [exact Hr |].
      destruct r as [img |]; [| reflexivity].
      exfalso. exact (Hfail img Hd). }
    cbn [lift sbind]. rewrite Hex. cbn.
    repeat split.
  - cbn. repeat split.
    intros Hall.
    destruct (comprehension_total (imdecode_COLOR cv) (d :: files) Hall)
      as [ys Hys].
    congruence.
Qed.

(** A stitch that gives no panorama, on both paths.  When the images decode,
    the stitches of the first pairs succeed and the stitch of the next pair
    does not give a panorama, [stitch_images] was
    called for the pairs up to that one and for no later image, and no event
    shows, writes or offers a result.  When that stitch returns [None], the
    run ends normally and its last message is the stitching error message;
    when it raises, the run ends with the exception. *)
Theorem failed_stitch_halts_and_discards
        (cv : OpenCV) (uploaded_files : list (list byte))
        (first : Image) (done : list Image) (image_k : Image)
        (rest : list Image) (acc : Image) :
  decoded cv uploaded_files (first :: done ++ image_k :: rest) ->
  stitches_to cv first done acc ->
  (forall s, stitch_images cv acc image_k <> Ret (Some s)) ->
  (exists calls,
      filter is_call (fst (main cv uploaded_files))
      = calls ++ [call_stitch_images acc image_k]
      /\ length calls = length done)
  /\ filter is_result (fst (main cv uploaded_files)) = []
  /\ (stitch_images cv acc image_k = Ret None ->
      exists t,
        main cv uploaded_files
        = (t ++ [st_error stitch_error_message; st_spinner_exit], Ret tt))
  /\ (forall e,
         stitch_images cv acc image_k = Raise e ->
         exists t,
           main cv uploaded_files
           = (t ++ [call_stitch_images acc image_k; st_spinner_exit], Raise e)).
Proof.
  intros Hdec Hdone Hk.
  rewrite (main_decoded cv uploaded_files first (done ++ image_k :: rest) Hdec).
  destruct (stitch_images cv acc image_k) as [[s |] | e] eqn:Ek.
  - exfalso. exact (Hk s eq_refl).
  - destruct (stitching_loop_failure cv done first acc image_k rest Hdone Ek)
      as [calls [El [Hc Hn]]].
    rewrite El. cbn [show_result sret fst].
    rewrite app_nil_r.
    split; [| split; [| split]].
    + exists calls. split; [| exact Hn].
      rewrite !filter_app, filter_is_call_columns, (filter_is_call_calls calls Hc).
      cbn. now rewrite app_nil_r.
    + rewrite !filter_app, filter_is_result_columns,
        (filter_is_result_calls calls Hc).
      reflexivity.
    + intros _.
      exists (page_header
                ++ [st_subheader "Uploaded Images";
                    st_columns (S (length (done ++ image_k :: rest)))]
                ++ column_events 0 (first :: done ++ image_k :: rest)
                ++ [st_subheader "Stitched Image";
                    st_spinner_enter "Stitching images..."]
                ++ calls ++ [call_stitch_images acc image_k]).
      f_equal. repeat rewrite <- app_assoc. reflexivity.
    + intros e He. discriminate He.
  - destruct (stitching_loop_raise cv done first acc image_k rest e Hdone Ek)
      as [calls [El [Hc Hn]]].
    rewrite El. cbn [fst].
    split; [| split; [| split]].
    + exists calls. split; [| exact Hn].
      rewrite !filter_app, filter_is_call_columns, (filter_is_call_calls calls Hc).
      cbn. now rewrite app_nil_r.
    + rewrite !filter_app, filter_is_result_columns,
        (filter_is_result_calls calls Hc).
      reflexivity.
    + intros He. discriminate He.
    + intros e' He'. injection He' as <-.
      exists (page_header
                ++ [st_subheader "Uploaded Images";
                    st_columns (S (length (done ++ image_k :: rest)))]
                ++ column_events 0 (first :: done ++ image_k :: rest)
                ++ [st_subheader "Stitched Image";
                    st_spinner_enter "Stitching images..."]
                ++ calls).
      f_equal. repeat rewrite <- app_assoc. reflexivity.
Qed.

(** The run on one file that decodes, event by event.  The run
    calls [stitch_images] not at all; the array written to the download file
    is the decoded array itself, and the picture shown is the decoded array
    with the first and third samples of every pixel exchanged (the
    conversion from BGR to RGB before display). *)
Theorem single_image_shown_without_stitching
        (cv : OpenCV) (data : list byte) (img : Image) :
  OpenCVSpec cv ->
  imdecode_COLOR cv data = Ret (Some img) ->
  main cv [data]
  = (page_header
       ++ [st_subheader "Uploaded Images"; st_columns 1; col_image 0 img;
           st_subheader "Stitched Image";
           st_spinner_enter "Stitching images..."; st_spinner_exit;
           st_image {| img_width := img_width img;
                       img_rows := map (map swap_channels) (img_rows img) |}
                    "Stitched Image";
           imageio_imwrite result_path img;
           st_download_button "Download Stitched Image" result_path
                              result_path "image/jpeg"],
     Ret tt)
  /\ filter is_call (fst (main cv [data])) = [].
Proof.
  intros L Hdec.
  destruct (imdecode_image cv L data img Hdec) as [_ Hne].
  rewrite (main_decoded cv [data] img [])
    by (constructor; [exact Hdec | constructor]).
  cbn. unfold cvtColor_BGR2RGB. rewrite Hne. cbn.
  split; reflexivity.
Qed.

(** * Binary64 arithmetic

    The rounding of [SpecFloat] is followed through one operation at a time:
    a result is a normalised number, and it exceeds the exact result by the
    factor [1 + 2^-52] at most. *)

Section FloatArithmetic.

Local Open Scope Z_scope.

Lemma digits2_pos_bounds (p : positive) :
  2 ^ (Zpos (digits2_pos p) - 1) <= Zpos p < 2 ^ Zpos (digits2_pos p).
Proof.
  induction p as [p IH | p IH |]; simpl digits2_pos.
  - rewrite Pos2Z.inj_succ.
    replace (Z.succ (Zpos (digits2_pos p)) - 1) with (Z.succ (Zpos (digits2_pos p) - 1)) by lia.
    rewrite !Z.pow_succ_r by lia. lia.
  - rewrite Pos2Z.inj_succ.
    replace (Z.succ (Zpos (digits2_pos p)) - 1) with (Z.succ (Zpos (digits2_pos p) - 1)) by lia.
    rewrite !Z.pow_succ_r by lia. lia.
  - simpl. lia.
Qed.

Lemma Zdigits2_bounds (m : Z) :
  0 < m -> 2 ^ (Zdigits2 m - 1) <= m < 2 ^ Zdigits2 m.
Proof.
  destruct m as [| p | p]; try lia. intros _. apply digits2_pos_bounds.
Qed.

Lemma Zdigits2_pos (m : Z) : 0 < m -> 0 < Zdigits2 m.
Proof. destruct m; simpl; lia. Qed.

Lemma pow2_lt_inv (a b : Z) : 0 <= b -> 2 ^ a < 2 ^ b -> a < b.
Proof.
  intros Hb H. destruct (Z_lt_le_dec a b) as [|Hle]; [assumption |].
  exfalso. assert (2 ^ b <= 2 ^ a) by (apply Z.pow_le_mono_r; lia). lia.
Qed.

Lemma Zdigits2_unique (m k : Z) :
  0 < k -> 2 ^ (k - 1) <= m < 2 ^ k -> Zdigits2 m = k.
Proof.
  intros Hk [Hlo Hhi].
  assert (Hm : 0 < m).
  { assert (0 < 2 ^ (k - 1)) by (apply Z.pow_pos_nonneg; lia). lia. }
  pose proof (Zdigits2_bounds m Hm) as [Dlo Dhi].
  pose proof (Zdigits2_pos m Hm) as Dpos.
  assert (Zdigits2 m - 1 < k) by (apply pow2_lt_inv; lia).
  assert (k - 1 < Zdigits2 m) by (apply pow2_lt_inv; lia).
  lia.
Qed.

Lemma shr_1_m (mrs : shr_record) :
  0 <= shr_m mrs -> shr_m (shr_1 mrs) = shr_m mrs / 2.
Proof.
  destruct mrs as [m r s]. simpl. intros Hm.
  destruct m as [| [p | p |] | p]; simpl; try reflexivity; try lia.
  - rewrite Pos2Z.inj_xI. apply Z.div_unique with (r := 1); lia.
  - rewrite Pos2Z.inj_xO. apply Z.div_unique with (r := 0); lia.
Qed.

Lemma iter_pos_shr_1_m (p : positive) :
  forall mrs, 0 <= shr_m mrs ->
              shr_m (iter_pos shr_1 p mrs) = shr_m mrs / 2 ^ Zpos p.
Proof.
  induction p as [p IH | p IH |]; intros mrs Hm; simpl iter_pos.
  - assert (H1 : 0 <= shr_m (shr_1 mrs)).
    { rewrite shr_1_m by assumption. apply Z.div_pos; lia. }
    assert (H2 : 0 <= shr_m (iter_pos shr_1 p (shr_1 mrs))).
    { rewrite IH by assumption. apply Z.div_pos; [assumption | apply Z.pow_pos_nonneg; lia]. }
    rewrite IH, IH, shr_1_m by assumption.
    replace (Z.pos p~1) with (1 + Zpos p + Zpos p) by lia.
    rewrite !Z.pow_add_r by lia.
    rewrite !Z.div_div by (try apply Z.pow_pos_nonneg; lia).
    f_equal. rewrite Z.pow_1_r. ring.
  - assert (H2 : 0 <= shr_m (iter_pos shr_1 p mrs)).
    { rewrite IH by assumption. apply Z.div_pos; [assumption | apply Z.pow_pos_nonneg; lia]. }
    rewrite IH, IH by assumption.
    replace (Z.pos p~0) with (Zpos p + Zpos p) by lia.
    rewrite !Z.pow_add_r by lia.
    rewrite !Z.div_div by (try apply Z.pow_pos_nonneg; lia).
    reflexivity.
  - rewrite shr_1_m by assumption. reflexivity.
Qed.

Lemma shr_record_of_loc_m (m : Z) (l : location) :
  shr_m (shr_record_of_loc m l) = m.
Proof. destruct l as [| []]; reflexivity. Qed.

(** [shr_fexp] divides the mantissa by a power of two and moves the exponent. *)
Lemma shr_fexp_spec (prec emax m e : Z) (l : location) :
  0 <= m ->
  let k := Z.max 0 (fexp prec emax (Zdigits2 m + e) - e) in
  exists mrs, shr_fexp prec emax m e l = (mrs, e + k)
              /\ shr_m mrs = m / 2 ^ k.
Proof.
  intros Hm k. unfold shr_fexp, shr. subst k.
  destruct (fexp prec emax (Zdigits2 m + e) - e) as [| p | p] eqn:E.
  - eexists. split; [rewrite Z.add_0_r; reflexivity |].
    rewrite shr_record_of_loc_m. simpl. now rewrite Z.div_1_r.
  - eexists. split; [rewrite Z.max_r by lia; reflexivity |].
    rewrite iter_pos_shr_1_m by (rewrite shr_record_of_loc_m; assumption).
    rewrite shr_record_of_loc_m. rewrite Z.max_r by lia. reflexivity.
  - eexists. split; [rewrite Z.max_l by lia; rewrite Z.add_0_r; reflexivity |].
    rewrite shr_record_of_loc_m. rewrite Z.max_l by lia. simpl. now rewrite Z.div_1_r.
Qed.

Lemma round_nearest_even_bounds (m : Z) (l : location) :
  m <= round_nearest_even m l <= m + 1.
Proof.
  destruct l as [| []]; simpl; try lia.
  destruct (Z.even m); lia.
Qed.

Lemma fexp_normal (x : Z) :
  -1021 <= x -> fexp Float.prec Float.emax x = x - 53.
Proof. intros H. unfold fexp, emin, Float.prec, Float.emax. lia. Qed.

Lemma binary_round_aux_normal (mx ex : Z) (lx : location) :
  2 ^ 52 <= mx -> -1074 <= ex -> Zdigits2 mx + ex + 1 <= 1024 ->
  exists m e,
    binary_round_aux Float.prec Float.emax false mx ex lx = S754_finite false m e
    /\ 2 ^ 52 <= Zpos m < 2 ^ 53
    /\ ex <= e <= ex + Zdigits2 mx - 52
    /\ Zpos m * 2 ^ (e - ex) * 2 ^ 52 <= mx * (2 ^ 52 + 1).
Proof.
  intros Hmx Hex Hov.
  assert (Hpos : 0 < mx) by (assert (0 < 2 ^ 52) by (apply Z.pow_pos_nonneg; lia); lia).
  pose proof (Zdigits2_bounds mx Hpos) as [Dlo Dhi].
  set (d := Zdigits2 mx) in *.
  assert (Hd : 53 <= d).
  { assert (52 < d) by (apply pow2_lt_inv; [pose proof (Zdigits2_pos mx Hpos); fold d in H |]; lia). lia. }
  destruct (shr_fexp_spec Float.prec Float.emax mx ex lx ltac:(lia)) as [mrs1 [E1 Hm1]].
  fold d in E1, Hm1. rewrite fexp_normal in E1, Hm1 by lia.
  replace (Z.max 0 (d + ex - 53 - ex)) with (d - 53) in E1, Hm1 by lia.
  set (k1 := d - 53) in *.
  assert (Hk1 : 0 < 2 ^ k1) by (apply Z.pow_pos_nonneg; lia).
  assert (Hsplit : 2 ^ d = 2 ^ k1 * 2 ^ 53).
  { rewrite <- Z.pow_add_r by lia. f_equal. lia. }
  assert (Hsplit' : 2 ^ (d - 1) = 2 ^ k1 * 2 ^ 52).
  { rewrite <- Z.pow_add_r by lia. f_equal. lia. }
  unfold binary_round_aux. rewrite E1. cbv beta iota.
  set (m' := shr_m mrs1) in *.
  assert (Hm'lo : 2 ^ 52 <= m').
  { rewrite Hm1. apply Z.div_le_lower_bound; lia. }
  assert (Hm'hi : m' < 2 ^ 53).
  { rewrite Hm1. apply Z.div_lt_upper_bound; lia. }
  assert (Hm'mx : m' * 2 ^ k1 <= mx).
  { rewrite Hm1. rewrite Z.mul_comm. apply Z.mul_div_le. lia. }
  pose proof (round_nearest_even_bounds m' (loc_of_shr_record mrs1)) as Hr.
  set (m1 := round_nearest_even m' (loc_of_shr_record mrs1)) in *.
  clearbody m1 m'.
  destruct (shr_fexp_spec Float.prec Float.emax m1 (ex + k1) loc_Exact ltac:(lia))
    as [mrs2 [E2 Hm2]].
  assert (Hd1 : Zdigits2 m1 = 53 /\ m1 < 2 ^ 53 \/ Zdigits2 m1 = 54 /\ m1 = 2 ^ 53).
  { destruct (Z_lt_le_dec m1 (2 ^ 53)) as [Hlt | Hge].
    - left. split; [| exact Hlt]. apply Zdigits2_unique; lia.
    - right. assert (m1 = 2 ^ 53) by lia. split; [| assumption].
      apply Zdigits2_unique; [lia |]. subst m1.
      change (54 - 1) with 53. split; [lia |].
      apply Z.pow_lt_mono_r; lia. }
  destruct Hd1 as [[Hd1 Hlt] | [Hd1 Heq]].
  - rewrite Hd1 in E2, Hm2. rewrite fexp_normal in E2, Hm2 by lia.
    replace (Z.max 0 (53 + (ex + k1) - 53 - (ex + k1))) with 0 in E2, Hm2 by lia.
    rewrite Z.pow_0_r, Z.div_1_r in Hm2.
    rewrite E2. cbv beta iota. rewrite Hm2.
    destruct m1 as [| p | p]; try lia.
    destruct (Z.leb_spec (ex + k1 + 0) (Float.emax - Float.prec)) as [_ | Hbad];
      [| unfold Float.emax, Float.prec in Hbad; lia].
    exists p, (ex + k1 + 0). split; [reflexivity |].
    split; [lia |]. split; [lia |].
    replace (ex + k1 + 0 - ex) with k1 by lia.
    nia.
  - rewrite Hd1 in E2, Hm2. rewrite fexp_normal in E2, Hm2 by lia.
    replace (Z.max 0 (54 + (ex + k1) - 53 - (ex + k1))) with 1 in E2, Hm2 by lia.
    rewrite Heq in Hm2. change (2 ^ 53 / 2 ^ 1) with (2 ^ 52) in Hm2.
    rewrite E2. cbv beta iota. rewrite Hm2.
    change (2 ^ 52) with (Zpos (2 ^ 52)%positive) at 1.
    cbv beta iota.
    destruct (Z.leb_spec (ex + k1 + 1) (Float.emax - Float.prec)) as [_ | Hbad];
      [| unfold Float.emax, Float.prec in Hbad; lia].
    exists (2 ^ 52)%positive, (ex + k1 + 1). split; [reflexivity |].
    split; [lia |]. split; [lia |].
    replace (ex + k1 + 1 - ex) with (k1 + 1) by lia.
    rewrite Z.pow_add_r by lia. change (2 ^ 1) with 2.
    change (Z.pos (2 ^ 52)) with (2 ^ 52).
    assert (m' = 2 ^ 53 - 1) by lia.
    nia.
Qed.

Lemma Qpow2_pos (e : Z) : (0 < 2 ^ e)%Q.
Proof. apply Qpower_0_lt. reflexivity. Qed.

Lemma Qpow2_add (a b : Z) : (2 ^ (a + b) == 2 ^ a * 2 ^ b)%Q.
Proof. apply Qpower_plus. discriminate. Qed.

Lemma Qpow2_inject (n : Z) : 0 <= n -> (inject_Z (2 ^ n) == 2 ^ n)%Q.
Proof. intros H. apply (Zpower_Qpower 2 n H). Qed.

(** An inequality between scaled mantissas, read between the numbers. *)
Lemma scaled_le_value (m mx e ex c1 c2 : Z) :
  ex <= e ->
  m * 2 ^ (e - ex) * c1 <= mx * c2 ->
  (inject_Z m * 2 ^ e * inject_Z c1 <= inject_Z mx * 2 ^ ex * inject_Z c2)%Q.
Proof.
  intros He H.
  rewrite Zle_Qle in H. rewrite !inject_Z_mult in H.
  rewrite Qpow2_inject in H by lia.
  replace e with ((e - ex) + ex) at 1 by lia.
  rewrite Qpow2_add.
  apply Qmult_le_compat_r with (z := (2 ^ ex)%Q) in H;
    [| apply Qlt_le_weak, Qpow2_pos].
  setoid_replace (inject_Z m * (2 ^ (e - ex) * 2 ^ ex) * inject_Z c1)%Q
    with (inject_Z m * 2 ^ (e - ex) * inject_Z c1 * 2 ^ ex)%Q by ring.
  setoid_replace (inject_Z mx * 2 ^ ex * inject_Z c2)%Q
    with (inject_Z mx * inject_Z c2 * 2 ^ ex)%Q by ring.
  exact H.
Qed.

Lemma binary_round_aux_value (mx ex : Z) (lx : location) :
  2 ^ 52 <= mx -> -1074 <= ex -> Zdigits2 mx + ex + 1 <= 1024 ->
  let x := binary_round_aux Float.prec Float.emax false mx ex lx in
  normal x ex (ex + Zdigits2 mx - 52)
  /\ (Float.value x * P52 <= inject_Z mx * 2 ^ ex * P52')%Q.
Proof.
  intros Hmx Hex Hov x. subst x.
  destruct (binary_round_aux_normal mx ex lx Hmx Hex Hov)
    as (m & e & -> & Hm & He & Hb).
  split; [exists m, e; auto |].
  simpl Float.value. apply scaled_le_value; [lia | exact Hb].
Qed.

Lemma Zdigits2_le (m k : Z) : 0 < m -> 0 <= k -> m < 2 ^ k -> Zdigits2 m <= k.
Proof.
  intros Hm Hk H. pose proof (Zdigits2_bounds m Hm) as [Dlo _].
  assert (Zdigits2 m - 1 < k) by (apply pow2_lt_inv; lia). lia.
Qed.

Lemma SFdiv_core_binary_spec (a b : Z) :
  0 < a < 2 ^ 31 -> 0 < b < 2 ^ 31 ->
  exists q e l,
    SFdiv_core_binary Float.prec Float.emax a 0 b 0 = (q, e, l)
    /\ -84 <= e <= -22
    /\ 2 ^ 52 <= q < 2 ^ 54
    /\ q * b <= a * 2 ^ (- e).
Proof.
  intros Ha Hb. unfold SFdiv_core_binary.
  pose proof (Zdigits2_pos a ltac:(lia)) as Hd1.
  pose proof (Zdigits2_pos b ltac:(lia)) as Hd2.
  pose proof (Zdigits2_le a 31 ltac:(lia) ltac:(lia) ltac:(lia)) as Hd1'.
  pose proof (Zdigits2_le b 31 ltac:(lia) ltac:(lia) ltac:(lia)) as Hd2'.
  pose proof (Zdigits2_bounds a ltac:(lia)) as [Alo Ahi].
  pose proof (Zdigits2_bounds b ltac:(lia)) as [Blo Bhi].
  set (d1 := Zdigits2 a) in *. set (d2 := Zdigits2 b) in *.
  cbv zeta.
  rewrite fexp_normal by lia.
  replace (Z.min (d1 + 0 - (d2 + 0) - 53) (0 - 0)) with (d1 - d2 - 53) by lia.
  set (e' := d1 - d2 - 53).
  replace (0 - 0 - e') with (- e') by lia.
  destruct (- e') as [| ps | ps] eqn:Es; try lia.
  rewrite Z.shiftl_mul_pow2 by lia.
  rewrite <- Es.
  pose proof (Z_div_mod (a * 2 ^ (- e')) b ltac:(lia)) as Hdm.
  destruct (Z.div_eucl (a * 2 ^ (- e')) b) as [q r].
  destruct Hdm as [Hq Hr].
  exists q, e', (new_location b r).
  split; [reflexivity |]. split; [lia |].
  assert (Hs : 2 ^ (- e') * 2 ^ (d1 - 1) = 2 ^ 52 * 2 ^ d2).
  { rewrite <- !Z.pow_add_r by lia. f_equal. lia. }
  assert (Hs' : 2 ^ (- e') * 2 ^ d1 = 2 ^ 54 * 2 ^ (d2 - 1)).
  { rewrite <- !Z.pow_add_r by lia. f_equal. lia. }
  assert (H2 : 0 < 2 ^ (- e')) by (apply Z.pow_pos_nonneg; lia).
  assert (H3 : 0 < 2 ^ d2) by (apply Z.pow_pos_nonneg; lia).
  assert (H4 : 0 < 2 ^ (d2 - 1)) by (apply Z.pow_pos_nonneg; lia).
  split; [| nia].
  split.
  - assert (2 ^ 52 * b < b * (q + 1)); [| nia].
    assert (2 ^ 52 * 2 ^ d2 <= a * 2 ^ (- e')) by nia.
    nia.
  - assert (b * q < 2 ^ 54 * b); [| nia].
    assert (a * 2 ^ (- e') < 2 ^ 54 * 2 ^ (d2 - 1)) by nia.
    nia.
Qed.

Lemma inject_Z_nonneg (z : Z) : 0 <= z -> (0 <= inject_Z z)%Q.
Proof.
  intros H. change 0%Q with (inject_Z 0). now rewrite <- Zle_Qle.
Qed.

Lemma normal_finite (x : Float.float) (lo hi : Z) :
  normal x lo hi -> Float.is_infinite x = false.
Proof. intros (m & e & -> & _). reflexivity. Qed.

Lemma normal_weaken (x : Float.float) (lo hi lo' hi' : Z) :
  lo' <= lo -> hi <= hi' -> normal x lo hi -> normal x lo' hi'.
Proof.
  intros Hlo Hhi (m & e & -> & Hm & He). exists m, e. repeat split; lia.
Qed.

Lemma int_truediv_value (a b : Z) :
  0 < a < 2 ^ 31 -> 0 < b < 2 ^ 31 ->
  exists x, Float.int_truediv a b = Ret x
            /\ normal x (-84) (-20)
            /\ (Float.value x * inject_Z b * P52 <= inject_Z a * P52')%Q.
Proof.
  intros Ha Hb.
  destruct (SFdiv_core_binary_spec a b Ha Hb) as (q & e & l & Ecore & He & Hq & Hqb).
  unfold Float.int_truediv.
  destruct (Z.eqb_spec b 0) as [| _]; [lia |].
  destruct a as [| pa | pa]; try lia. destruct b as [| pb | pb]; try lia.
  cbn [Float.of_int_exact SFdiv xorb]. rewrite Ecore.
  assert (Hdq : Zdigits2 q <= 54) by (apply Zdigits2_le; lia).
  destruct (binary_round_aux_value q e l ltac:(lia) ltac:(lia) ltac:(lia))
    as [Hn Hv].
  set (x := binary_round_aux Float.prec Float.emax false q e l) in *.
  rewrite (normal_finite x _ _ Hn).
  exists x. split; [reflexivity |].
  split; [eapply normal_weaken; [| | exact Hn]; lia |].
  assert (Hx : (0 <= Float.value x)%Q).
  { destruct Hn as (m & e0 & -> & _). simpl.
    apply Qmult_le_0_compat; [apply inject_Z_nonneg; lia | apply Qlt_le_weak, Qpow2_pos]. }
  assert (Hqb' : (inject_Z q * inject_Z (Zpos pb) * 2 ^ e <= inject_Z (Zpos pa))%Q).
  { rewrite Zle_Qle in Hqb. rewrite !inject_Z_mult in Hqb.
    rewrite Qpow2_inject in Hqb by lia.
    apply Qmult_le_compat_r with (z := (2 ^ e)%Q) in Hqb;
      [| apply Qlt_le_weak, Qpow2_pos].
    setoid_replace (inject_Z (Zpos pa) * 2 ^ (- e) * 2 ^ e)%Q
      with (inject_Z (Zpos pa)) in Hqb.
    - exact Hqb.
    - rewrite <- Qmult_assoc, <- Qpow2_add.
      replace (- e + e) with 0 by lia. simpl. ring. }
  apply Qmult_le_compat_r with (z := inject_Z (Zpos pb)) in Hv;
    [| apply inject_Z_nonneg; lia].
  apply Qmult_le_compat_r with (z := P52') in Hqb';
    [| unfold P52'; apply inject_Z_nonneg; lia].
  setoid_replace (Float.value x * inject_Z (Zpos pb) * P52)%Q
    with (Float.value x * P52 * inject_Z (Zpos pb))%Q by ring.
  eapply Qle_trans; [exact Hv |].
  setoid_replace (inject_Z q * 2 ^ e * P52' * inject_Z (Zpos pb))%Q
    with (inject_Z q * inject_Z (Zpos pb) * 2 ^ e * P52')%Q by ring.
  exact Hqb'.
Qed.

Lemma Pos_iter_xO (p d : positive) :
  Zpos (Pos.iter xO p d) = Zpos p * 2 ^ Zpos d.
Proof.
  induction d as [| d IH] using Pos.peano_ind.
  - simpl. lia.
  - rewrite Pos.iter_succ, Pos2Z.inj_succ, Z.pow_succ_r by lia.
    rewrite Pos2Z.inj_xO, IH. ring.
Qed.

Lemma of_int_value (n : Z) :
  0 < n < 2 ^ 31 ->
  exists x, Float.of_int n = Ret x
            /\ normal x (-52) (-21)
            /\ (Float.value x * P52 <= inject_Z n * P52')%Q.
Proof.
  intros Hn. destruct n as [| p | p]; try lia.
  unfold Float.of_int. cbn [binary_normalize]. unfold binary_round.
  pose proof (Zdigits2_pos (Zpos p) ltac:(lia)) as Hd.
  pose proof (Zdigits2_le (Zpos p) 31 ltac:(lia) ltac:(lia) ltac:(lia)) as Hd'.
  pose proof (Zdigits2_bounds (Zpos p) ltac:(lia)) as [Dlo Dhi].
  change (Zpos (digits2_pos p)) with (Zdigits2 (Zpos p)).
  set (d := Zdigits2 (Zpos p)) in *.
  rewrite fexp_normal by lia.
  unfold shl_align.
  destruct (d + 0 - 53 - 0) as [| k | k] eqn:Ek; try lia.
  assert (Hk : Zpos k = 53 - d) by lia.
  assert (Hmz : Zpos (Pos.iter xO p k) = Zpos p * 2 ^ (53 - d)).
  { rewrite Pos_iter_xO, Hk. reflexivity. }
  assert (Hs : 2 ^ (d - 1) * 2 ^ (53 - d) = 2 ^ 52).
  { rewrite <- Z.pow_add_r by lia. f_equal. lia. }
  assert (Hs' : 2 ^ d * 2 ^ (53 - d) = 2 ^ 53).
  { rewrite <- Z.pow_add_r by lia. f_equal. lia. }
  assert (H2 : 0 < 2 ^ (53 - d)) by (apply Z.pow_pos_nonneg; lia).
  assert (Hlo : 2 ^ 52 <= Zpos (Pos.iter xO p k)) by (rewrite Hmz; nia).
  assert (Hhi : Zpos (Pos.iter xO p k) < 2 ^ 53) by (rewrite Hmz; nia).
  assert (Hdz : Zdigits2 (Zpos (Pos.iter xO p k)) <= 53)
    by (apply Zdigits2_le; lia).
  destruct (binary_round_aux_value (Zpos (Pos.iter xO p k)) (d + 0 - 53) loc_Exact
              ltac:(lia) ltac:(lia) ltac:(lia)) as [Hnorm Hv].
  set (x := binary_round_aux Float.prec Float.emax false
              (Zpos (Pos.iter xO p k)) (d + 0 - 53) loc_Exact) in *.
  rewrite (normal_finite x _ _ Hnorm).
  exists x. split; [reflexivity |].
  split; [eapply normal_weaken; [| | exact Hnorm]; lia |].
  eapply Qle_trans; [exact Hv |].
  apply Qmult_le_compat_r; [| unfold P52'; apply inject_Z_nonneg; lia].
  rewrite Hmz, inject_Z_mult, Qpow2_inject by lia.
  rewrite <- Qmult_assoc, <- Qpow2_add.
  replace (53 - d + (d + 0 - 53)) with 0 by lia.
  simpl. rewrite Qmult_1_r. apply Qle_refl.
Qed.

Lemma normal_value_pos (x : Float.float) (lo hi : Z) :
  normal x lo hi -> (0 < Float.value x)%Q.
Proof.
  intros (m & e & -> & _). simpl.
  apply Qmult_lt_0_compat; [| apply Qpow2_pos].
  change 0%Q with (inject_Z 0). now rewrite <- Zlt_Qlt.
Qed.

Lemma SFmul_value (x y : Float.float) :
  normal x (-500) 400 -> normal y (-500) 400 ->
  let z := SFmul Float.prec Float.emax x y in
  normal z (-1000) 900
  /\ (Float.value z * P52 <= Float.value x * Float.value y * P52')%Q.
Proof.
  intros (mx & ex & -> & Hmx & Hex) (my & ey & -> & Hmy & Hey) z. subst z.
  cbn [SFmul xorb].
  assert (Hlo : 2 ^ 52 <= Zpos (mx * my)) by (rewrite Pos2Z.inj_mul; nia).
  assert (Hhi : Zpos (mx * my) < 2 ^ 106).
  { rewrite Pos2Z.inj_mul. change (2 ^ 106) with (2 ^ 53 * 2 ^ 53). nia. }
  assert (Hd : Zdigits2 (Zpos (mx * my)) <= 106) by (apply Zdigits2_le; lia).
  destruct (binary_round_aux_value (Zpos (mx * my)) (ex + ey) loc_Exact
              ltac:(lia) ltac:(lia) ltac:(lia)) as [Hn Hv].
  split; [eapply normal_weaken; [| | exact Hn]; lia |].
  eapply Qle_trans; [exact Hv |].
  apply Qmult_le_compat_r; [| unfold P52'; apply inject_Z_nonneg; lia].
  cbn [Float.value cond_Zopp]. rewrite Pos2Z.inj_mul, inject_Z_mult, Qpow2_add.
  apply Qle_lteq. right. ring.
Qed.

Lemma value_le_of_exponent_lt (m1 m2 : positive) (e1 e2 : Z) :
  Zpos m1 < 2 ^ 53 -> 2 ^ 52 <= Zpos m2 -> e1 < e2 ->
  (inject_Z (Zpos m1) * 2 ^ e1 <= inject_Z (Zpos m2) * 2 ^ e2)%Q.
Proof.
  intros H1 H2 He.
  apply Qle_trans with (inject_Z (2 ^ 53) * 2 ^ e1)%Q.
  { apply Qmult_le_compat_r; [| apply Qlt_le_weak, Qpow2_pos].
    rewrite <- Zle_Qle. lia. }
  apply Qle_trans with (inject_Z (2 ^ 52) * 2 ^ e2)%Q.
  2:{ apply Qmult_le_compat_r; [| apply Qlt_le_weak, Qpow2_pos].
      rewrite <- Zle_Qle. lia. }
  change (2 ^ 53) with (2 ^ 52 * 2 ^ 1). rewrite inject_Z_mult.
  rewrite <- Qmult_assoc. apply Qmult_le_l; [reflexivity |].
  change (inject_Z (2 ^ 1)) with (2 ^ 1)%Q. rewrite <- Qpow2_add.
  apply Qpower_le_compat_l; [lia | discriminate].
Qed.

Lemma min_value (x y : Float.float) (lo hi : Z) :
  normal x lo hi -> normal y lo hi ->
  normal (Float.min x y) lo hi
  /\ (Float.value (Float.min x y) <= Float.value x)%Q
  /\ (Float.value (Float.min x y) <= Float.value y)%Q.
Proof.
  intros Hx Hy.
  pose proof Hx as (mx & ex & Ex & Hmx & Hex).
  pose proof Hy as (my & ey & Ey & Hmy & Hey).
  unfold Float.min, SFltb. subst x y. cbn [SFcompare].
  destruct (Z.compare_spec ey ex) as [Heq | Hlt | Hgt].
  - rewrite Pos.compare_cont_spec. simpl.
    destruct (Pos.compare_spec my mx) as [Hm | Hm | Hm]; subst;
      (split; [assumption |]); cbn [Float.value cond_Zopp]; split;
      try apply Qle_refl;
      (apply Qmult_le_compat_r; [| apply Qlt_le_weak, Qpow2_pos]);
      rewrite <- Zle_Qle; cbn [cond_Zopp]; lia.
  - split; [assumption |]. cbn [Float.value cond_Zopp]. split; [| apply Qle_refl].
    apply value_le_of_exponent_lt; lia.
  - split; [assumption |]. cbn [Float.value cond_Zopp]. split; [apply Qle_refl |].
    apply value_le_of_exponent_lt; lia.
Qed.

Lemma to_int_bound (x : Float.float) (lo hi T : Z) :
  normal x lo hi -> (Float.value x < inject_Z (T + 1))%Q ->
  exists n, Float.to_int x = Ret n /\ 0 <= n <= T.
Proof.
  intros (m & e & -> & Hm & He) Hv. cbn [Float.value cond_Zopp] in Hv.
  cbn [Float.to_int cond_Zopp]. eexists. split; [reflexivity |].
  split; [apply Z.shiftl_nonneg; lia |].
  destruct (Z_le_gt_dec 0 e) as [Hpos | Hneg].
  - rewrite Z.shiftl_mul_pow2 by lia.
    rewrite <- Qpow2_inject, <- inject_Z_mult, <- Zlt_Qlt in Hv by lia. lia.
  - rewrite <- (Z.opp_involutive e) at 1. rewrite Z.shiftl_opp_r.
    rewrite Z.shiftr_div_pow2 by lia.
    assert (Zpos m / 2 ^ (- e) < T + 1); [| lia].
    apply Z.div_lt_upper_bound; [apply Z.pow_pos_nonneg; lia |].
    rewrite Zlt_Qlt, inject_Z_mult, Qpow2_inject by lia.
    apply Qmult_lt_compat_r with (z := (2 ^ (- e))%Q) in Hv; [| apply Qpow2_pos].
    rewrite <- Qmult_assoc, <- Qpow2_add in Hv.
    replace (e + - e) with 0 in Hv by lia. simpl (2 ^ 0)%Q in Hv.
    rewrite Qmult_1_r in Hv. rewrite Qmult_comm. exact Hv.
Qed.

Lemma rounding_margin (n T : Z) :
  0 < n -> 0 < T < 2 ^ 31 ->
  n * (T * ((2 ^ 52 + 1) * (2 ^ 52 + 1) * (2 ^ 52 + 1)))
  < (T + 1) * (2 ^ 52 * 2 ^ 52 * 2 ^ 52) * n.
Proof.
  intros Hn HT.
  assert (H : T * ((2 ^ 52 + 1) * (2 ^ 52 + 1) * (2 ^ 52 + 1))
              < (T + 1) * (2 ^ 52 * 2 ^ 52 * 2 ^ 52)) by lia.
  nia.
Qed.

Lemma scaled_side_bound (n T : Z) (s : Float.float) :
  0 < n < 2 ^ 31 -> 0 < T < 2 ^ 31 ->
  normal s (-84) (-20) ->
  (Float.value s * inject_Z n * P52 <= inject_Z T * P52')%Q ->
  exists x k, Float.int_mul n s = Ret x /\ Float.to_int x = Ret k
              /\ 0 <= k <= T.
Proof.
  intros Hn HT Hs Hsv.
  destruct (of_int_value n Hn) as (fn & Efn & Hfn & Hfv).
  unfold Float.int_mul. rewrite Efn. cbn [bind].
  destruct (SFmul_value fn s) as [Hz Hzv];
    [eapply normal_weaken; [| | exact Hfn]; lia
    | eapply normal_weaken; [| | exact Hs]; lia |].
  set (z := SFmul Float.prec Float.emax fn s) in *.
  destruct (to_int_bound z (-1000) 900 T Hz) as (k & Ek & Hk).
  2:{ exists z, k. auto. }
  pose proof (normal_value_pos _ _ _ Hfn) as Fpos.
  pose proof (normal_value_pos _ _ _ Hs) as Spos.
  pose proof (normal_value_pos _ _ _ Hz) as Zpos'.
  assert (Npos : (0 < inject_Z n)%Q)
    by (change 0%Q with (inject_Z 0); rewrite <- Zlt_Qlt; lia).
  assert (Ppos : (0 < P52)%Q) by reflexivity.
  assert (P'pos : (0 < P52')%Q) by reflexivity.
  assert (H1 : (Float.value fn * P52 * (Float.value s * inject_Z n * P52)
                <= inject_Z n * P52' * (inject_Z T * P52'))%Q).
  { apply Qmult_le_compat_nonneg; split; try assumption;
      repeat apply Qmult_le_0_compat; apply Qlt_le_weak; assumption. }
  assert (H2 : (Float.value z * P52 * (inject_Z n * P52 * P52)
                <= Float.value fn * Float.value s * P52' * (inject_Z n * P52 * P52))%Q).
  { apply Qmult_le_compat_r; [exact Hzv |].
    repeat apply Qmult_le_0_compat; apply Qlt_le_weak; assumption. }
  assert (H3 : (Float.value z * (P52 * P52 * P52) * inject_Z n
                <= inject_Z n * (inject_Z T * (P52' * P52' * P52')))%Q).
  { setoid_replace (Float.value z * (P52 * P52 * P52) * inject_Z n)%Q
      with (Float.value z * P52 * (inject_Z n * P52 * P52))%Q by ring.
    eapply Qle_trans; [exact H2 |].
    setoid_replace (Float.value fn * Float.value s * P52' * (inject_Z n * P52 * P52))%Q
      with (Float.value fn * P52 * (Float.value s * inject_Z n * P52) * P52')%Q by ring.
    setoid_replace (inject_Z n * (inject_Z T * (P52' * P52' * P52')))%Q
      with (inject_Z n * P52' * (inject_Z T * P52') * P52')%Q by ring.
    apply Qmult_le_compat_r; [exact H1 | apply Qlt_le_weak; assumption]. }
  apply Qnot_le_lt. intros Hge.
  assert (H4 : (inject_Z (T + 1) * (P52 * P52 * P52) * inject_Z n
                <= Float.value z * (P52 * P52 * P52) * inject_Z n)%Q).
  { apply Qmult_le_compat_r; [| apply Qlt_le_weak; assumption].
    apply Qmult_le_compat_r; [exact Hge |].
    repeat apply Qmult_le_0_compat; apply Qlt_le_weak; assumption. }
  pose proof (Qle_trans _ _ _ H4 H3) as H5.
  unfold P52, P52' in H5. rewrite <- !inject_Z_mult, <- Zle_Qle in H5.
  pose proof (rounding_margin n T ltac:(lia) HT). lia.
Qed.

Lemma scaled_size_bounds (h w target_width target_height : Z) :
  0 < h < 2 ^ 31 -> 0 < w < 2 ^ 31 ->
  0 < target_width < 2 ^ 31 -> 0 < target_height < 2 ^ 31 ->
  exists new_width new_height,
    scaled_size h w target_width target_height = Ret (new_width, new_height)
    /\ 0 <= new_width <= target_width
    /\ 0 <= new_height <= target_height.
Proof.
  intros Hh Hw Htw Hth.
  destruct (int_truediv_value target_width w Htw Hw) as (rw & Erw & Hrw & Vrw).
  destruct (int_truediv_value target_height h Hth Hh) as (rh & Erh & Hrh & Vrh).
  destruct (min_value rw rh (-84) (-20) Hrw Hrh) as (Hs & Vsw & Vsh).
  unfold scaled_size. rewrite Erw, Erh. cbn [bind].
  set (s := Float.min rw rh) in *.
  pose proof (normal_value_pos _ _ _ Hs) as Spos.
  destruct (scaled_side_bound w target_width s Hw Htw Hs) as (x & nw & Ex & Enw & Hnw).
  { eapply Qle_trans; [| exact Vrw].
    repeat apply Qmult_le_compat_r; try exact Vsw;
      [apply inject_Z_nonneg; lia | discriminate]. }
  destruct (scaled_side_bound h target_height s Hh Hth Hs) as (y & nh & Ey & Enh & Hnh).
  { eapply Qle_trans; [| exact Vrh].
    repeat apply Qmult_le_compat_r; try exact Vsh;
      [apply inject_Z_nonneg; lia | discriminate]. }
  rewrite Ex. cbn [bind]. rewrite Enw. cbn [bind].
  rewrite Ey. cbn [bind]. rewrite Enh. cbn [bind].
  exists nw, nh. auto.
Qed.

End FloatArithmetic.

(** * [standardize_image] *)

Lemma np_zeros_inv (h w : Z) :
  (0 <= h)%Z -> (0 <= w)%Z ->
  exists z, np_zeros h w = Ret z
            /\ wf_image z
            /\ shape0 z = Z.to_nat h /\ shape1 z = Z.to_nat w
            /\ forall r c, r < Z.to_nat h -> c < Z.to_nat w ->
                           getpixel z r c = Some black.
Proof.
  intros Hh Hw. unfold np_zeros.
  destruct (Z.ltb_spec h 0); [lia |]. destruct (Z.ltb_spec w 0); [lia |].
  eexists. split; [reflexivity |].
  unfold wf_image, shape0, shape1, getpixel. simpl.
  rewrite repeat_length. repeat split.
  - apply Forall_forall. intros row Hrow. apply repeat_spec in Hrow. subst row.
    apply repeat_length.
  - intros r c Hr Hc.
    rewrite nth_error_repeat by assumption.
    now rewrite nth_error_repeat by assumption.
Qed.

(** An assignment to a slice inside the array, of an array of the shape of
    the slice: the samples inside the slice are the assigned ones, the other
    samples are kept. *)
Lemma slice_assign_pixel (dst src : Image) (ys ye xs xe : Z) :
  wf_image dst ->
  (0 <= ys <= ye)%Z -> (ye <= Z.of_nat (shape0 dst))%Z ->
  (0 <= xs <= xe)%Z -> (xe <= Z.of_nat (shape1 dst))%Z ->
  Z.of_nat (shape0 src) = (ye - ys)%Z ->
  Z.of_nat (shape1 src) = (xe - xs)%Z ->
  exists res,
    slice_assign dst ys ye xs xe src = Ret res
    /\ forall r c,
        r < shape0 dst -> c < shape1 dst ->
        getpixel res r c
        = if in_slice (Z.to_nat ys) (Z.to_nat ye) r
             && in_slice (Z.to_nat xs) (Z.to_nat xe) c
          then Some (nth (c - Z.to_nat xs)
                         (nth (r - Z.to_nat ys) (img_rows src) []) black)
          else getpixel dst r c.
Proof.
  intros Hwf Hys Hye Hxs Hxe Hh Hw.
  unfold slice_assign.
  rewrite !slice_bound_inside by lia.
  assert (B0 : broadcastable (shape0 src) (Z.to_nat ye - Z.to_nat ys) = true).
  { unfold broadcastable. apply orb_true_iff. left. apply Nat.eqb_eq. lia. }
  assert (B1 : broadcastable (shape1 src) (Z.to_nat xe - Z.to_nat xs) = true).
  { unfold broadcastable. apply orb_true_iff. left. apply Nat.eqb_eq. lia. }
  rewrite B0, B1. simpl andb. cbv iota.
  eexists. split; [reflexivity |].
  intros r c Hr Hc.
  unfold getpixel at 1, imap. simpl.
  rewrite nth_error_imap_from. simpl.
  unfold getpixel.
  destruct (nth_error (img_rows dst) r) as [row |] eqn:Erow.
  2:{ apply nth_error_None in Erow. unfold shape0 in Hr. lia. }
  simpl.
  assert (Hlen : length row = img_width dst).
  { unfold wf_image in Hwf. rewrite Forall_forall in Hwf.
    apply Hwf. eapply nth_error_In. exact Erow. }
  destruct (in_slice (Z.to_nat ys) (Z.to_nat ye) r) eqn:Er; simpl; [| reflexivity].
  rewrite nth_error_imap_from. simpl.
  destruct (nth_error row c) as [p |] eqn:Ep.
  2:{ apply nth_error_None in Ep. unfold shape1 in Hc. lia. }
  simpl.
  destruct (in_slice (Z.to_nat xs) (Z.to_nat xe) c) eqn:Ec; [| reflexivity].
  unfold in_slice in Er, Ec.
  apply andb_true_iff in Er. destruct Er as [Er0 Er1].
  apply andb_true_iff in Ec. destruct Ec as [Ec0 Ec1].
  apply Nat.leb_le in Er0, Ec0. apply Nat.ltb_lt in Er1, Ec1.
  unfold broadcast_index.
  destruct (Nat.eqb_spec (shape0 src) 1) as [E0 |];
    destruct (Nat.eqb_spec (shape1 src) 1) as [E1 |];
    repeat f_equal; lia.
Qed.

(** C10.  For an image and a target whose sides are positive and fit the
    [int] of OpenCV, the scaled sides are computed and exceed neither the
    target width nor the target height; the two offsets are therefore not
    negative and the slice the resized image is pasted into lies inside the
    canvas. *)
Theorem scaled_size_within_target (h w target_width target_height : Z) :
  (0 < h < 2 ^ 31)%Z -> (0 < w < 2 ^ 31)%Z ->
  (0 < target_width < 2 ^ 31)%Z -> (0 < target_height < 2 ^ 31)%Z ->
  exists new_width new_height,
    scaled_size h w target_width target_height = Ret (new_width, new_height)
    /\ (0 <= new_width <= target_width)%Z
    /\ (0 <= new_height <= target_height)%Z
    /\ (let y_offset := ((target_height - new_height) / 2)%Z in
        let x_offset := ((target_width - new_width) / 2)%Z in
        (0 <= y_offset)%Z /\ (y_offset + new_height <= target_height)%Z
        /\ (0 <= x_offset)%Z /\ (x_offset + new_width <= target_width)%Z).
Proof.
  intros Hh Hw Htw Hth.
  destruct (scaled_size_bounds h w target_width target_height Hh Hw Htw Hth)
    as (nw & nh & E & Hnw & Hnh).
  exists nw, nh. split; [exact E |]. split; [exact Hnw |]. split; [exact Hnh |].
  cbv zeta.
  pose proof (Z.div_pos (target_height - nh) 2 ltac:(lia) ltac:(lia)).
  pose proof (Z.div_pos (target_width - nw) 2 ltac:(lia) ltac:(lia)).
  pose proof (Z.mul_div_le (target_height - nh) 2 ltac:(lia)).
  pose proof (Z.mul_div_le (target_width - nw) 2 ltac:(lia)).
  lia.
Qed.

(** When both scaled sides are at least 1, [standardize_image] returns a
    canvas of exactly the target size: the image resized to the scaled size
    sits in it at the two offsets, which centre it up to one pixel, and
    every other pixel is black. *)
Theorem standardize_image_letterbox
        (cv : OpenCV) (image : Image)
        (target_width target_height new_width new_height : Z) :
  OpenCVSpec cv ->
  wf_image image -> is_empty image = false ->
  (Z.of_nat (shape0 image) < 2 ^ 31)%Z -> (Z.of_nat (shape1 image) < 2 ^ 31)%Z ->
  (0 < target_width < 2 ^ 31)%Z -> (0 < target_height < 2 ^ 31)%Z ->
  scaled_size (Z.of_nat (shape0 image)) (Z.of_nat (shape1 image))
              target_width target_height
  = Ret (new_width, new_height) ->
  (0 < new_width)%Z -> (0 < new_height)%Z ->
  let y_offset := ((target_height - new_height) / 2)%Z in
  let x_offset := ((target_width - new_width) / 2)%Z in
  exists resized_image standardized_image,
    resize_INTER_AREA cv image (new_width, new_height) = Ret resized_image
    /\ Z.of_nat (shape0 resized_image) = new_height
    /\ Z.of_nat (shape1 resized_image) = new_width
    /\ standardize_image cv image target_width target_height
       = Ret standardized_image
    /\ Z.of_nat (shape0 standardized_image) = target_height
    /\ Z.of_nat (shape1 standardized_image) = target_width
    /\ wf_image standardized_image
    /\ (0 <= target_height - new_height - 2 * y_offset <= 1)%Z
    /\ (0 <= target_width - new_width - 2 * x_offset <= 1)%Z
    /\ forall r c,
        (Z.of_nat r < target_height)%Z -> (Z.of_nat c < target_width)%Z ->
        getpixel standardized_image r c
        = Some (if in_slice (Z.to_nat y_offset)
                            (Z.to_nat (y_offset + new_height)) r
                   && in_slice (Z.to_nat x_offset)
                               (Z.to_nat (x_offset + new_width)) c
                then nth (c - Z.to_nat x_offset)
                         (nth (r - Z.to_nat y_offset)
                              (img_rows resized_image) []) black
                else black).
Proof.
  intros L Hwf Hne Hh Hw Htw Hth Escaled Hnw Hnh y_offset x_offset.
  assert (Hh0 : (0 < Z.of_nat (shape0 image))%Z).
  { unfold is_empty in Hne. apply orb_false_iff in Hne. destruct Hne as [Hne _].
    apply Nat.eqb_neq in Hne. lia. }
  assert (Hw0 : (0 < Z.of_nat (shape1 image))%Z).
  { unfold is_empty in Hne. apply orb_false_iff in Hne. destruct Hne as [_ Hne].
    apply Nat.eqb_neq in Hne. lia. }
  destruct (scaled_size_bounds (Z.of_nat (shape0 image)) (Z.of_nat (shape1 image))
              target_width target_height)
    as (nw & nh & E & Bw & Bh); try lia.
  rewrite Escaled in E. injection E as <- <-.
  assert (Hy0 : (0 <= y_offset)%Z) by (apply Z.div_pos; lia).
  assert (Hx0 : (0 <= x_offset)%Z) by (apply Z.div_pos; lia).
  assert (Hy1 : (y_offset + new_height <= target_height)%Z).
  { pose proof (Z.mul_div_le (target_height - new_height) 2 ltac:(lia)).
    subst y_offset. lia. }
  assert (Hx1 : (x_offset + new_width <= target_width)%Z).
  { pose proof (Z.mul_div_le (target_width - new_width) 2 ltac:(lia)).
    subst x_offset. lia. }
  destruct (resize_shape cv L image new_width new_height Hne Hwf)
    as (resized & Er & Hrwf & Hr0 & Hr1); try lia.
  destruct (np_zeros_inv target_height target_width)
    as (z & Ez & Hzwf & Hz0 & Hz1 & Hzpx); try lia.
  destruct (slice_assign_pixel z resized y_offset (y_offset + new_height)
                               x_offset (x_offset + new_width))
    as (out & Eo & Hpx); try assumption; try lia.
  destruct (slice_assign_shape _ _ _ _ _ _ _ Eo) as (Ho0 & Ho1 & Howf).
  exists resized, out.
  split; [exact Er |]. split; [exact Hr0 |]. split; [exact Hr1 |].
  split.
  { unfold standardize_image. rewrite Escaled. cbn [bind].
    rewrite Er. cbn [bind]. rewrite Ez. cbn [bind]. exact Eo. }
  split; [lia |]. split; [lia |]. split; [auto |].
  split.
  { pose proof (Z.mul_div_le (target_height - new_height) 2 ltac:(lia)).
    pose proof (Z.mul_succ_div_gt (target_height - new_height) 2 ltac:(lia)).
    subst y_offset. lia. }
  split.
  { pose proof (Z.mul_div_le (target_width - new_width) 2 ltac:(lia)).
    pose proof (Z.mul_succ_div_gt (target_width - new_width) 2 ltac:(lia)).
    subst x_offset. lia. }
  intros r c Hr Hc.
  rewrite Hpx by lia.
  rewrite Hzpx by lia.
  destruct (_ && _); reflexivity.
Qed.

(** The case of a 4000x2000 image (2000 rows of 4000 pixels) and the default
    target: the result is 1280 wide and 720 high, the image resized to
    1280x640 fills the rows 40 to 679, and the 40 rows above and the 40 rows
    below are black. *)
Theorem standardize_image_4000x2000 (cv : OpenCV) (image : Image) :
  OpenCVSpec cv ->
  wf_image image -> shape0 image = 2000 -> shape1 image = 4000 ->
  exists resized_image standardized_image,
    resize_INTER_AREA cv image (1280, 640)%Z = Ret resized_image
    /\ standardize_image cv image TARGET_WIDTH TARGET_HEIGHT
       = Ret standardized_image
    /\ shape0 standardized_image = 720
    /\ shape1 standardized_image = 1280
    /\ forall r c,
        r < 720 -> c < 1280 ->
        getpixel standardized_image r c
        = Some (if (40 <=? r)%nat && (r <? 680)%nat
                then nth c (nth (r - 40) (img_rows resized_image) []) black
                else black).
Proof.
  intros L Hwf H0 H1.
  assert (Escaled : scaled_size (Z.of_nat (shape0 image)) (Z.of_nat (shape1 image))
                                TARGET_WIDTH TARGET_HEIGHT
                    = Ret (1280, 640)%Z).
  { rewrite H0, H1. vm_compute. reflexivity. }
  assert (Hne : is_empty image = false)
    by (unfold is_empty; rewrite H0, H1; reflexivity).
  destruct (standardize_image_letterbox cv image TARGET_WIDTH TARGET_HEIGHT
              1280 640 L Hwf Hne)
    as (resized & out & Er & _ & _ & Eo & Ho0 & Ho1 & _ & _ & _ & Hpx);
    try (rewrite ?H0, ?H1; unfold TARGET_WIDTH, TARGET_HEIGHT; lia);
    try exact Escaled.
  exists resized, out.
  split; [exact Er |]. split; [exact Eo |].
  unfold TARGET_WIDTH, TARGET_HEIGHT in Ho0, Ho1, Hpx.
  split; [lia |]. split; [lia |].
  intros r c Hr Hc.
  rewrite Hpx by lia.
  change (Z.to_nat ((720 - 640) / 2)) with 40.
  change (Z.to_nat ((720 - 640) / 2 + 640)) with 680.
  change (Z.to_nat ((1280 - 1280) / 2)) with 0.
  change (Z.to_nat ((1280 - 1280) / 2 + 1280)) with 1280.
  unfold in_slice. rewrite Nat.sub_0_r. simpl (0 <=? c)%nat.
  destruct (Nat.ltb_spec c 1280); [| lia].
  now rewrite !andb_true_r.
Qed.

(** C5, as the code behaves on an image of one row of 2000 pixels with the
    default target: the scale factor is 0.64, the scaled height is
    [int(1 * 0.64) = 0], and [cv2.resize] is called with the size
    [(1280, 0)], which it refuses: no image is returned. *)
Theorem standardize_image_raises_on_thin_image (cv : OpenCV) (image : Image) :
  OpenCVSpec cv ->
  shape0 image = 1 -> shape1 image = 2000 ->
  scaled_size 1 2000 TARGET_WIDTH TARGET_HEIGHT = Ret (1280, 0)%Z
  /\ standardize_image cv image TARGET_WIDTH TARGET_HEIGHT = Raise cv2_error.
Proof.
  intros L H0 H1.
  assert (Escaled : scaled_size 1 2000 TARGET_WIDTH TARGET_HEIGHT
                    = Ret (1280, 0)%Z) by (vm_compute; reflexivity).
  split; [exact Escaled |].
  unfold standardize_image. rewrite H0, H1.
  change (Z.of_nat 1) with 1%Z. change (Z.of_nat 2000) with 2000%Z.
  rewrite Escaled. cbn [bind].
  rewrite (resize_empty cv L image 1280 0) by (right; lia).
  reflexivity.
Qed.

(** * The scaled sides from both sides

    Rounding is followed from below as well: a result falls short of the
    exact result by the factor [1 - 2^-52] at most, and an operation whose
    exact result is a binary64 number does not round at all. *)

Section ScaledSides.

Local Open Scope Z_scope.

(** Rounding in the normal range loses the factor [1 - 2^-52] at most. *)
Lemma binary_round_aux_normal_lower (mx ex : Z) (lx : location) :
  2 ^ 52 <= mx -> -1074 <= ex -> Zdigits2 mx + ex + 1 <= 1024 ->
  exists m e,
    binary_round_aux Float.prec Float.emax false mx ex lx = S754_finite false m e
    /\ ex <= e
    /\ mx * (2 ^ 52 - 1) <= Zpos m * 2 ^ (e - ex) * 2 ^ 52.
Proof.
  intros Hmx Hex Hov.
  assert (Hpos : 0 < mx) by (assert (0 < 2 ^ 52) by (apply Z.pow_pos_nonneg; lia); lia).
  pose proof (Zdigits2_bounds mx Hpos) as [Dlo Dhi].
  set (d := Zdigits2 mx) in *.
  assert (Hd : 53 <= d).
  { assert (52 < d) by (apply pow2_lt_inv; [pose proof (Zdigits2_pos mx Hpos); fold d in H |]; lia). lia. }
  destruct (shr_fexp_spec Float.prec Float.emax mx ex lx ltac:(lia)) as [mrs1 [E1 Hm1]].
  fold d in E1, Hm1. rewrite fexp_normal in E1, Hm1 by lia.
  replace (Z.max 0 (d + ex - 53 - ex)) with (d - 53) in E1, Hm1 by lia.
  set (k1 := d - 53) in *.
  assert (Hk1 : 0 < 2 ^ k1) by (apply Z.pow_pos_nonneg; lia).
  assert (Hsplit : 2 ^ d = 2 ^ k1 * 2 ^ 53).
  { rewrite <- Z.pow_add_r by lia. f_equal. lia. }
  assert (Hsplit' : 2 ^ (d - 1) = 2 ^ k1 * 2 ^ 52).
  { rewrite <- Z.pow_add_r by lia. f_equal. lia. }
  unfold binary_round_aux. rewrite E1. cbv beta iota.
  set (m' := shr_m mrs1) in *.
  assert (Hm'lo : 2 ^ 52 <= m').
  { rewrite Hm1. apply Z.div_le_lower_bound; lia. }
  assert (Hm'hi : m' < 2 ^ 53).
  { rewrite Hm1. apply Z.div_lt_upper_bound; lia. }
  assert (Hm'mx : mx < (m' + 1) * 2 ^ k1).
  { rewrite Hm1. rewrite Z.mul_comm. apply Z.mul_succ_div_gt. lia. }
  pose proof (round_nearest_even_bounds m' (loc_of_shr_record mrs1)) as Hr.
  set (m1 := round_nearest_even m' (loc_of_shr_record mrs1)) in *.
  clearbody m1 m'.
  destruct (shr_fexp_spec Float.prec Float.emax m1 (ex + k1) loc_Exact ltac:(lia))
    as [mrs2 [E2 Hm2]].
  assert (Hd1 : Zdigits2 m1 = 53 /\ m1 < 2 ^ 53 \/ Zdigits2 m1 = 54 /\ m1 = 2 ^ 53).
  { destruct (Z_lt_le_dec m1 (2 ^ 53)) as [Hlt | Hge].
    - left. split; [| exact Hlt]. apply Zdigits2_unique; lia.
    - right. assert (m1 = 2 ^ 53) by lia. split; [| assumption].
      apply Zdigits2_unique; [lia |]. subst m1.
      change (54 - 1) with 53. split; [lia |].
      apply Z.pow_lt_mono_r; lia. }
  destruct Hd1 as [[Hd1 Hlt] | [Hd1 Heq]].
  - rewrite Hd1 in E2, Hm2. rewrite fexp_normal in E2, Hm2 by lia.
    replace (Z.max 0 (53 + (ex + k1) - 53 - (ex + k1))) with 0 in E2, Hm2 by lia.
    rewrite Z.pow_0_r, Z.div_1_r in Hm2.
    rewrite E2. cbv beta iota. rewrite Hm2.
    destruct m1 as [| p | p]; try lia.
    destruct (Z.leb_spec (ex + k1 + 0) (Float.emax - Float.prec)) as [_ | Hbad];
      [| unfold Float.emax, Float.prec in Hbad; lia].
    exists p, (ex + k1 + 0). split; [reflexivity |].
    split; [lia |].
    replace (ex + k1 + 0 - ex) with k1 by lia.
    nia.
  - rewrite Hd1 in E2, Hm2. rewrite fexp_normal in E2, Hm2 by lia.
    replace (Z.max 0 (54 + (ex + k1) - 53 - (ex + k1))) with 1 in E2, Hm2 by lia.
    rewrite Heq in Hm2. change (2 ^ 53 / 2 ^ 1) with (2 ^ 52) in Hm2.
    rewrite E2. cbv beta iota. rewrite Hm2.
    change (2 ^ 52) with (Zpos (2 ^ 52)%positive) at 1.
    cbv beta iota.
    destruct (Z.leb_spec (ex + k1 + 1) (Float.emax - Float.prec)) as [_ | Hbad];
      [| unfold Float.emax, Float.prec in Hbad; lia].
    exists (2 ^ 52)%positive, (ex + k1 + 1). split; [reflexivity |].
    split; [lia |].
    replace (ex + k1 + 1 - ex) with (k1 + 1) by lia.
    rewrite Z.pow_add_r by lia. change (2 ^ 1) with 2.
    change (Z.pos (2 ^ 52)) with (2 ^ 52).
    nia.
Qed.

Lemma value_ge_scaled (m mx e ex c1 c2 : Z) :
  ex <= e ->
  mx * c2 <= m * 2 ^ (e - ex) * c1 ->
  (inject_Z mx * 2 ^ ex * inject_Z c2 <= inject_Z m * 2 ^ e * inject_Z c1)%Q.
Proof.
  intros He H.
  rewrite Zle_Qle in H. rewrite !inject_Z_mult in H.
  rewrite Qpow2_inject in H by lia.
  replace e with ((e - ex) + ex) at 1 by lia.
  rewrite Qpow2_add.
  apply Qmult_le_compat_r with (z := (2 ^ ex)%Q) in H;
    [| apply Qlt_le_weak, Qpow2_pos].
  setoid_replace (inject_Z m * (2 ^ (e - ex) * 2 ^ ex) * inject_Z c1)%Q
    with (inject_Z m * 2 ^ (e - ex) * inject_Z c1 * 2 ^ ex)%Q by ring.
  setoid_replace (inject_Z mx * 2 ^ ex * inject_Z c2)%Q
    with (inject_Z mx * inject_Z c2 * 2 ^ ex)%Q by ring.
  exact H.
Qed.

Lemma binary_round_aux_value_lower (mx ex : Z) (lx : location) :
  2 ^ 52 <= mx -> -1074 <= ex -> Zdigits2 mx + ex + 1 <= 1024 ->
  (inject_Z mx * 2 ^ ex * P52m
   <= Float.value (binary_round_aux Float.prec Float.emax false mx ex lx) * P52)%Q.
Proof.
  intros Hmx Hex Hov.
  destruct (binary_round_aux_normal_lower mx ex lx Hmx Hex Hov)
    as (m & e & -> & He & Hb).
  simpl Float.value. apply value_ge_scaled; [lia | exact Hb].
Qed.

(** The quotient the division works with, from both sides. *)
Lemma SFdiv_core_binary_spec_lower (a b : Z) :
  0 < a < 2 ^ 31 -> 0 < b < 2 ^ 31 ->
  exists q e l,
    SFdiv_core_binary Float.prec Float.emax a 0 b 0 = (q, e, l)
    /\ -84 <= e <= -22
    /\ 2 ^ 52 <= q < 2 ^ 54
    /\ a * 2 ^ (- e) < (q + 1) * b.
Proof.
  intros Ha Hb. unfold SFdiv_core_binary.
  pose proof (Zdigits2_pos a ltac:(lia)) as Hd1.
  pose proof (Zdigits2_pos b ltac:(lia)) as Hd2.
  pose proof (Zdigits2_le a 31 ltac:(lia) ltac:(lia) ltac:(lia)) as Hd1'.
  pose proof (Zdigits2_le b 31 ltac:(lia) ltac:(lia) ltac:(lia)) as Hd2'.
  pose proof (Zdigits2_bounds a ltac:(lia)) as [Alo Ahi].
  pose proof (Zdigits2_bounds b ltac:(lia)) as [Blo Bhi].
  set (d1 := Zdigits2 a) in *. set (d2 := Zdigits2 b) in *.
  cbv zeta.
  rewrite fexp_normal by lia.
  replace (Z.min (d1 + 0 - (d2 + 0) - 53) (0 - 0)) with (d1 - d2 - 53) by lia.
  set (e' := d1 - d2 - 53).
  replace (0 - 0 - e') with (- e') by lia.
  destruct (- e') as [| ps | ps] eqn:Es; try lia.
  rewrite Z.shiftl_mul_pow2 by lia.
  rewrite <- Es.
  pose proof (Z_div_mod (a * 2 ^ (- e')) b ltac:(lia)) as Hdm.
  destruct (Z.div_eucl (a * 2 ^ (- e')) b) as [q r].
  destruct Hdm as [Hq Hr].
  exists q, e', (new_location b r).
  split; [reflexivity |]. split; [lia |].
  assert (Hs : 2 ^ (- e') * 2 ^ (d1 - 1) = 2 ^ 52 * 2 ^ d2).
  { rewrite <- !Z.pow_add_r by lia. f_equal. lia. }
  assert (Hs' : 2 ^ (- e') * 2 ^ d1 = 2 ^ 54 * 2 ^ (d2 - 1)).
  { rewrite <- !Z.pow_add_r by lia. f_equal. lia. }
  assert (H2 : 0 < 2 ^ (- e')) by (apply Z.pow_pos_nonneg; lia).
  assert (H3 : 0 < 2 ^ d2) by (apply Z.pow_pos_nonneg; lia).
  assert (H4 : 0 < 2 ^ (d2 - 1)) by (apply Z.pow_pos_nonneg; lia).
  split; [| nia].
  split.
  - assert (2 ^ 52 * b < b * (q + 1)); [| nia].
    assert (2 ^ 52 * 2 ^ d2 <= a * 2 ^ (- e')) by nia.
    nia.
  - assert (b * q < 2 ^ 54 * b); [| nia].
    assert (a * 2 ^ (- e') < 2 ^ 54 * 2 ^ (d2 - 1)) by nia.
    nia.
Qed.


Lemma P52m_nonneg : (0 <= P52m)%Q.
Proof. discriminate. Qed.

Lemma int_truediv_value_lower (a b : Z) :
  0 < a < 2 ^ 31 -> 0 < b < 2 ^ 31 ->
  exists x, Float.int_truediv a b = Ret x
            /\ (inject_Z a * P52m * P52m <= Float.value x * inject_Z b * P52 * P52)%Q.
Proof.
  intros Ha Hb.
  destruct (SFdiv_core_binary_spec_lower a b Ha Hb)
    as (q & e & l & Ecore & He & Hq & Hqb).
  unfold Float.int_truediv.
  destruct (Z.eqb_spec b 0) as [| _]; [lia |].
  destruct a as [| pa | pa]; try lia. destruct b as [| pb | pb]; try lia.
  cbn [Float.of_int_exact SFdiv xorb]. rewrite Ecore.
  assert (Hdq : Zdigits2 q <= 54) by (apply Zdigits2_le; lia).
  destruct (binary_round_aux_value q e l ltac:(lia) ltac:(lia) ltac:(lia))
    as [Hn _].
  pose proof (binary_round_aux_value_lower q e l ltac:(lia) ltac:(lia) ltac:(lia))
    as Hv.
  set (x := binary_round_aux Float.prec Float.emax false q e l) in *.
  rewrite (normal_finite x _ _ Hn).
  exists x. split; [reflexivity |].
  set (A := inject_Z (Zpos pa)). set (B := inject_Z (Zpos pb)).
  set (Qq := inject_Z q). set (E := (2 ^ e)%Q).
  assert (HE : (0 < E)%Q) by apply Qpow2_pos.
  assert (HB : (0 < B)%Q)
    by (unfold B; change 0%Q with (inject_Z 0); rewrite <- Zlt_Qlt; lia).
  (* (q + 1) * b * 2^e >= a *)
  assert (H1 : (A <= (Qq + 1) * B * E)%Q).
  { apply Z.lt_le_incl in Hqb.
    rewrite Zle_Qle in Hqb. rewrite !inject_Z_mult, inject_Z_plus in Hqb.
    rewrite Qpow2_inject in Hqb by lia.
    apply Qmult_le_compat_r with (z := E) in Hqb; [| apply Qlt_le_weak; exact HE].
    setoid_replace (inject_Z (Zpos pa) * 2 ^ (- e) * E)%Q with A in Hqb.
    - exact Hqb.
    - unfold E, A. rewrite <- Qmult_assoc, <- Qpow2_add.
      replace (- e + e) with 0 by lia. simpl. ring. }
  (* q * P >= (q + 1) * Pm *)
  assert (H2 : ((Qq + 1) * P52m <= Qq * P52)%Q).
  { unfold Qq, P52m, P52. change 1%Q with (inject_Z 1).
    rewrite <- inject_Z_plus, <- !inject_Z_mult, <- Zle_Qle. lia. }
  fold Qq E in Hv.
  apply Qle_trans with ((Qq + 1) * B * E * P52m * P52m)%Q.
  { repeat apply Qmult_le_compat_r; try exact H1; apply P52m_nonneg. }
  apply Qle_trans with (Qq * P52 * (B * E * P52m))%Q.
  { setoid_replace ((Qq + 1) * B * E * P52m * P52m)%Q
      with ((Qq + 1) * P52m * (B * E * P52m))%Q by ring.
    apply Qmult_le_compat_r; [exact H2 |].
    repeat apply Qmult_le_0_compat;
      try apply P52m_nonneg; apply Qlt_le_weak; assumption. }
  setoid_replace (Qq * P52 * (B * E * P52m))%Q
    with (Qq * E * P52m * (B * P52))%Q by ring.
  setoid_replace (Float.value x * B * P52 * P52)%Q
    with (Float.value x * P52 * (B * P52))%Q by ring.
  apply Qmult_le_compat_r; [exact Hv |].
  apply Qmult_le_0_compat; [apply Qlt_le_weak; exact HB | discriminate].
Qed.

Lemma of_int_value_lower (n : Z) :
  0 < n < 2 ^ 31 ->
  exists x, Float.of_int n = Ret x
            /\ (inject_Z n * P52m <= Float.value x * P52)%Q.
Proof.
  intros Hn. destruct n as [| p | p]; try lia.
  unfold Float.of_int. cbn [binary_normalize]. unfold binary_round.
  pose proof (Zdigits2_pos (Zpos p) ltac:(lia)) as Hd.
  pose proof (Zdigits2_le (Zpos p) 31 ltac:(lia) ltac:(lia) ltac:(lia)) as Hd'.
  pose proof (Zdigits2_bounds (Zpos p) ltac:(lia)) as [Dlo Dhi].
  change (Zpos (digits2_pos p)) with (Zdigits2 (Zpos p)).
  set (d := Zdigits2 (Zpos p)) in *.
  rewrite fexp_normal by lia.
  unfold shl_align.
  destruct (d + 0 - 53 - 0) as [| k | k] eqn:Ek; try lia.
  assert (Hk : Zpos k = 53 - d) by lia.
  assert (Hmz : Zpos (Pos.iter xO p k) = Zpos p * 2 ^ (53 - d)).
  { rewrite Pos_iter_xO, Hk. reflexivity. }
  assert (Hs : 2 ^ (d - 1) * 2 ^ (53 - d) = 2 ^ 52).
  { rewrite <- Z.pow_add_r by lia. f_equal. lia. }
  assert (Hs' : 2 ^ d * 2 ^ (53 - d) = 2 ^ 53).
  { rewrite <- Z.pow_add_r by lia. f_equal. lia. }
  assert (H2 : 0 < 2 ^ (53 - d)) by (apply Z.pow_pos_nonneg; lia).
  assert (Hlo : 2 ^ 52 <= Zpos (Pos.iter xO p k)) by (rewrite Hmz; nia).
  assert (Hhi : Zpos (Pos.iter xO p k) < 2 ^ 53) by (rewrite Hmz; nia).
  assert (Hdz : Zdigits2 (Zpos (Pos.iter xO p k)) <= 53)
    by (apply Zdigits2_le; lia).
  destruct (binary_round_aux_value (Zpos (Pos.iter xO p k)) (d + 0 - 53) loc_Exact
              ltac:(lia) ltac:(lia) ltac:(lia)) as [Hnorm _].
  pose proof (binary_round_aux_value_lower (Zpos (Pos.iter xO p k)) (d + 0 - 53)
                loc_Exact ltac:(lia) ltac:(lia) ltac:(lia)) as Hv.
  set (x := binary_round_aux Float.prec Float.emax false
              (Zpos (Pos.iter xO p k)) (d + 0 - 53) loc_Exact) in *.
  rewrite (normal_finite x _ _ Hnorm).
  exists x. split; [reflexivity |].
  eapply Qle_trans; [| exact Hv].
  apply Qmult_le_compat_r; [| apply P52m_nonneg].
  rewrite Hmz, inject_Z_mult, Qpow2_inject by lia.
  rewrite <- Qmult_assoc, <- Qpow2_add.
  replace (53 - d + (d + 0 - 53)) with 0 by lia.
  simpl. rewrite Qmult_1_r. apply Qle_refl.
Qed.

Lemma SFmul_value_lower (x y : Float.float) :
  normal x (-500) 400 -> normal y (-500) 400 ->
  (Float.value x * Float.value y * P52m
   <= Float.value (SFmul Float.prec Float.emax x y) * P52)%Q.
Proof.
  intros (mx & ex & -> & Hmx & Hex) (my & ey & -> & Hmy & Hey).
  cbn [SFmul xorb].
  assert (Hlo : 2 ^ 52 <= Zpos (mx * my)) by (rewrite Pos2Z.inj_mul; nia).
  assert (Hhi : Zpos (mx * my) < 2 ^ 106).
  { rewrite Pos2Z.inj_mul. change (2 ^ 106) with (2 ^ 53 * 2 ^ 53). nia. }
  assert (Hd : Zdigits2 (Zpos (mx * my)) <= 106) by (apply Zdigits2_le; lia).
  pose proof (binary_round_aux_value_lower (Zpos (mx * my)) (ex + ey) loc_Exact
                ltac:(lia) ltac:(lia) ltac:(lia)) as Hv.
  eapply Qle_trans; [| exact Hv].
  apply Qmult_le_compat_r; [| apply P52m_nonneg].
  cbn [Float.value cond_Zopp]. rewrite Pos2Z.inj_mul, inject_Z_mult, Qpow2_add.
  apply Qle_lteq. right. ring.
Qed.

Lemma to_int_lower (x : Float.float) (lo hi K : Z) :
  normal x lo hi -> (inject_Z K <= Float.value x)%Q ->
  exists n, Float.to_int x = Ret n /\ K <= n.
Proof.
  intros (m & e & -> & Hm & He) Hv. cbn [Float.value cond_Zopp] in Hv.
  cbn [Float.to_int cond_Zopp]. eexists. split; [reflexivity |].
  destruct (Z_le_gt_dec 0 e) as [Hpos | Hneg].
  - rewrite Z.shiftl_mul_pow2 by lia.
    rewrite <- Qpow2_inject, <- inject_Z_mult, <- Zle_Qle in Hv by lia. lia.
  - rewrite <- (Z.opp_involutive e) at 1. rewrite Z.shiftl_opp_r.
    rewrite Z.shiftr_div_pow2 by lia.
    apply Z.div_le_lower_bound; [apply Z.pow_pos_nonneg; lia |].
    rewrite Zle_Qle, inject_Z_mult, Qpow2_inject by lia.
    apply Qmult_le_compat_r with (z := (2 ^ (- e))%Q) in Hv;
      [| apply Qlt_le_weak, Qpow2_pos].
    rewrite <- Qmult_assoc, <- Qpow2_add in Hv.
    replace (e + - e) with 0 in Hv by lia. simpl (2 ^ 0)%Q in Hv.
    rewrite Qmult_1_r in Hv. rewrite Qmult_comm. exact Hv.
Qed.


(** [int(n * s)] from below, when [s] is at least [N / D] up to two
    roundings. *)
Lemma scaled_side_lower (n N D K : Z) (s : Float.float) :
  0 < n < 2 ^ 31 -> 0 <= N -> 0 < D ->
  normal s (-84) (-20) ->
  (inject_Z N * P52m * P52m <= Float.value s * inject_Z D * P52 * P52)%Q ->
  K * (2 ^ 52 * 2 ^ 52 * 2 ^ 52 * 2 ^ 52) * D
  <= n * N * ((2 ^ 52 - 1) * (2 ^ 52 - 1) * (2 ^ 52 - 1) * (2 ^ 52 - 1)) ->
  exists x k, Float.int_mul n s = Ret x /\ Float.to_int x = Ret k /\ K <= k.
Proof.
  intros Hn HN HD Hs Hsv HK.
  destruct (of_int_value n Hn) as (fn & Efn & Hfn & _).
  destruct (of_int_value_lower n Hn) as (fn' & Efn' & Hfv).
  rewrite Efn in Efn'. injection Efn' as <-.
  unfold Float.int_mul. rewrite Efn. cbn [bind].
  assert (Hfn' : normal fn (-500) 400)
    by (eapply normal_weaken; [| | exact Hfn]; lia).
  assert (Hs' : normal s (-500) 400)
    by (eapply normal_weaken; [| | exact Hs]; lia).
  destruct (SFmul_value fn s Hfn' Hs') as [Hz _].
  pose proof (SFmul_value_lower fn s Hfn' Hs') as Hzv.
  set (z := SFmul Float.prec Float.emax fn s) in *.
  destruct (to_int_lower z (-1000) 900 K Hz) as (k & Ek & Hk).
  2:{ exists z, k. auto. }
  pose proof (normal_value_pos _ _ _ Hfn) as Fpos.
  pose proof (normal_value_pos _ _ _ Hs) as Spos.
  assert (Npos : (0 < inject_Z n)%Q)
    by (change 0%Q with (inject_Z 0); rewrite <- Zlt_Qlt; lia).
  assert (N0 : (0 <= inject_Z N)%Q) by (apply inject_Z_nonneg; exact HN).
  assert (Dpos : (0 < inject_Z D)%Q)
    by (change 0%Q with (inject_Z 0); rewrite <- Zlt_Qlt; lia).
  assert (Ppos : (0 < P52)%Q) by reflexivity.
  assert (Pm0 : (0 <= P52m)%Q) by apply P52m_nonneg.
  assert (H1 : (inject_Z n * P52m * (inject_Z N * P52m * P52m)
                <= Float.value fn * P52 * (Float.value s * inject_Z D * P52 * P52))%Q).
  { apply Qmult_le_compat_nonneg; split; try assumption;
      repeat apply Qmult_le_0_compat; try assumption;
      apply Qlt_le_weak; assumption. }
  assert (H2 : (Float.value fn * Float.value s * P52m * (inject_Z D * P52 * P52 * P52)
                <= Float.value z * P52 * (inject_Z D * P52 * P52 * P52))%Q).
  { apply Qmult_le_compat_r; [exact Hzv |].
    repeat apply Qmult_le_0_compat; apply Qlt_le_weak; assumption. }
  assert (H3 : (inject_Z n * inject_Z N * (P52m * P52m * P52m * P52m)
                <= Float.value z * ((P52 * P52 * P52 * P52) * inject_Z D))%Q).
  { setoid_replace (Float.value z * ((P52 * P52 * P52 * P52) * inject_Z D))%Q
      with (Float.value z * P52 * (inject_Z D * P52 * P52 * P52))%Q by ring.
    eapply Qle_trans; [| exact H2].
    setoid_replace (Float.value fn * Float.value s * P52m
                    * (inject_Z D * P52 * P52 * P52))%Q
      with (Float.value fn * P52 * (Float.value s * inject_Z D * P52 * P52) * P52m)%Q
      by ring.
    setoid_replace (inject_Z n * inject_Z N * (P52m * P52m * P52m * P52m))%Q
      with (inject_Z n * P52m * (inject_Z N * P52m * P52m) * P52m)%Q by ring.
    apply Qmult_le_compat_r; [exact H1 | exact Pm0]. }
  assert (H4 : (inject_Z K * ((P52 * P52 * P52 * P52) * inject_Z D)
                <= inject_Z n * inject_Z N * (P52m * P52m * P52m * P52m))%Q).
  { unfold P52, P52m. rewrite <- !inject_Z_mult, <- Zle_Qle. lia. }
  pose proof (Qle_trans _ _ _ H4 H3) as H5.
  apply Qmult_le_r in H5; [exact H5 |].
  repeat apply Qmult_lt_0_compat; assumption.
Qed.

(** [int(n * s)] from above, when [s] is at most [N / D] up to one
    rounding. *)
Lemma scaled_side_upper (n N D K : Z) (s : Float.float) :
  0 < n < 2 ^ 31 -> 0 <= N -> 0 < D ->
  normal s (-84) (-20) ->
  (Float.value s * inject_Z D * P52 <= inject_Z N * P52')%Q ->
  n * N * ((2 ^ 52 + 1) * (2 ^ 52 + 1) * (2 ^ 52 + 1))
  < (K + 1) * (2 ^ 52 * 2 ^ 52 * 2 ^ 52) * D ->
  exists x k, Float.int_mul n s = Ret x /\ Float.to_int x = Ret k
              /\ 0 <= k <= K.
Proof.
  intros Hn HN HD Hs Hsv HK.
  destruct (of_int_value n Hn) as (fn & Efn & Hfn & Hfv).
  unfold Float.int_mul. rewrite Efn. cbn [bind].
  destruct (SFmul_value fn s) as [Hz Hzv];
    [eapply normal_weaken; [| | exact Hfn]; lia
    | eapply normal_weaken; [| | exact Hs]; lia |].
  set (z := SFmul Float.prec Float.emax fn s) in *.
  destruct (to_int_bound z (-1000) 900 K Hz) as (k & Ek & Hk).
  2:{ exists z, k. auto. }
  pose proof (normal_value_pos _ _ _ Hfn) as Fpos.
  pose proof (normal_value_pos _ _ _ Hs) as Spos.
  assert (Npos : (0 < inject_Z n)%Q)
    by (change 0%Q with (inject_Z 0); rewrite <- Zlt_Qlt; lia).
  assert (Dpos : (0 < inject_Z D)%Q)
    by (change 0%Q with (inject_Z 0); rewrite <- Zlt_Qlt; lia).
  assert (Ppos : (0 < P52)%Q) by reflexivity.
  assert (P'pos : (0 < P52')%Q) by reflexivity.
  assert (H1 : (Float.value fn * P52 * (Float.value s * inject_Z D * P52)
                <= inject_Z n * P52' * (inject_Z N * P52'))%Q).
  { apply Qmult_le_compat_nonneg; split; try assumption;
      repeat apply Qmult_le_0_compat; apply Qlt_le_weak; assumption. }
  assert (H2 : (Float.value z * P52 * (inject_Z D * P52 * P52)
                <= Float.value fn * Float.value s * P52' * (inject_Z D * P52 * P52))%Q).
  { apply Qmult_le_compat_r; [exact Hzv |].
    repeat apply Qmult_le_0_compat; apply Qlt_le_weak; assumption. }
  assert (H3 : (Float.value z * ((P52 * P52 * P52) * inject_Z D)
                <= inject_Z n * inject_Z N * (P52' * P52' * P52'))%Q).
  { setoid_replace (Float.value z * ((P52 * P52 * P52) * inject_Z D))%Q
      with (Float.value z * P52 * (inject_Z D * P52 * P52))%Q by ring.
    eapply Qle_trans; [exact H2 |].
    setoid_replace (Float.value fn * Float.value s * P52' * (inject_Z D * P52 * P52))%Q
      with (Float.value fn * P52 * (Float.value s * inject_Z D * P52) * P52')%Q by ring.
    setoid_replace (inject_Z n * inject_Z N * (P52' * P52' * P52'))%Q
      with (inject_Z n * P52' * (inject_Z N * P52') * P52')%Q by ring.
    apply Qmult_le_compat_r; [exact H1 | apply Qlt_le_weak; assumption]. }
  apply Qnot_le_lt. intros Hge.
  assert (H4 : (inject_Z (K + 1) * ((P52 * P52 * P52) * inject_Z D)
                <= Float.value z * ((P52 * P52 * P52) * inject_Z D))%Q).
  { apply Qmult_le_compat_r; [exact Hge |].
    repeat apply Qmult_le_0_compat; apply Qlt_le_weak; assumption. }
  pose proof (Qle_trans _ _ _ H4 H3) as H5.
  unfold P52, P52' in H5. rewrite <- !inject_Z_mult, <- Zle_Qle in H5.
  lia.
Qed.

Lemma min_cases (x y : Float.float) : Float.min x y = x \/ Float.min x y = y.
Proof. unfold Float.min. destruct (SFltb y x); auto. Qed.


(** The two ratios of [scaled_size] and the scale factor, for sides that fit
    the [int] of OpenCV: both ratios are normalised numbers within one
    rounding of the exact quotients, the scale factor is one of them and
    exceeds neither, and the two scaled sides are its products. *)
Lemma scaled_size_steps (h w target_width target_height : Z) :
  0 < h < 2 ^ 31 -> 0 < w < 2 ^ 31 ->
  0 < target_width < 2 ^ 31 -> 0 < target_height < 2 ^ 31 ->
  exists rw rh,
    let s := Float.min rw rh in
    normal s (-84) (-20)
    /\ (Float.value s * inject_Z w * P52 <= inject_Z target_width * P52')%Q
    /\ (Float.value s * inject_Z h * P52 <= inject_Z target_height * P52')%Q
    /\ ((inject_Z target_width * P52m * P52m
         <= Float.value s * inject_Z w * P52 * P52)%Q
        \/ (inject_Z target_height * P52m * P52m
            <= Float.value s * inject_Z h * P52 * P52)%Q)
    /\ scaled_size h w target_width target_height
       = (x <- Float.int_mul w s ;;
          new_width <- Float.to_int x ;;
          y <- Float.int_mul h s ;;
          new_height <- Float.to_int y ;;
          Ret (new_width, new_height)).
Proof.
  intros Hh Hw Htw Hth.
  destruct (int_truediv_value target_width w Htw Hw) as (rw & Erw & Hrw & Vrw).
  destruct (int_truediv_value target_height h Hth Hh) as (rh & Erh & Hrh & Vrh).
  destruct (int_truediv_value_lower target_width w Htw Hw) as (rw' & Erw' & Lrw).
  destruct (int_truediv_value_lower target_height h Hth Hh) as (rh' & Erh' & Lrh).
  rewrite Erw in Erw'. injection Erw' as <-.
  rewrite Erh in Erh'. injection Erh' as <-.
  destruct (min_value rw rh (-84) (-20) Hrw Hrh) as (Hs & Vsw & Vsh).
  exists rw, rh. cbv zeta.
  split; [exact Hs |].
  split.
  { eapply Qle_trans; [| exact Vrw].
    repeat apply Qmult_le_compat_r; try exact Vsw;
      [apply inject_Z_nonneg; lia | discriminate]. }
  split.
  { eapply Qle_trans; [| exact Vrh].
    repeat apply Qmult_le_compat_r; try exact Vsh;
      [apply inject_Z_nonneg; lia | discriminate]. }
  split.
  { destruct (min_cases rw rh) as [-> | ->]; [left | right]; assumption. }
  unfold scaled_size. rewrite Erw, Erh. reflexivity.
Qed.

Lemma fill_margin (n T : Z) :
  0 < n -> 0 < T < 2 ^ 31 ->
  (T - 1) * (2 ^ 52 * 2 ^ 52 * 2 ^ 52 * 2 ^ 52) * n
  <= n * T * ((2 ^ 52 - 1) * (2 ^ 52 - 1) * (2 ^ 52 - 1) * (2 ^ 52 - 1)).
Proof.
  intros Hn HT.
  assert (H : (T - 1) * (2 ^ 52 * 2 ^ 52 * 2 ^ 52 * 2 ^ 52)
              <= T * ((2 ^ 52 - 1) * (2 ^ 52 - 1) * (2 ^ 52 - 1) * (2 ^ 52 - 1)))
    by lia.
  nia.
Qed.

Lemma one_margin (n N D : Z) :
  0 < D < 2 ^ 31 -> D < n * N ->
  1 * (2 ^ 52 * 2 ^ 52 * 2 ^ 52 * 2 ^ 52) * D
  <= n * N * ((2 ^ 52 - 1) * (2 ^ 52 - 1) * (2 ^ 52 - 1) * (2 ^ 52 - 1)).
Proof.
  intros HD H.
  assert (H1 : (2 ^ 52 * 2 ^ 52 * 2 ^ 52 * 2 ^ 52) * D
               <= (D + 1) * ((2 ^ 52 - 1) * (2 ^ 52 - 1) * (2 ^ 52 - 1) * (2 ^ 52 - 1)))
    by lia.
  nia.
Qed.

Lemma zero_margin (n N D : Z) :
  0 < D < 2 ^ 31 -> 0 <= n * N < D ->
  n * N * ((2 ^ 52 + 1) * (2 ^ 52 + 1) * (2 ^ 52 + 1))
  < (0 + 1) * (2 ^ 52 * 2 ^ 52 * 2 ^ 52) * D.
Proof.
  intros HD H.
  assert (H1 : (D - 1) * ((2 ^ 52 + 1) * (2 ^ 52 + 1) * (2 ^ 52 + 1))
               < (2 ^ 52 * 2 ^ 52 * 2 ^ 52) * D) by lia.
  nia.
Qed.


Lemma scaled_size_run (w h : Z) (s x y : Float.float) (nw nh : Z) :
  Float.int_mul w s = Ret x -> Float.to_int x = Ret nw ->
  Float.int_mul h s = Ret y -> Float.to_int y = Ret nh ->
  (x <- Float.int_mul w s ;;
   new_width <- Float.to_int x ;;
   y <- Float.int_mul h s ;;
   new_height <- Float.to_int y ;;
   Ret (new_width, new_height)) = Ret (nw, nh).
Proof.
  intros E1 E2 E3 E4.
  rewrite E1. cbn [bind]. rewrite E2. cbn [bind].
  rewrite E3. cbn [bind]. rewrite E4. reflexivity.
Qed.

(** X5.  The scaled image reaches the target on one side up to one pixel:
    for an image and a target whose sides are positive and fit the [int] of
    OpenCV, the scaled width is the target width or one less, or the scaled
    height is the target height or one less.  The pixel can be missing:
    [int(77 * (1280 / 77))] is 1279. *)
Theorem scaled_size_fills_target (h w target_width target_height : Z) :
  0 < h < 2 ^ 31 -> 0 < w < 2 ^ 31 ->
  0 < target_width < 2 ^ 31 -> 0 < target_height < 2 ^ 31 ->
  exists new_width new_height,
    scaled_size h w target_width target_height = Ret (new_width, new_height)
    /\ (target_width - 1 <= new_width <= target_width
        \/ target_height - 1 <= new_height <= target_height).
Proof.
  intros Hh Hw Htw Hth.
  destruct (scaled_size_steps h w target_width target_height Hh Hw Htw Hth)
    as (rw & rh & Hs & Uw & Uh & Lo & E).
  cbv zeta in *. set (s := Float.min rw rh) in *.
  destruct (scaled_side_bound w target_width s Hw Htw Hs Uw)
    as (x & nw & Ex & Enw & Hnw).
  destruct (scaled_side_bound h target_height s Hh Hth Hs Uh)
    as (y & nh & Ey & Enh & Hnh).
  exists nw, nh. split.
  { rewrite E. eapply scaled_size_run; eassumption. }
  destruct Lo as [Lw | Lh].
  - left.
    destruct (scaled_side_lower w target_width w (target_width - 1) s Hw ltac:(lia) ltac:(lia) Hs Lw
                ltac:(apply fill_margin; lia))
      as (x' & k & Ex' & Ek & Hk).
    rewrite Ex in Ex'. injection Ex' as <-.
    rewrite Enw in Ek. injection Ek as <-. lia.
  - right.
    destruct (scaled_side_lower h target_height h (target_height - 1) s Hh ltac:(lia) ltac:(lia) Hs Lh
                ltac:(apply fill_margin; lia))
      as (y' & k & Ey' & Ek & Hk).
    rewrite Ey in Ey'. injection Ey' as <-.
    rewrite Enh in Ek. injection Ek as <-. lia.
Qed.

Lemma scaled_size_positive (h w target_width target_height : Z) :
  0 < h < 2 ^ 31 -> 0 < w < 2 ^ 31 ->
  2 <= target_width < 2 ^ 31 -> 2 <= target_height < 2 ^ 31 ->
  w < h * target_width -> h < w * target_height ->
  exists new_width new_height,
    scaled_size h w target_width target_height = Ret (new_width, new_height)
    /\ 1 <= new_width <= target_width
    /\ 1 <= new_height <= target_height.
Proof.
  intros Hh Hw Htw Hth Aw Ah.
  destruct (scaled_size_steps h w target_width target_height Hh Hw
              ltac:(lia) ltac:(lia))
    as (rw & rh & Hs & Uw & Uh & Lo & E).
  cbv zeta in *. set (s := Float.min rw rh) in *.
  destruct (scaled_side_bound w target_width s Hw ltac:(lia) Hs Uw)
    as (x & nw & Ex & Enw & Hnw).
  destruct (scaled_side_bound h target_height s Hh ltac:(lia) Hs Uh)
    as (y & nh & Ey & Enh & Hnh).
  exists nw, nh. split.
  { rewrite E. eapply scaled_size_run; eassumption. }
  destruct Lo as [Lw | Lh].
  - destruct (scaled_side_lower w target_width w (target_width - 1) s Hw ltac:(lia) ltac:(lia) Hs Lw
                ltac:(apply fill_margin; lia))
      as (x' & k & Ex' & Ek & Hk).
    rewrite Ex in Ex'. injection Ex' as <-.
    rewrite Enw in Ek. injection Ek as <-.
    destruct (scaled_side_lower h target_width w 1 s Hh ltac:(lia) ltac:(lia) Hs Lw
                ltac:(apply one_margin; lia))
      as (y' & k' & Ey' & Ek' & Hk').
    rewrite Ey in Ey'. injection Ey' as <-.
    rewrite Enh in Ek'. injection Ek' as <-. lia.
  - destruct (scaled_side_lower h target_height h (target_height - 1) s Hh ltac:(lia) ltac:(lia) Hs Lh
                ltac:(apply fill_margin; lia))
      as (y' & k & Ey' & Ek & Hk).
    rewrite Ey in Ey'. injection Ey' as <-.
    rewrite Enh in Ek. injection Ek as <-.
    destruct (scaled_side_lower w target_height h 1 s Hw ltac:(lia) ltac:(lia) Hs Lh
                ltac:(apply one_margin; lia))
      as (x' & k' & Ex' & Ek' & Hk').
    rewrite Ex in Ex'. injection Ex' as <-.
    rewrite Enw in Ek'. injection Ek' as <-. lia.
Qed.

Lemma scaled_size_zero_side (h w target_width target_height : Z) :
  0 < h < 2 ^ 31 -> 0 < w < 2 ^ 31 ->
  0 < target_width < 2 ^ 31 -> 0 < target_height < 2 ^ 31 ->
  w * target_height < h \/ h * target_width < w ->
  exists new_width new_height,
    scaled_size h w target_width target_height = Ret (new_width, new_height)
    /\ (new_width = 0 \/ new_height = 0).
Proof.
  intros Hh Hw Htw Hth Hthin.
  destruct (scaled_size_steps h w target_width target_height Hh Hw Htw Hth)
    as (rw & rh & Hs & Uw & Uh & _ & E).
  cbv zeta in *. set (s := Float.min rw rh) in *.
  destruct (scaled_side_bound w target_width s Hw Htw Hs Uw)
    as (x & nw & Ex & Enw & Hnw).
  destruct (scaled_side_bound h target_height s Hh Hth Hs Uh)
    as (y & nh & Ey & Enh & Hnh).
  exists nw, nh. split.
  { rewrite E. eapply scaled_size_run; eassumption. }
  destruct Hthin as [Ht | Ht].
  - left.
    destruct (scaled_side_upper w target_height h 0 s Hw ltac:(lia) ltac:(lia) Hs Uh
                ltac:(apply zero_margin; nia))
      as (x' & k & Ex' & Ek & Hk).
    rewrite Ex in Ex'. injection Ex' as <-.
    rewrite Enw in Ek. injection Ek as <-. lia.
  - right.
    destruct (scaled_side_upper h target_width w 0 s Hh ltac:(lia) ltac:(lia) Hs Uw
                ltac:(apply zero_margin; nia))
      as (y' & k & Ey' & Ek & Hk).
    rewrite Ey in Ey'. injection Ey' as <-.
    rewrite Enh in Ek. injection Ek as <-. lia.
Qed.


Lemma is_empty_false (img : Image) :
  is_empty img = false <-> 0 < Z.of_nat (shape0 img) /\ 0 < Z.of_nat (shape1 img).
Proof.
  unfold is_empty. rewrite orb_false_iff, !Nat.eqb_neq. lia.
Qed.

(** X1.  [standardize_image] returns for every image that is not too thin
    for the target.  When the sides of the image and of the target fit the
    [int] of OpenCV, the target sides are at least 2, and the image is less
    than [target_height] times as high as wide and less than
    [target_width] times as wide as high, both scaled sides are at least 1,
    [cv2.resize] is called with them, and the result has exactly the target
    size: the resized image at the two offsets, black everywhere else. *)
Theorem standardize_image_fits
        (cv : OpenCV) (image : Image) (target_width target_height : Z) :
  OpenCVSpec cv -> wf_image image ->
  0 < Z.of_nat (shape0 image) < 2 ^ 31 ->
  0 < Z.of_nat (shape1 image) < 2 ^ 31 ->
  2 <= target_width < 2 ^ 31 -> 2 <= target_height < 2 ^ 31 ->
  Z.of_nat (shape1 image) < Z.of_nat (shape0 image) * target_width ->
  Z.of_nat (shape0 image) < Z.of_nat (shape1 image) * target_height ->
  exists new_width new_height resized_image standardized_image,
    scaled_size (Z.of_nat (shape0 image)) (Z.of_nat (shape1 image))
                target_width target_height
    = Ret (new_width, new_height)
    /\ 1 <= new_width <= target_width
    /\ 1 <= new_height <= target_height
    /\ resize_INTER_AREA cv image (new_width, new_height) = Ret resized_image
    /\ standardize_image cv image target_width target_height
       = Ret standardized_image
    /\ Z.of_nat (shape0 standardized_image) = target_height
    /\ Z.of_nat (shape1 standardized_image) = target_width
    /\ wf_image standardized_image
    /\ forall r c,
        Z.of_nat r < target_height -> Z.of_nat c < target_width ->
        getpixel standardized_image r c
        = Some (if in_slice (Z.to_nat ((target_height - new_height) / 2))
                            (Z.to_nat ((target_height - new_height) / 2
                                       + new_height)) r
                   && in_slice (Z.to_nat ((target_width - new_width) / 2))
                               (Z.to_nat ((target_width - new_width) / 2
                                          + new_width)) c
                then nth (c - Z.to_nat ((target_width - new_width) / 2))
                         (nth (r - Z.to_nat ((target_height - new_height) / 2))
                              (img_rows resized_image) []) black
                else black).
Proof.
  intros L Hwf Hh Hw Htw Hth Aw Ah.
  destruct (scaled_size_positive _ _ _ _ Hh Hw Htw Hth Aw Ah)
    as (nw & nh & E & Bw & Bh).
  assert (Hne : is_empty image = false) by (apply is_empty_false; lia).
  destruct (standardize_image_letterbox cv image target_width target_height
              nw nh L Hwf Hne ltac:(lia) ltac:(lia) ltac:(lia) ltac:(lia) E
              ltac:(lia) ltac:(lia))
    as (resized & out & Er & _ & _ & Eo & Ho0 & Ho1 & Howf & _ & _ & Hpx).
  exists nw, nh, resized, out.
  repeat (split; [assumption |]). exact Hpx.
Qed.

(** X2.  An image too thin for the target makes [standardize_image] raise:
    when the image is more than [target_height] times as high as wide, the
    scaled width is [int] of a number below 1, and likewise the scaled
    height of an image more than [target_width] times as wide as high;
    [cv2.resize] refuses the size and its [cv2.error] leaves the function. *)
Theorem standardize_image_raises_when_a_side_vanishes
        (cv : OpenCV) (image : Image) (target_width target_height : Z) :
  OpenCVSpec cv ->
  0 < Z.of_nat (shape0 image) < 2 ^ 31 ->
  0 < Z.of_nat (shape1 image) < 2 ^ 31 ->
  0 < target_width < 2 ^ 31 -> 0 < target_height < 2 ^ 31 ->
  Z.of_nat (shape1 image) * target_height < Z.of_nat (shape0 image)
  \/ Z.of_nat (shape0 image) * target_width < Z.of_nat (shape1 image) ->
  standardize_image cv image target_width target_height = Raise cv2_error.
Proof.
  intros L Hh Hw Htw Hth Hthin.
  destruct (scaled_size_zero_side _ _ _ _ Hh Hw Htw Hth Hthin)
    as (nw & nh & E & Hz).
  unfold standardize_image. rewrite E. cbn [bind].
  rewrite (resize_empty cv L image nw nh) by lia.
  reflexivity.
Qed.

(** X3.  An array without rows or without columns makes
    [standardize_image] raise [ZeroDivisionError] in line 33, before OpenCV
    is called: [target_width / w] raises it when the array has no columns,
    and [target_height / h] when it has columns and no rows (the width and
    the target width in the range of the [int] of OpenCV, where the first
    quotient is a float). *)
Theorem standardize_image_empty_image
        (cv : OpenCV) (image : Image) (target_width target_height : Z) :
  is_empty image = true ->
  Z.of_nat (shape1 image) < 2 ^ 31 -> 0 < target_width < 2 ^ 31 ->
  standardize_image cv image target_width target_height
  = Raise ZeroDivisionError.
Proof.
  intros He Hw Htw.
  unfold standardize_image, scaled_size.
  destruct (Z.eq_dec (Z.of_nat (shape1 image)) 0) as [E1 | N1].
  - rewrite E1. reflexivity.
  - destruct (int_truediv_value target_width (Z.of_nat (shape1 image)) Htw
                ltac:(lia)) as (rw & Erw & _).
    rewrite Erw. cbn [bind].
    assert (E0 : Z.of_nat (shape0 image) = 0).
    { unfold is_empty in He. apply orb_true_iff in He.
      rewrite !Nat.eqb_eq in He. lia. }
    rewrite E0. reflexivity.
Qed.

(** ** Operations that do not round *)

Lemma shr_1_exact (m : Z) :
  0 <= m ->
  shr_1 {| shr_m := m * 2; shr_r := false; shr_s := false |}
  = {| shr_m := m; shr_r := false; shr_s := false |}.
Proof.
  intros Hm. destruct m as [| p | p]; try lia; [reflexivity |].
  replace (Zpos p * 2) with (Zpos p~0) by lia. reflexivity.
Qed.

Lemma iter_pos_shr_1_exact (p : positive) :
  forall m, 0 <= m ->
            iter_pos shr_1 p
                     {| shr_m := m * 2 ^ Zpos p; shr_r := false; shr_s := false |}
            = {| shr_m := m; shr_r := false; shr_s := false |}.
Proof.
  induction p as [p IH | p IH |]; intros m Hm; cbn [iter_pos].
  - replace (m * 2 ^ Z.pos p~1) with (m * 2 ^ Zpos p * 2 ^ Zpos p * 2).
    2:{ replace (Z.pos p~1) with (Zpos p + Zpos p + 1) by lia.
        rewrite !Z.pow_add_r by lia. rewrite Z.pow_1_r. ring. }
    assert (H2 : 0 < 2 ^ Zpos p) by (apply Z.pow_pos_nonneg; lia).
    rewrite shr_1_exact by nia.
    rewrite IH by nia. apply IH. exact Hm.
  - replace (m * 2 ^ Z.pos p~0) with (m * 2 ^ Zpos p * 2 ^ Zpos p).
    2:{ replace (Z.pos p~0) with (Zpos p + Zpos p) by lia.
        rewrite !Z.pow_add_r by lia. ring. }
    assert (H2 : 0 < 2 ^ Zpos p) by (apply Z.pow_pos_nonneg; lia).
    rewrite IH by nia. apply IH. exact Hm.
  - rewrite Z.pow_1_r. apply shr_1_exact. exact Hm.
Qed.

(** A normalised mantissa with [k] further zero bits is rounded to itself. *)
Lemma binary_round_aux_exact (m : positive) (k ex : Z) :
  2 ^ 52 <= Zpos m < 2 ^ 53 -> 0 <= k -> -1074 <= ex -> ex + k <= 971 ->
  binary_round_aux Float.prec Float.emax false (Zpos m * 2 ^ k) ex loc_Exact
  = S754_finite false m (ex + k).
Proof.
  intros Hm Hk Hex Hov.
  assert (H2 : 0 < 2 ^ k) by (apply Z.pow_pos_nonneg; lia).
  assert (Hd : Zdigits2 (Zpos m * 2 ^ k) = 53 + k).
  { apply Zdigits2_unique; [nia |].
    replace (53 + k - 1) with (52 + k) by lia.
    rewrite !Z.pow_add_r by lia. nia. }
  assert (Hd' : Zdigits2 (Zpos m) = 53) by (apply Zdigits2_unique; lia).
  unfold binary_round_aux, shr_fexp.
  rewrite Hd, fexp_normal by lia.
  replace (53 + k + ex - 53 - ex) with k by lia.
  assert (E1 : shr (shr_record_of_loc (Zpos m * 2 ^ k) loc_Exact) ex k
               = ({| shr_m := Zpos m; shr_r := false; shr_s := false |}, ex + k)).
  { unfold shr. cbn [shr_record_of_loc].
    destruct k as [| p | p]; try lia.
    - rewrite Z.pow_0_r, Z.mul_1_r, Z.add_0_r. reflexivity.
    - rewrite iter_pos_shr_1_exact by lia. reflexivity. }
  rewrite E1. cbv beta iota.
  cbn [shr_m loc_of_shr_record round_nearest_even].
  rewrite Hd', fexp_normal by lia.
  replace (53 + (ex + k) - 53 - (ex + k)) with 0 by lia.
  cbn [shr shr_record_of_loc shr_m].
  destruct (Z.leb_spec (ex + k) (Float.emax - Float.prec)) as [_ | Hbad];
    [reflexivity | unfold Float.emax, Float.prec in Hbad; lia].
Qed.

Lemma binary_round_aux_normalised (m : positive) (ex : Z) :
  2 ^ 52 <= Zpos m < 2 ^ 53 -> -1074 <= ex <= 971 ->
  binary_round_aux Float.prec Float.emax false (Zpos m) ex loc_Exact
  = S754_finite false m ex.
Proof.
  intros Hm Hex.
  pose proof (binary_round_aux_exact m 0 ex Hm ltac:(lia) ltac:(lia) ltac:(lia))
    as H.
  rewrite Z.pow_0_r, Z.mul_1_r, Z.add_0_r in H. exact H.
Qed.

(** [n / n] is [1.0]. *)
Lemma int_truediv_same (n : Z) :
  0 < n -> Float.int_truediv n n = Ret (S754_finite false (2 ^ 52) (-52)).
Proof.
  intros Hn. destruct n as [| p | p]; try lia.
  unfold Float.int_truediv. cbn [Z.eqb Float.of_int_exact SFdiv xorb].
  unfold SFdiv_core_binary.
  replace (Zdigits2 (Zpos p) + 0 - (Zdigits2 (Zpos p) + 0)) with 0 by lia.
  change (Z.min (fexp Float.prec Float.emax 0) (0 - 0)) with (-53).
  change (0 - 0 - -53) with 53.
  cbv beta iota zeta.
  rewrite Z.shiftl_mul_pow2 by lia.
  assert (E : Z.div_eucl (Zpos p * 2 ^ 53) (Zpos p) = (2 ^ 53, 0)).
  { pose proof (Z.div_mul (2 ^ 53) (Zpos p) ltac:(lia)) as Hq.
    pose proof (Z.mod_mul (2 ^ 53) (Zpos p) ltac:(lia)) as Hr.
    rewrite (Z.mul_comm (2 ^ 53)) in Hq, Hr.
    unfold Z.div in Hq. unfold Z.modulo in Hr.
    destruct (Z.div_eucl (Zpos p * 2 ^ 53) (Zpos p)) as [q r].
    now subst q r. }
  rewrite E. cbv beta iota.
  assert (El : new_location (Zpos p) 0 = loc_Exact).
  { unfold new_location, new_location_even, new_location_odd.
    destruct (Z.even (Zpos p)); reflexivity. }
  rewrite El.
  change (2 ^ 53) with (Zpos (2 ^ 52) * 2 ^ 1).
  rewrite binary_round_aux_exact by lia.
  reflexivity.
Qed.

(** [float(n)] is [n] for an integer of at most 53 bits. *)
Lemma of_int_small (n : Z) :
  0 < n < 2 ^ 53 ->
  exists m e,
    Float.of_int n = Ret (S754_finite false m e)
    /\ 2 ^ 52 <= Zpos m < 2 ^ 53 /\ -52 <= e <= 0
    /\ Zpos m = n * 2 ^ (- e).
Proof.
  intros Hn. destruct n as [| p | p]; try lia.
  unfold Float.of_int. cbn [binary_normalize]. unfold binary_round.
  pose proof (Zdigits2_pos (Zpos p) ltac:(lia)) as Hd.
  pose proof (Zdigits2_le (Zpos p) 53 ltac:(lia) ltac:(lia) ltac:(lia)) as Hd'.
  pose proof (Zdigits2_bounds (Zpos p) ltac:(lia)) as [Dlo Dhi].
  change (Zpos (digits2_pos p)) with (Zdigits2 (Zpos p)).
  set (d := Zdigits2 (Zpos p)) in *.
  rewrite fexp_normal by lia.
  assert (Hs : 2 ^ (d - 1) * 2 ^ (53 - d) = 2 ^ 52).
  { rewrite <- Z.pow_add_r by lia. f_equal. lia. }
  assert (Hs' : 2 ^ d * 2 ^ (53 - d) = 2 ^ 53).
  { rewrite <- Z.pow_add_r by lia. f_equal. lia. }
  assert (H2 : 0 < 2 ^ (53 - d)) by (apply Z.pow_pos_nonneg; lia).
  unfold shl_align.
  destruct (d + 0 - 53 - 0) as [| k | k] eqn:Ek; try lia.
  - assert (Hd53 : d = 53) by lia.
    rewrite Hd53 in *. change (2 ^ (53 - 53)) with 1 in *.
    rewrite binary_round_aux_normalised by lia.
    exists p, (53 + 0 - 53). split; [reflexivity |]. repeat split; lia.
  - assert (Hk : Zpos k = 53 - d) by lia.
    assert (Hmz : Zpos (Pos.iter xO p k) = Zpos p * 2 ^ (53 - d)).
    { rewrite Pos_iter_xO, Hk. reflexivity. }
    rewrite binary_round_aux_normalised by (rewrite ?Hmz; nia).
    exists (Pos.iter xO p k), (d + 0 - 53).
    split; [reflexivity |]. split; [rewrite Hmz; nia |]. split; [lia |].
    rewrite Hmz. f_equal. f_equal. lia.
Qed.

(** [int(n * 1.0)] is [n]. *)
Lemma int_mul_one (n : Z) :
  0 < n < 2 ^ 53 ->
  exists x, Float.int_mul n (S754_finite false (2 ^ 52) (-52)) = Ret x
            /\ Float.to_int x = Ret n.
Proof.
  intros Hn.
  destruct (of_int_small n Hn) as (m & e & E & Hm & He & Hv).
  unfold Float.int_mul. rewrite E. cbn [bind SFmul xorb].
  eexists. split; [reflexivity |].
  rewrite Pos2Z.inj_mul. change (Zpos (2 ^ 52)) with (2 ^ 52).
  rewrite binary_round_aux_exact by lia.
  cbn [Float.to_int cond_Zopp]. f_equal.
  replace (e + -52 + 52) with (- - e) by lia.
  rewrite Z.shiftl_opp_r, Z.shiftr_div_pow2 by lia.
  rewrite Hv. apply Z.div_mul.
  assert (0 < 2 ^ (- e)) by (apply Z.pow_pos_nonneg; lia). lia.
Qed.

Lemma scaled_size_same_size (h w : Z) :
  0 < h < 2 ^ 53 -> 0 < w < 2 ^ 53 ->
  scaled_size h w w h = Ret (w, h).
Proof.
  intros Hh Hw. unfold scaled_size.
  rewrite !int_truediv_same by lia. cbn [bind].
  change (Float.min (S754_finite false (2 ^ 52) (-52))
                    (S754_finite false (2 ^ 52) (-52)))
    with (S754_finite false (2 ^ 52) (-52)).
  destruct (int_mul_one w Hw) as (x & Ex & Enw).
  destruct (int_mul_one h Hh) as (y & Ey & Enh).
  rewrite Ex. cbn [bind]. rewrite Enw. cbn [bind].
  rewrite Ey. cbn [bind]. rewrite Enh. reflexivity.
Qed.

(** X4.  An image that has the target size already is not scaled and gets
    no border: [n / n] is [1.0] and [int(n * 1.0)] is [n], without
    rounding, so [cv2.resize] is called with the size of the image, both
    offsets are 0, and every pixel of the result is the pixel [cv2.resize]
    returned at that place. *)
Theorem standardize_image_of_target_size
        (cv : OpenCV) (image : Image) :
  OpenCVSpec cv -> wf_image image -> is_empty image = false ->
  Z.of_nat (shape0 image) < 2 ^ 31 -> Z.of_nat (shape1 image) < 2 ^ 31 ->
  exists resized_image standardized_image,
    resize_INTER_AREA cv image (Z.of_nat (shape1 image), Z.of_nat (shape0 image))
    = Ret resized_image
    /\ standardize_image cv image (Z.of_nat (shape1 image))
                         (Z.of_nat (shape0 image))
       = Ret standardized_image
    /\ shape0 standardized_image = shape0 image
    /\ shape1 standardized_image = shape1 image
    /\ forall r c,
        (r < shape0 image)%nat -> (c < shape1 image)%nat ->
        getpixel standardized_image r c = getpixel resized_image r c.
Proof.
  intros L Hwf Hne Hh Hw.
  pose proof (proj1 (is_empty_false image) Hne) as [Hh0 Hw0].
  set (h := Z.of_nat (shape0 image)) in *.
  set (w := Z.of_nat (shape1 image)) in *.
  assert (E : scaled_size h w w h = Ret (w, h))
    by (apply scaled_size_same_size; lia).
  destruct (standardize_image_letterbox cv image w h w h L Hwf Hne Hh Hw
              ltac:(lia) ltac:(lia) E ltac:(lia) ltac:(lia))
    as (resized & out & Er & Hr0 & Hr1 & Eo & Ho0 & Ho1 & _ & _ & _ & Hpx).
  destruct (resize_shape cv L image w h Hne Hwf ltac:(lia) ltac:(lia))
    as (resized' & Er' & Hrwf & _).
  rewrite Er in Er'. injection Er' as <-.
  exists resized, out.
  split; [exact Er |]. split; [exact Eo |].
  split; [lia |]. split; [lia |].
  intros r c Hr Hc.
  rewrite Hpx by lia.
  rewrite !Z.sub_diag. change (0 / 2) with 0. rewrite !Z.add_0_l.
  change (Z.to_nat 0) with 0%nat. rewrite !Nat.sub_0_r.
  unfold in_slice. simpl.
  destruct (Nat.ltb_spec r (Z.to_nat h)); [| lia].
  destruct (Nat.ltb_spec c (Z.to_nat w)); [| lia].
  simpl. symmetry. apply getpixel_nth; [exact Hrwf | lia | lia].
Qed.

(** ** The proportion of the scaled sides *)

Lemma of_int_value_exact (n : Z) :
  0 < n < 2 ^ 53 ->
  exists x, Float.of_int n = Ret x /\ normal x (-52) 0
            /\ (Float.value x == inject_Z n)%Q.
Proof.
  intros Hn.
  destruct (of_int_small n Hn) as (m & e & E & Hm & He & Hv).
  exists (S754_finite false m e). split; [exact E |].
  split; [exists m, e; auto |].
  cbn [Float.value cond_Zopp]. rewrite Hv.
  rewrite inject_Z_mult, Qpow2_inject by lia.
  rewrite <- Qmult_assoc, <- Qpow2_add.
  replace (- e + e) with 0 by lia. simpl (2 ^ 0)%Q. apply Qmult_1_r.
Qed.

(** [int(x)] is the integer part of a positive [x]. *)
Lemma to_int_floor (x : Float.float) (lo hi : Z) :
  normal x lo hi ->
  exists n, Float.to_int x = Ret n
            /\ (inject_Z n <= Float.value x)%Q
            /\ (Float.value x < inject_Z (n + 1))%Q.
Proof.
  intros Hx.
  assert (En : exists n, Float.to_int x = Ret n).
  { destruct Hx as (m & e & -> & _). eexists. reflexivity. }
  destruct En as [n En]. exists n. split; [exact En |]. split.
  - destruct (Qlt_le_dec (Float.value x) (inject_Z n)) as [Hlt | Hge];
      [| exact Hge].
    exfalso.
    replace n with (n - 1 + 1) in Hlt by lia.
    destruct (to_int_bound x lo hi (n - 1) Hx Hlt) as (n' & En' & Hn').
    rewrite En in En'. injection En' as <-. lia.
  - destruct (Qlt_le_dec (Float.value x) (inject_Z (n + 1))) as [Hlt | Hge];
      [exact Hlt |].
    exfalso.
    destruct (to_int_lower x lo hi (n + 1) Hx Hge) as (n' & En' & Hn').
    rewrite En in En'. injection En' as <-. lia.
Qed.

Lemma scaled_sides_proportion (n1 n2 : Z) (s x1 x2 : Float.float) (k1 k2 : Z) :
  0 < n1 < 2 ^ 25 -> 0 < n2 < 2 ^ 25 -> normal s (-84) (-20) ->
  Float.int_mul n1 s = Ret x1 -> Float.to_int x1 = Ret k1 ->
  Float.int_mul n2 s = Ret x2 -> Float.to_int x2 = Ret k2 ->
  0 <= k1 -> 0 <= k2 < 2 ^ 25 ->
  k1 * n2 <= n1 * (k2 + 1).
Proof.
  intros Hn1 Hn2 Hs E1 Ek1 E2 Ek2 Hk1 Hk2.
  destruct (of_int_value_exact n1 ltac:(lia)) as (f1 & Ef1 & Nf1 & Vf1).
  destruct (of_int_value_exact n2 ltac:(lia)) as (f2 & Ef2 & Nf2 & Vf2).
  unfold Float.int_mul in E1, E2. rewrite Ef1 in E1. rewrite Ef2 in E2.
  cbn [bind] in E1, E2. injection E1 as <-. injection E2 as <-.
  assert (Nf1' : normal f1 (-500) 400)
    by (eapply normal_weaken; [| | exact Nf1]; lia).
  assert (Nf2' : normal f2 (-500) 400)
    by (eapply normal_weaken; [| | exact Nf2]; lia).
  assert (Hs' : normal s (-500) 400)
    by (eapply normal_weaken; [| | exact Hs]; lia).
  destruct (SFmul_value f1 s Nf1' Hs') as [Nz1 Vz1].
  destruct (SFmul_value f2 s Nf2' Hs') as [Nz2 _].
  pose proof (SFmul_value_lower f2 s Nf2' Hs') as Vz2.
  set (z1 := SFmul Float.prec Float.emax f1 s) in *.
  set (z2 := SFmul Float.prec Float.emax f2 s) in *.
  destruct (to_int_floor z1 _ _ Nz1) as (k1' & Ek1' & Lo1 & _).
  destruct (to_int_floor z2 _ _ Nz2) as (k2' & Ek2' & _ & Hi2).
  rewrite Ek1 in Ek1'. injection Ek1' as <-.
  rewrite Ek2 in Ek2'. injection Ek2' as <-.
  rewrite Vf1 in Vz1. rewrite Vf2 in Vz2.
  pose proof (normal_value_pos _ _ _ Hs) as Spos.
  assert (Ppos : (0 < P52)%Q) by reflexivity.
  assert (P'pos : (0 < P52')%Q) by reflexivity.
  assert (Pmpos : (0 < P52m)%Q) by reflexivity.
  assert (N1pos : (0 < inject_Z n1)%Q)
    by (change 0%Q with (inject_Z 0); rewrite <- Zlt_Qlt; lia).
  assert (N2pos : (0 < inject_Z n2)%Q)
    by (change 0%Q with (inject_Z 0); rewrite <- Zlt_Qlt; lia).
  (* k1 * P <= n1 * S * P' *)
  assert (A1 : (inject_Z k1 * P52 <= inject_Z n1 * Float.value s * P52')%Q).
  { eapply Qle_trans; [| exact Vz1].
    apply Qmult_le_compat_r; [exact Lo1 | apply Qlt_le_weak; exact Ppos]. }
  (* n2 * S * Pm < (k2 + 1) * P *)
  assert (A2 : (inject_Z n2 * Float.value s * P52m < inject_Z (k2 + 1) * P52)%Q).
  { eapply Qle_lt_trans; [exact Vz2 |].
    apply Qmult_lt_compat_r; [exact Ppos | exact Hi2]. }
  assert (A3 : (inject_Z k1 * P52 * (inject_Z n2 * P52m)
                <= inject_Z n1 * Float.value s * P52' * (inject_Z n2 * P52m))%Q).
  { apply Qmult_le_compat_r; [exact A1 |].
    apply Qlt_le_weak, Qmult_lt_0_compat; assumption. }
  assert (A4 : (inject_Z n2 * Float.value s * P52m * (inject_Z n1 * P52')
                < inject_Z (k2 + 1) * P52 * (inject_Z n1 * P52'))%Q).
  { apply Qmult_lt_compat_r; [| exact A2].
    apply Qmult_lt_0_compat; assumption. }
  assert (A5 : (inject_Z k1 * P52 * (inject_Z n2 * P52m)
                < inject_Z (k2 + 1) * P52 * (inject_Z n1 * P52'))%Q).
  { eapply Qle_lt_trans; [exact A3 |].
    setoid_replace (inject_Z n1 * Float.value s * P52' * (inject_Z n2 * P52m))%Q
      with (inject_Z n2 * Float.value s * P52m * (inject_Z n1 * P52'))%Q by ring.
    exact A4. }
  unfold P52, P52', P52m in A5.
  rewrite <- !inject_Z_mult, <- Zlt_Qlt in A5.
  assert (HB : n1 * (k2 + 1) <= 2 ^ 50).
  { change (2 ^ 50) with (2 ^ 25 * 2 ^ 25). nia. }
  replace (k1 * 2 ^ 52 * (n2 * (2 ^ 52 - 1)))
    with (k1 * n2 * (2 ^ 52 * (2 ^ 52 - 1))) in A5 by ring.
  replace ((k2 + 1) * 2 ^ 52 * (n1 * (2 ^ 52 + 1)))
    with (n1 * (k2 + 1) * (2 ^ 52 * (2 ^ 52 + 1))) in A5 by ring.
  set (A := k1 * n2) in *. set (B := n1 * (k2 + 1)) in *.
  clearbody A B. lia.
Qed.

(** X6.  The scaled sides keep the proportion of the image up to one
    pixel: for sides below [2^25], [new_width / w] exceeds [new_height / h]
    by [1 / h] at most, and [new_height / h] exceeds [new_width / w] by
    [1 / w] at most. *)
Theorem scaled_size_keeps_proportion (h w target_width target_height : Z) :
  0 < h < 2 ^ 25 -> 0 < w < 2 ^ 25 ->
  0 < target_width < 2 ^ 25 -> 0 < target_height < 2 ^ 25 ->
  exists new_width new_height,
    scaled_size h w target_width target_height = Ret (new_width, new_height)
    /\ new_width * h - new_height * w <= w
    /\ new_height * w - new_width * h <= h.
Proof.
  intros Hh Hw Htw Hth.
  destruct (scaled_size_steps h w target_width target_height
              ltac:(lia) ltac:(lia) ltac:(lia) ltac:(lia))
    as (rw & rh & Hs & Uw & Uh & _ & E).
  cbv zeta in *. set (s := Float.min rw rh) in *.
  destruct (scaled_side_bound w target_width s ltac:(lia) ltac:(lia) Hs Uw)
    as (x & nw & Ex & Enw & Hnw).
  destruct (scaled_side_bound h target_height s ltac:(lia) ltac:(lia) Hs Uh)
    as (y & nh & Ey & Enh & Hnh).
  exists nw, nh. split.
  { rewrite E. eapply scaled_size_run; eassumption. }
  pose proof (scaled_sides_proportion w h s x y nw nh Hw Hh Hs Ex Enw Ey Enh
                ltac:(lia) ltac:(lia)) as P1.
  pose proof (scaled_sides_proportion h w s y x nh nw Hh Hw Hs Ey Enh Ex Enw
                ltac:(lia) ltac:(lia)) as P2.
  lia.
Qed.

End ScaledSides.

(** * Pairwise stitching: the canvas *)

Lemma is_empty_false_nat (img : Image) :
  is_empty img = false <-> 0 < shape0 img /\ 0 < shape1 img.
Proof.
  unfold is_empty. rewrite orb_false_iff, !Nat.eqb_neq. lia.
Qed.

(** The canvas of a successful stitch, and what the success tells about the
    two images. *)
Lemma stitch_images_Some_shape
      (cv : OpenCV) (train_image query_image result : Image) :
  OpenCVSpec cv ->
  stitch_images cv train_image query_image = Ret (Some result) ->
  is_empty train_image = false /\ is_empty query_image = false
  /\ shape1 result = shape1 query_image + shape1 train_image
  /\ shape0 result = Nat.max (shape0 query_image) (shape0 train_image)
  /\ wf_image result.
Proof.
  intros L H.
  destruct (stitch_images_Some_inv _ _ _ _ H)
    as (tp & qp & kt & kq & ms & Hm & status & warped & E & _ & Ew & Es).
  destruct (detect_and_match_inv _ _ _ _ _ _ _ _ E) as (Et & Eq & _).
  destruct (cvtColor_BGR2RGB_shape _ _ Et) as (Ht0 & Ht1 & _).
  destruct (cvtColor_BGR2RGB_shape _ _ Eq) as (Hq0 & Hq1 & _).
  destruct (cvtColor_BGR2RGB_inv _ _ Et) as (Hte & _).
  destruct (cvtColor_BGR2RGB_inv _ _ Eq) as (Hqe & _).
  destruct (warp_shape cv L _ _ _ _ _ Ew) as (Hwwf & Hw0 & Hw1).
  destruct (slice_assign_shape _ _ _ _ _ _ _ Es) as (Hr0 & Hr1 & Hrwf).
  repeat split; try assumption; try lia. apply Hrwf. exact Hwwf.
Qed.

(** X7.  Outside the rectangle the query image is pasted into, the canvas
    of a successful stitch is the output of [cv2.warpPerspective] on the
    converted train image, pixel for pixel: nothing is blended and nothing
    is cropped. *)
Theorem stitch_images_keeps_warp_outside_paste
        (cv : OpenCV) (train_image query_image result : Image) :
  OpenCVSpec cv ->
  stitch_images cv train_image query_image = Ret (Some result) ->
  exists train_photo H warped,
    cvtColor_BGR2RGB train_image = Ret train_photo
    /\ warp cv train_photo H
            ((Z.of_nat (shape1 query_image) + Z.of_nat (shape1 train_image))%Z,
             Z.max (Z.of_nat (shape0 query_image))
                   (Z.of_nat (shape0 train_image)))
       = Ret warped
    /\ shape0 result = shape0 warped /\ shape1 result = shape1 warped
    /\ wf_image result
    /\ forall r c,
        r < shape0 result -> c < shape1 result ->
        shape0 query_image <= r \/ shape1 query_image <= c ->
        getpixel result r c = getpixel warped r c.
Proof.
  intros L H.
  destruct (stitch_images_Some_inv _ _ _ _ H)
    as (tp & qp & kt & kq & ms & Hm & status & warped & E & _ & Ew & Es).
  destruct (detect_and_match_inv _ _ _ _ _ _ _ _ E) as (Et & Eq & _).
  destruct (cvtColor_BGR2RGB_shape _ _ Et) as (Ht0 & Ht1 & _).
  destruct (cvtColor_BGR2RGB_shape _ _ Eq) as (Hq0 & Hq1 & _).
  destruct (warp_shape cv L _ _ _ _ _ Ew) as (Hwwf & Hw0 & Hw1).
  destruct (slice_assign_shape _ _ _ _ _ _ _ Es) as (Hr0 & Hr1 & Hrwf).
  exists tp, Hm, warped.
  split; [exact Et |].
  split; [rewrite <- Ht0, <- Ht1, <- Hq0, <- Hq1; exact Ew |].
  split; [exact Hr0 |]. split; [exact Hr1 |]. split; [auto |].
  intros r c Hr Hc Hout.
  destruct (slice_assign_pixel warped qp 0 (Z.of_nat (shape0 qp))
                               0 (Z.of_nat (shape1 qp)) Hwwf)
    as (res & Eres & Hpx); try lia.
  rewrite Es in Eres. injection Eres as <-.
  rewrite Hpx by lia.
  rewrite !Nat2Z.id. unfold in_slice. simpl.
  destruct Hout as [Hout | Hout].
  - destruct (Nat.ltb_spec r (shape0 qp)); [lia |]. reflexivity.
  - destruct (Nat.ltb_spec c (shape1 qp)); [lia |].
    now rewrite andb_false_r.
Qed.

(** Inside the rectangle the canvas holds the converted query image. *)
Lemma stitch_images_pasted_pixel
      (cv : OpenCV) (train_image query_image result : Image) (r c : nat) :
  OpenCVSpec cv ->
  wf_image query_image ->
  stitch_images cv train_image query_image = Ret (Some result) ->
  r < shape0 query_image -> c < shape1 query_image ->
  getpixel result r c = option_map swap_channels (getpixel query_image r c)
  /\ getpixel query_image r c
     = Some (nth c (nth r (img_rows query_image) []) black).
Proof.
  intros L Hwf H Hr Hc.
  destruct (stitch_images_Some_inv _ _ _ _ H)
    as (tp & qp & kt & kq & ms & Hm & status & warped & E & _ & Ew & Es).
  destruct (detect_and_match_inv _ _ _ _ _ _ _ _ E) as (Et & Eq & _).
  destruct (cvtColor_BGR2RGB_shape _ _ Et) as (Ht0 & Ht1 & _).
  destruct (cvtColor_BGR2RGB_shape _ _ Eq) as (Hq0 & Hq1 & Hqwf).
  destruct (warp_shape cv L _ _ _ _ _ Ew) as (Hwwf & Hw0 & Hw1).
  split; [| apply getpixel_nth; assumption].
  assert (Hp : getpixel result r c
               = Some (nth c (nth r (img_rows qp) []) black)).
  { eapply slice_assign_inside with (dst := warped) (h := shape0 qp)
                                    (w := shape1 qp);
      try eassumption; try reflexivity; lia. }
  rewrite Hp.
  rewrite <- (getpixel_nth qp) by (auto; lia).
  apply (cvtColor_BGR2RGB_pixel query_image qp r c Eq).
Qed.

Lemma swap_channels_involutive (p : pixel) :
  swap_channels (swap_channels p) = p.
Proof. destruct p as [[c0 c1] c2]. reflexivity. Qed.

(** X8.  What becomes of a panorama after the loop.  [stitch_images]
    returns its canvas in RGB order, and line 158 converts it once more
    before [st.image] while line 163 writes it as it is: inside the query
    rectangle the picture shown holds the samples of the query image in the
    order in which [stitch_images] received them, and the file holds them
    with the first and third exchanged. *)
Theorem shown_panorama_has_query_samples_as_decoded
        (cv : OpenCV) (train_image query_image result : Image) :
  OpenCVSpec cv ->
  wf_image query_image ->
  stitch_images cv train_image query_image = Ret (Some result) ->
  exists shown,
    show_result (Some result)
    = ([st_image shown "Stitched Image";
        imageio_imwrite result_path result;
        st_download_button "Download Stitched Image" result_path
                           result_path "image/jpeg"], Ret tt)
    /\ forall r c,
        r < shape0 query_image -> c < shape1 query_image ->
        exists p,
          getpixel query_image r c = Some p
          /\ getpixel shown r c = Some p
          /\ getpixel result r c = Some (swap_channels p).
Proof.
  intros L Hwf H.
  destruct (stitch_images_Some_shape cv _ _ _ L H)
    as (Hte & Hqe & H1 & H0 & Hrwf).
  apply is_empty_false_nat in Hte, Hqe.
  assert (Hre : is_empty result = false) by (apply is_empty_false_nat; lia).
  destruct (cvtColor_BGR2RGB result) as [shown | e] eqn:Es.
  2:{ unfold cvtColor_BGR2RGB in Es. rewrite Hre in Es. discriminate Es. }
  exists shown. split.
  { unfold show_result. rewrite Es. reflexivity. }
  intros r c Hr Hc.
  destruct (stitch_images_pasted_pixel cv _ _ _ r c L Hwf H Hr Hc) as [Hp Hq].
  exists (nth c (nth r (img_rows query_image) []) black).
  split; [exact Hq |].
  rewrite (cvtColor_BGR2RGB_pixel result shown r c Es), Hp, Hq. simpl.
  rewrite swap_channels_involutive. split; reflexivity.
Qed.

(** * The loop *)

Lemma stitching_loop_Some_inv (cv : OpenCV) (images : list Image) :
  forall first t acc,
    stitching_loop cv first images = (t, Ret (Some acc)) ->
    stitches_to cv first images acc
    /\ Forall2 (fun e q => exists s, e = call_stitch_images s q) t images.
Proof.
  induction images as [| image_i images IH]; intros first t acc H.
  - injection H as <- <-. split; [reflexivity | constructor].
  - cbn [stitching_loop] in H. rewrite sbind_emit in H.
    cbn [stitches_to].
    destruct (stitch_images cv first image_i) as [[s |] | e] eqn:Es;
      cbn in H; try discriminate H.
    destruct (stitching_loop cv s images) as [t' r'] eqn:El.
    cbn in H. injection H as <- ->.
    destruct (IH _ _ _ El) as [Hs Hc].
    split; [exists s; auto |].
    constructor; [exists first; reflexivity | exact Hc].
Qed.

Lemma stitches_to_size (cv : OpenCV) (images : list Image) :
  OpenCVSpec cv ->
  forall first acc,
    stitches_to cv first images acc ->
    shape1 acc = shape1 first + list_sum (map shape1 images)
    /\ shape0 acc = list_max (map shape0 (first :: images))
    /\ (is_empty first = false -> is_empty acc = false).
Proof.
  intros L.
  induction images as [| image_i images IH]; simpl; intros first acc H.
  - subst acc. repeat split; try lia. auto.
  - destruct H as [s [Es H]].
    destruct (stitch_images_Some_shape cv _ _ _ L Es)
      as (Hte & Hqe & H1 & H0 & Hrwf).
    destruct (IH _ _ H) as (I1 & I0 & Ie).
    simpl in I0.
    split; [lia |]. split; [lia |].
    intros _. apply Ie. apply is_empty_false_nat.
    apply is_empty_false_nat in Hte, Hqe. lia.
Qed.

(** X9.  The panorama the loop ends with is as wide as all the images
    together and as high as the highest of them: the canvas grows with
    every stitch and is never cropped. *)
Theorem stitching_loop_panorama_size
        (cv : OpenCV) (first : Image) (images : list Image)
        (t : list event) (acc : Image) :
  OpenCVSpec cv ->
  stitching_loop cv first images = (t, Ret (Some acc)) ->
  shape1 acc = shape1 first + list_sum (map shape1 images)
  /\ shape0 acc = list_max (map shape0 (first :: images)).
Proof.
  intros L H.
  destruct (stitching_loop_Some_inv cv images first t acc H) as [Hs _].
  destruct (stitches_to_size cv images L first acc Hs) as (H1 & H0 & _).
  split; assumption.
Qed.

Lemma stitching_loop_calls (cv : OpenCV) (images : list Image) :
  forall first acc,
    stitches_to cv first images acc ->
    exists calls,
      stitching_loop cv first images = (calls, Ret (Some acc))
      /\ Forall2 (fun e q => exists s, e = call_stitch_images s q) calls images.
Proof.
  intros first acc H.
  destruct (stitching_loop_success cv images first acc H) as (calls & El & _).
  exists calls. split; [exact El |].
  apply (stitching_loop_Some_inv cv images first calls acc El).
Qed.

(** The call for an image is made with the panorama of the images before
    it. *)
Lemma stitching_loop_nth_call (cv : OpenCV) (done : list Image) :
  forall first acc image_k rest,
    stitches_to cv first done acc ->
    nth_error (fst (stitching_loop cv first (done ++ image_k :: rest)))
              (length done)
    = Some (call_stitch_images acc image_k).
Proof.
  induction done as [| image_i done IH]; intros first acc image_k rest H.
  - cbn in H. subst acc. cbn [app stitching_loop]. rewrite sbind_emit.
    reflexivity.
  - destruct H as [s [Es H]].
    cbn [app stitching_loop]. rewrite sbind_emit, Es.
    specialize (IH s acc image_k rest H).
    cbn. destruct (stitching_loop cv s (done ++ image_k :: rest)) as [t r].
    exact IH.
Qed.

(** X12.  A run in which every file decodes and every stitch succeeds.
    The page shows the decoded images in the order of the upload, each in
    its column and without conversion; [stitch_images] is called once for
    every image after the first, in that order, each time with the
    panorama of the images before it; the run then shows the converted
    panorama, writes the panorama itself to the result file, offers the
    download, and ends normally. *)
Theorem successful_run_shows_and_writes_the_panorama
        (cv : OpenCV) (uploaded_files : list (list byte))
        (first : Image) (others : list Image) (acc : Image) :
  OpenCVSpec cv ->
  decoded cv uploaded_files (first :: others) ->
  stitches_to cv first others acc ->
  exists calls shown,
    length calls = length others
    /\ (forall done image_k rest acc_k,
           others = done ++ image_k :: rest ->
           stitches_to cv first done acc_k ->
           nth_error calls (length done)
           = Some (call_stitch_images acc_k image_k))
    /\ cvtColor_BGR2RGB acc = Ret shown
    /\ main cv uploaded_files
       = (page_header
            ++ [st_subheader "Uploaded Images"; st_columns (S (length others))]
            ++ column_events 0 (first :: others)
            ++ [st_subheader "Stitched Image";
                st_spinner_enter "Stitching images..."]
            ++ calls
            ++ [st_spinner_exit;
                st_image shown "Stitched Image";
                imageio_imwrite result_path acc;
                st_download_button "Download Stitched Image" result_path
                                   result_path "image/jpeg"],
          Ret tt).
Proof.
  intros L Hdec Hs.
  destruct (stitching_loop_calls cv others first acc Hs) as (calls & El & Hc).
  assert (Hfe : is_empty first = false).
  { inversion Hdec as [| data img files images Hd Hf]; subst.
    apply (imdecode_image cv L data first Hd). }
  destruct (stitches_to_size cv others L first acc Hs) as (_ & _ & Hae).
  specialize (Hae Hfe).
  destruct (cvtColor_BGR2RGB acc) as [shown | e] eqn:Ec.
  2:{ unfold cvtColor_BGR2RGB in Ec. rewrite Hae in Ec. discriminate Ec. }
  exists calls, shown.
  split; [exact (Forall2_length Hc) |].
  split.
  { intros done image_k rest acc_k -> Hk.
    pose proof (stitching_loop_nth_call cv done first acc_k image_k rest Hk)
      as Hn.
    rewrite El in Hn. exact Hn. }
  split; [reflexivity |].
  rewrite (main_decoded cv uploaded_files first others Hdec).
  rewrite El. unfold show_result. rewrite Ec. cbn.
  repeat (rewrite <- app_assoc; cbn). reflexivity.
Qed.

(** X10.  [key_points_matching] asks the matcher of the method for the
    cross-checked matches and neither drops nor adds a match; matches at
    the same distance stay in the order the matcher gave them ([sorted] is
    stable). *)
Theorem key_points_matching_keeps_order_of_ties
        (cv : OpenCV) (features_train_img features_query_img : descriptors cv)
        (method : descriptor_method) (matches : list DMatch) :
  key_points_matching cv features_train_img features_query_img method
  = Ret matches ->
  exists best_matches,
    BFMatcher_match cv (fst (create_matching_object method true)) true
                    features_train_img features_query_img
    = Ret best_matches
    /\ length matches = length best_matches
    /\ forall d,
        filter (fun m => Qeq_bool (distance m) d) matches
        = filter (fun m => Qeq_bool (distance m) d) best_matches.
Proof.
  unfold key_points_matching. intros H.
  apply bind_Ret_inv in H. destruct H as [best [E H]].
  injection H as <-.
  exists best.
  split; [destruct method; exact E |].
  split; [symmetry; apply Permutation_length, sorted_by_distance_Permutation |].
  intros d. apply sorted_by_distance_stable.
Qed.

(** * [homography_stitching]: indices *)

Lemma np_index_outside {A : Type} (a : list A) (i : Z) :
  ~ (- Z.of_nat (length a) <= i < Z.of_nat (length a))%Z ->
  np_index a i = Raise IndexError.
Proof.
  intros H. unfold np_index.
  destruct (Z.ltb_spec i 0);
    destruct (Z.leb_spec 0 (i + Z.of_nat (length a)));
    destruct (Z.leb_spec 0 i);
    destruct (Z.ltb_spec (i + Z.of_nat (length a)) (Z.of_nat (length a)));
    destruct (Z.ltb_spec i (Z.of_nat (length a)));
    simpl; try reflexivity; lia.
Qed.

Lemma np_index_Ret_or_IndexError {A : Type} (a : list A) (i : Z) :
  (exists x, np_index a i = Ret x) \/ np_index a i = Raise IndexError.
Proof.
  unfold np_index.
  destruct (_ && _)%bool; [| right; reflexivity].
  destruct (nth_error a _) as [x |]; [left; exists x | right]; reflexivity.
Qed.

Lemma comprehension_raises {A B : Type} (f : A -> outcome B) (e : exn)
      (l : list A) :
  (forall x, In x l -> (exists y, f x = Ret y) \/ f x = Raise e) ->
  (exists x, In x l /\ f x = Raise e) ->
  comprehension f l = Raise e.
Proof.
  induction l as [| x l IH]; intros Hall [x0 [Hin Hx0]]; [destruct Hin |].
  simpl. destruct (Hall x (or_introl eq_refl)) as [[y Hy] | Hy].
  - rewrite Hy. simpl.
    rewrite IH; [reflexivity | intros x' Hx'; apply Hall; right; exact Hx' |].
    destruct Hin as [-> | Hin]; [congruence |]. exists x0. auto.
  - rewrite Hy. reflexivity.
Qed.

Lemma comprehension_Ret_or_raises {A B : Type} (f : A -> outcome B) (e : exn)
      (l : list A) :
  (forall x, In x l -> (exists y, f x = Ret y) \/ f x = Raise e) ->
  (exists ys, comprehension f l = Ret ys) \/ comprehension f l = Raise e.
Proof.
  induction l as [| x l IH]; intros Hall; simpl.
  - left. exists []. reflexivity.
  - destruct (Hall x (or_introl eq_refl)) as [[y Hy] | Hy]; rewrite Hy; simpl;
      [| right; reflexivity].
    destruct IH as [[ys Hys] | Hr];
      [intros x' Hx'; apply Hall; right; exact Hx' | |].
    + rewrite Hys. left. exists (y :: ys). reflexivity.
    + rewrite Hr. right. reflexivity.
Qed.

(** X11.  With more than 4 matches, a match whose [queryIdx] is no index
    of the key points of the train image, or whose [trainIdx] is no index
    of the key points of the query image, makes [homography_stitching]
    raise [IndexError] in line 104 or 105; [cv2.findHomography] is not
    reached.  (An index [-n <= i < 0] counts from the end, as in numpy.) *)
Theorem homography_stitching_raises_on_index_out_of_range
        (cv : OpenCV) (keypoints_train_img keypoints_query_img : list (KeyPoint cv))
        (matches : list DMatch) (reprojThresh : Z) :
  4 < length matches ->
  (exists m, In m matches
             /\ (~ (- Z.of_nat (length keypoints_train_img) <= queryIdx m
                    < Z.of_nat (length keypoints_train_img))%Z
                 \/ ~ (- Z.of_nat (length keypoints_query_img) <= trainIdx m
                       < Z.of_nat (length keypoints_query_img))%Z)) ->
  homography_stitching cv keypoints_train_img keypoints_query_img matches
                       reprojThresh
  = Raise IndexError.
Proof.
  intros Hlen (m & Hin & Hout).
  unfold homography_stitching.
  destruct (Nat.ltb_spec 4 (length matches)); [| lia].
  set (ft := fun m => np_index (map (pt cv) keypoints_train_img) (queryIdx m)).
  set (fq := fun m => np_index (map (pt cv) keypoints_query_img) (trainIdx m)).
  assert (At : forall x, In x matches ->
                         (exists y, ft x = Ret y) \/ ft x = Raise IndexError)
    by (intros x _; apply np_index_Ret_or_IndexError).
  assert (Aq : forall x, In x matches ->
                         (exists y, fq x = Ret y) \/ fq x = Raise IndexError)
    by (intros x _; apply np_index_Ret_or_IndexError).
  destruct (comprehension_Ret_or_raises ft IndexError matches At)
    as [[ys Hys] | Hr]; [| rewrite Hr; reflexivity].
  rewrite Hys. cbn [bind].
  destruct Hout as [Hout | Hout].
  - exfalso.
    destruct (comprehension_In ft matches ys m Hys Hin) as [y [_ Hy]].
    unfold ft in Hy. rewrite np_index_outside in Hy; [discriminate Hy |].
    rewrite length_map. exact Hout.
  - rewrite (comprehension_raises fq IndexError matches Aq); [reflexivity |].
    exists m. split; [exact Hin |].
    unfold fq. apply np_index_outside. rewrite length_map. exact Hout.
Qed.


(** * Every run *)

Lemma comprehension_decoded (cv : OpenCV) (uploaded_files : list (list byte))
      (images : list (option Image)) :
  comprehension (imdecode_COLOR cv) uploaded_files = Ret images ->
  existsb is_None images = false ->
  decoded cv uploaded_files (arrays images).
Proof.
  intros H. apply comprehension_Forall2 in H.
  induction H as [| data y files ys Hd Hf IH]; simpl; intros He.
  - constructor.
  - destruct y as [img |]; [| discriminate He].
    constructor; [exact Hd | apply IH; exact He].
Qed.

Lemma filter_is_error_columns (images : list Image) :
  forall col, filter is_error (column_events col images) = [].
Proof. induction images as [| img l IH]; simpl; intros col; auto. Qed.

(** The loop shows no result, and an error message exactly when it ends
    with [None]. *)
Lemma stitching_loop_events (cv : OpenCV) (images : list Image) :
  forall first,
    filter is_result (fst (stitching_loop cv first images)) = []
    /\ match snd (stitching_loop cv first images) with
       | Ret None =>
           length (filter is_error (fst (stitching_loop cv first images))) = 1
       | _ => filter is_error (fst (stitching_loop cv first images)) = []
       end.
Proof.
  induction images as [| image_i images IH]; intros first.
  - split; reflexivity.
  - cbn [stitching_loop]. rewrite sbind_emit.
    destruct (stitch_images cv first image_i) as [[s |] | e]; cbn;
      try (split; reflexivity).
    specialize (IH s).
    destruct (stitching_loop cv s images) as [t r]. exact IH.
Qed.

Ltac filter_events :=
  repeat (progress (rewrite ?filter_app, ?filter_is_error_columns,
                      ?filter_is_result_columns;
                    repeat match goal with
                           | H : filter _ _ = [] |- _ => rewrite H
                           end;
                    cbn [filter is_error is_result app])).

(** X13.  Every run of the script, whatever the files and whatever OpenCV
    answers: either it shows no picture, writes no file and offers no
    download, and shows one error message at most; or it shows no error
    message, ends normally, and shows, writes and offers exactly one
    result, the file written being the array whose conversion is shown. *)
Theorem run_shows_an_error_or_the_result
        (cv : OpenCV) (uploaded_files : list (list byte)) :
  let t := fst (main cv uploaded_files) in
  (filter is_result t = [] /\ length (filter is_error t) <= 1)
  \/ (filter is_error t = []
      /\ snd (main cv uploaded_files) = Ret tt
      /\ exists stitched_image result_image,
          cvtColor_BGR2RGB stitched_image = Ret result_image
          /\ filter is_result t
             = [st_image result_image "Stitched Image";
                imageio_imwrite result_path stitched_image;
                st_download_button "Download Stitched Image" result_path
                                   result_path "image/jpeg"]).
Proof.
  cbv zeta.
  destruct uploaded_files as [| d files]; [left; cbn; auto |].
  destruct (comprehension (imdecode_COLOR cv) (d :: files)) as [images | e] eqn:E.
  2:{ left. unfold main. rewrite !sbind_emit, E. cbn. auto. }
  destruct (existsb is_None images) eqn:Ex.
  { left. unfold main. rewrite !sbind_emit, E. cbn [lift sbind]. rewrite Ex.
    cbn. auto. }
  pose proof (comprehension_decoded cv _ _ E Ex) as Hdec.
  destruct (arrays images) as [| first others] eqn:Ea; [inversion Hdec |].
  rewrite (main_decoded cv (d :: files) first others Hdec).
  pose proof (stitching_loop_events cv others first) as [Hr He].
  destruct (stitching_loop cv first others) as [t r].
  cbn [fst snd] in Hr, He.
  destruct r as [[acc |] | e].
  - unfold show_result.
    destruct (cvtColor_BGR2RGB acc) as [shown | e] eqn:Ec; cbn.
    + right. filter_events.
      split; [reflexivity |]. split; [reflexivity |].
      exists acc, shown. split; [exact Ec | reflexivity].
    + left. filter_events. auto.
  - left. cbn. filter_events.
    rewrite ?length_app, He. cbn. auto.
  - left. cbn. filter_events. auto.
Qed.

(** * Exceptions in the script *)

Lemma comprehension_first_raise {A B : Type} (f : A -> outcome B)
      (before : list A) (x : A) (after : list A) (e : exn) :
  (forall y, In y before -> exists r, f y = Ret r) ->
  f x = Raise e ->
  comprehension f (before ++ x :: after) = Raise e.
Proof.
  intros Hb Hx. induction before as [| y before IH]; simpl.
  - rewrite Hx. reflexivity.
  - destruct (Hb y (or_introl eq_refl)) as [r Hr]. rewrite Hr. simpl.
    rewrite IH; [reflexivity |].
    intros y' Hy'. apply Hb. right. exact Hy'.
Qed.

(** C6, as the code behaves on a file [cv2.imdecode] raises on (a file of no
    bytes, for one): when the files before it are read, the exception of
    line 134 leaves the script.  The run is the page header and nothing
    else: no decode error message is shown; [stitch_images] is not
    called. *)
Theorem decode_exception_ends_run_without_message
        (cv : OpenCV) (before : list (list byte)) (data : list byte)
        (after : list (list byte)) (e : exn) :
  (forall d, In d before -> exists r, imdecode_COLOR cv d = Ret r) ->
  imdecode_COLOR cv data = Raise e ->
  main cv (before ++ data :: after) = (page_header, Raise e)
  /\ filter is_error (fst (main cv (before ++ data :: after))) = []
  /\ filter is_call (fst (main cv (before ++ data :: after))) = [].
Proof.
  intros Hb Hx.
  pose proof (comprehension_first_raise (imdecode_COLOR cv) before data after e
                Hb Hx) as Hc.
  assert (Hm : main cv (before ++ data :: after) = (page_header, Raise e)).
  { destruct (before ++ data :: after) as [| d files] eqn:Ef.
    - destruct before; discriminate Ef.
    - unfold main. rewrite !sbind_emit, Hc. reflexivity. }
  rewrite Hm. repeat split.
Qed.

Lemma filter_is_error_calls (calls : list event) :
  Forall (fun e => is_call e = true) calls -> filter is_error calls = [].
Proof.
  induction 1 as [| e l He Hl IH]; simpl; [reflexivity |].
  destruct e; try discriminate He. exact IH.
Qed.

(** C7, as the code behaves when a stitch raises (the case of C2 is one):
    the images decode, the stitches of the first pairs succeed, and the
    call of [stitch_images] for the next pair raises.  The exception leaves
    the loop and the script: [stitch_images] was called for the pairs up to
    that one and for no later image, no result is shown, written or
    offered, and no error message is shown either. *)
Theorem stitch_exception_ends_run_without_message
        (cv : OpenCV) (uploaded_files : list (list byte))
        (first : Image) (done : list Image) (image_k : Image)
        (rest : list Image) (acc : Image) (e : exn) :
  decoded cv uploaded_files (first :: done ++ image_k :: rest) ->
  stitches_to cv first done acc ->
  stitch_images cv acc image_k = Raise e ->
  snd (main cv uploaded_files) = Raise e
  /\ filter is_error (fst (main cv uploaded_files)) = []
  /\ filter is_result (fst (main cv uploaded_files)) = []
  /\ exists calls,
      filter is_call (fst (main cv uploaded_files))
      = calls ++ [call_stitch_images acc image_k]
      /\ length calls = length done.
Proof.
  intros Hdec Hdone Hk.
  rewrite (main_decoded cv uploaded_files first (done ++ image_k :: rest) Hdec).
  destruct (stitching_loop_raise cv done first acc image_k rest e Hdone Hk)
    as [calls [El [Hc Hn]]].
  rewrite El. cbn [fst snd].
  split; [reflexivity |].
  split.
  { rewrite !filter_app, filter_is_error_columns,
      (filter_is_error_calls calls Hc). reflexivity. }
  split.
  { rewrite !filter_app, filter_is_result_columns,
      (filter_is_result_calls calls Hc). reflexivity. }
  exists calls. split; [| exact Hn].
  rewrite !filter_app, filter_is_call_columns, (filter_is_call_calls calls Hc).
  cbn. now rewrite app_nil_r.
Qed.

(** * The colours of the result *)

Lemma read_rgb_swap_channels (p : pixel) :
  read_rgb (swap_channels p) = read_bgr p.
Proof. destruct p as [[c0 c1] c2]. reflexivity. Qed.

Lemma read_rgb_exchange (p : pixel) :
  read_rgb p = exchange_red_blue (read_bgr p).
Proof. destruct p as [[c0 c1] c2]. reflexivity. Qed.

(** C9, as the code behaves.  When the one uploaded file decodes, the run
    calls [stitch_images] not at all and has one result.  The picture shown
    is the decoded picture: line 158 converts the array of OpenCV to the
    order [st.image] reads.  The file is not: line 163 gives the array of
    OpenCV to [imageio.imwrite] as it is, which reads it in the other
    order, so that every colour of the file has the red and the blue part
    of the decoded colour exchanged, and is another colour wherever the
    two parts differ. *)
Theorem single_image_file_has_red_and_blue_exchanged
        (cv : OpenCV) (data : list byte) (img : Image) :
  OpenCVSpec cv ->
  imdecode_COLOR cv data = Ret (Some img) ->
  filter is_call (fst (main cv [data])) = []
  /\ snd (main cv [data]) = Ret tt
  /\ exists shown,
      filter is_result (fst (main cv [data]))
      = [st_image shown "Stitched Image";
         imageio_imwrite result_path img;
         st_download_button "Download Stitched Image" result_path
                            result_path "image/jpeg"]
      /\ (forall r c, rgb_picture shown r c = bgr_picture img r c)
      /\ (forall r c,
             rgb_picture img r c
             = option_map exchange_red_blue (bgr_picture img r c))
      /\ (forall r c k,
             bgr_picture img r c = Some k -> red k <> blue k ->
             rgb_picture img r c <> bgr_picture img r c).
Proof.
  intros L Hdec.
  destruct (imdecode_image cv L data img Hdec) as [_ Hne].
  rewrite (main_decoded cv [data] img [])
    by (constructor; [exact Hdec | constructor]).
  assert (Es : cvtColor_BGR2RGB img
               = Ret {| img_width := img_width img;
                        img_rows := map (map swap_channels) (img_rows img) |}).
  { unfold cvtColor_BGR2RGB. rewrite Hne. reflexivity. }
  cbn. rewrite Es. cbn.
  split; [reflexivity |]. split; [reflexivity |].
  eexists. split; [reflexivity |].
  split; [| split].
  - intros r c. unfold rgb_picture, bgr_picture.
    rewrite (cvtColor_BGR2RGB_pixel img _ r c Es).
    destruct (getpixel img r c) as [p |]; simpl; [| reflexivity].
    now rewrite read_rgb_swap_channels.
  - intros r c. unfold rgb_picture, bgr_picture.
    destruct (getpixel img r c) as [p |]; simpl; [| reflexivity].
    now rewrite read_rgb_exchange.
  - intros r c k Hk Hrb. unfold rgb_picture, bgr_picture in *.
    destruct (getpixel img r c) as [p |]; simpl in *; [| discriminate Hk].
    injection Hk as <-. rewrite read_rgb_exchange.
    intros H. injection H as H. apply Hrb.
    destruct (read_bgr p) as [kr kg kb].
    unfold exchange_red_blue in H. cbn [red green blue] in *.
    injection H as H _. symmetry. exact H.
Qed.

(** * The statements at work on the stand-in *)

(** The arithmetic of Python on a few inputs: [1 / 3], the scaled size of a
    4000x2000 image, and [int(49 * (1 / 49))], which is 0. *)
Example int_truediv_1_3 :
  Float.int_truediv 1 3 = Ret (S754_finite false 6004799503160661 (-54)).
Proof. vm_compute. reflexivity. Qed.

Example scaled_size_4000x2000 :
  scaled_size 2000 4000 TARGET_WIDTH TARGET_HEIGHT = Ret (1280, 640)%Z.
Proof. vm_compute. reflexivity. Qed.

Example int_49_times_inverse :
  (x <- Float.int_truediv 1 49 ;; y <- Float.int_mul 49 x ;; Float.to_int y)
  = Ret 0%Z.
Proof. vm_compute. reflexivity. Qed.

(** The stand-in stitches the strip [Demo.wide] with itself into a canvas of
    twelve pixels, and finds no panorama for two strips of four pixels. *)
Example stitch_wide_wide :
  option_map shape1 (match stitch_images Demo.cv Demo.wide Demo.wide with
                     | Ret r => r
                     | Raise _ => None
                     end) = Some 12.
Proof. vm_compute. reflexivity. Qed.

Lemma demo_wide_wf : wf_image Demo.wide.
Proof. apply tabulate_wf. Qed.

(** Two images of four key points each: four matches at most, no panorama. *)
Lemma stitch_images_None_iff_few_matches_witness :
  stitch_images Demo.cv Demo.narrow Demo.narrow = Ret None.
Proof.
  apply (proj2 (proj2 (stitch_images_None_iff_few_matches Demo.cv))).
  do 5 eexists. split; [vm_compute; reflexivity |]. simpl. lia.
Defined.

(** Six matches between a strip and the same strip from right to left; no
    translation fits them, and the call raises. *)
Lemma stitch_images_raises_without_homography_witness :
  stitch_images Demo.cv Demo.wide Demo.backwards = Raise cv2_error.
Proof.
  eapply stitch_images_raises_without_homography.
  - vm_compute. reflexivity.
  - simpl. lia.
  - vm_compute. reflexivity.
  - vm_compute. reflexivity.
  - vm_compute. reflexivity.
Defined.

Lemma stitch_images_canvas_size_witness :
  stitch_images Demo.cv Demo.wide Demo.wide
  = Ret (Some (Demo.stitched Demo.wide Demo.wide))
  /\ shape1 (Demo.stitched Demo.wide Demo.wide)
     = shape1 Demo.wide + shape1 Demo.wide
  /\ shape0 (Demo.stitched Demo.wide Demo.wide)
     = Nat.max (shape0 Demo.wide) (shape0 Demo.wide).
Proof.
  split; [vm_compute; reflexivity |].
  destruct (stitch_images_canvas_size Demo.cv Demo.wide Demo.wide
              (Demo.stitched Demo.wide Demo.wide) demo_cv_spec)
    as (H1 & H0 & _).
  - vm_compute. reflexivity.
  - split; assumption.
Defined.

Lemma stitch_images_paste_precedence_witness :
  exists p, getpixel Demo.wide 0 0 = Some p
            /\ getpixel (Demo.stitched Demo.wide Demo.wide) 0 0
               = Some (swap_channels p).
Proof.
  apply (stitch_images_paste_precedence Demo.cv Demo.wide Demo.wide
           (Demo.stitched Demo.wide Demo.wide) 0 0 demo_cv_spec demo_wide_wf).
  - vm_compute. reflexivity.
  - vm_compute. lia.
  - vm_compute. lia.
Defined.

(** C4, the claim as stated, fails: stitching the strip [Demo.wide] with
    itself, the top-left pixel of the canvas is [(2, 1, 0)] where the query
    image has [(0, 1, 2)]. *)
Lemma stitch_images_paste_not_input_samples :
  ~ (forall (cv : OpenCV) (train_image query_image result : Image) (r c : nat),
        OpenCVSpec cv -> wf_image query_image ->
        stitch_images cv train_image query_image = Ret (Some result) ->
        r < shape0 query_image -> c < shape1 query_image ->
        getpixel result r c = getpixel query_image r c).
Proof.
  intros H.
  specialize (H Demo.cv Demo.wide Demo.wide (Demo.stitched Demo.wide Demo.wide)
                0 0 demo_cv_spec demo_wide_wf).
  assert (E : getpixel (Demo.stitched Demo.wide Demo.wide) 0 0
              = getpixel Demo.wide 0 0).
  { apply H; vm_compute; try reflexivity; lia. }
  vm_compute in E. discriminate E.
Qed.


Lemma standardize_image_raises_on_thin_image_witness :
  scaled_size 1 2000 TARGET_WIDTH TARGET_HEIGHT = Ret (1280, 0)%Z
  /\ standardize_image Demo.cv (Demo.strip 0 2000) TARGET_WIDTH TARGET_HEIGHT
     = Raise cv2_error.
Proof.
  apply (standardize_image_raises_on_thin_image Demo.cv (Demo.strip 0 2000)
           demo_cv_spec).
  - vm_compute. reflexivity.
  - reflexivity.
Defined.

Lemma scaled_size_within_target_witness :
  exists new_width new_height,
    scaled_size 2000 4000 1280 720 = Ret (new_width, new_height)
    /\ (0 <= new_width <= 1280)%Z
    /\ (0 <= new_height <= 720)%Z
    /\ (let y_offset := ((720 - new_height) / 2)%Z in
        let x_offset := ((1280 - new_width) / 2)%Z in
        (0 <= y_offset)%Z /\ (y_offset + new_height <= 720)%Z
        /\ (0 <= x_offset)%Z /\ (x_offset + new_width <= 1280)%Z).
Proof.
  apply (scaled_size_within_target 2000 4000 1280 720); lia.
Defined.

Lemma standardize_image_letterbox_witness :
  exists resized_image standardized_image,
    resize_INTER_AREA Demo.cv Demo.narrow (8, 2)%Z = Ret resized_image
    /\ standardize_image Demo.cv Demo.narrow 8 6 = Ret standardized_image
    /\ Z.of_nat (shape0 standardized_image) = 6%Z
    /\ Z.of_nat (shape1 standardized_image) = 8%Z.
Proof.
  destruct (standardize_image_letterbox Demo.cv Demo.narrow 8 6 8 2 demo_cv_spec)
    as (resized & out & Er & _ & _ & Eo & H0 & H1 & _);
    try (vm_compute; reflexivity); try (simpl; lia).
  - apply tabulate_wf.
  - exists resized, out. auto.
Defined.

(** Two files, the second of which is three bytes that are no image. *)
Lemma decode_failure_halts_before_stitching_witness :
  let files := [Demo.encode Demo.wide; [x01; x02; x03]] in
  filter is_call (fst (main Demo.cv files)) = []
  /\ filter is_result (fst (main Demo.cv files)) = []
  /\ main Demo.cv files
     = (page_header ++ [st_error decode_error_message], Ret tt).
Proof.
  intros files.
  destruct (decode_failure_halts_before_stitching Demo.cv files)
    as (Hc & Hr & Hm).
  - exists [x01; x02; x03]. split; [simpl; auto |].
    intros img. vm_compute. discriminate.
  - split; [exact Hc |]. split; [exact Hr |].
    apply Hm. intros data [<- | [<- | []]]; eexists; vm_compute; reflexivity.
Defined.

(** Three files: the first two stitch, the third has too few key points. *)
Lemma failed_stitch_halts_and_discards_witness :
  let files := [Demo.encode Demo.wide; Demo.encode Demo.wide;
                Demo.encode Demo.narrow] in
  (exists calls,
      filter is_call (fst (main Demo.cv files))
      = calls ++ [call_stitch_images (Demo.stitched Demo.wide Demo.wide)
                                     Demo.narrow]
      /\ length calls = 1)
  /\ filter is_result (fst (main Demo.cv files)) = []
  /\ (exists t,
         main Demo.cv files
         = (t ++ [st_error stitch_error_message; st_spinner_exit], Ret tt)).
Proof.
  intros files.
  destruct (failed_stitch_halts_and_discards Demo.cv files Demo.wide [Demo.wide]
              Demo.narrow [] (Demo.stitched Demo.wide Demo.wide))
    as (Hc & Hr & Hn & _).
  - repeat constructor.
  - exists (Demo.stitched Demo.wide Demo.wide).
    split; [vm_compute; reflexivity | reflexivity].
  - intros s. vm_compute. discriminate.
  - split; [exact Hc |]. split; [exact Hr |].
    apply Hn. vm_compute. reflexivity.
Defined.

Lemma single_image_shown_without_stitching_witness :
  main Demo.cv [Demo.encode Demo.dot]
  = (page_header
       ++ [st_subheader "Uploaded Images"; st_columns 1; col_image 0 Demo.dot;
           st_subheader "Stitched Image";
           st_spinner_enter "Stitching images..."; st_spinner_exit;
           st_image {| img_width := img_width Demo.dot;
                       img_rows := map (map swap_channels) (img_rows Demo.dot) |}
                    "Stitched Image";
           imageio_imwrite result_path Demo.dot;
           st_download_button "Download Stitched Image" result_path
                              result_path "image/jpeg"],
     Ret tt)
  /\ filter is_call (fst (main Demo.cv [Demo.encode Demo.dot])) = [].
Proof.
  apply (single_image_shown_without_stitching Demo.cv (Demo.encode Demo.dot)
           Demo.dot demo_cv_spec).
  reflexivity.
Defined.

(** The array shown and the array written are never the same array when a
    pixel has different first and third samples, and both [st.image] and
    [imageio.imwrite] read an array as RGB: for [Demo.dot] no array is both
    shown and written. *)
Lemma single_image_shown_and_written_differ :
  forall a caption,
    In (st_image a caption) (fst (main Demo.cv [Demo.encode Demo.dot])) ->
    In (imageio_imwrite result_path a) (fst (main Demo.cv [Demo.encode Demo.dot])) ->
    False.
Proof.
  intros a caption Hs Hw.
  vm_compute in Hs, Hw.
  repeat (destruct Hs as [Hs | Hs]; [try discriminate Hs |]); try exact Hs.
  injection Hs as <- _.
  repeat (destruct Hw as [Hw | Hw]; [discriminate Hw |]). exact Hw.
Qed.


(** * The further statements at work on the stand-in *)

(** An image 77 pixels wide and 43 high: [int(77 * (1280 / 77))] is 1279. *)
Example scaled_size_77x43 :
  scaled_size 43 77 TARGET_WIDTH TARGET_HEIGHT = Ret (1279, 714)%Z.
Proof. vm_compute. reflexivity. Qed.

(** With a target one pixel high the scaled height can be 0 although the
    image is wider than high. *)
Example scaled_size_target_height_1 :
  scaled_size 49 50 1280 1 = Ret (1, 0)%Z.
Proof. vm_compute. reflexivity. Qed.

Lemma scaled_size_fills_target_witness :
  exists new_width new_height,
    scaled_size 43 77 1280 720 = Ret (new_width, new_height)
    /\ ((1280 - 1 <= new_width <= 1280)%Z
        \/ (720 - 1 <= new_height <= 720)%Z).
Proof.
  apply (scaled_size_fills_target 43 77 1280 720); lia.
Defined.

Lemma standardize_image_fits_witness :
  exists new_width new_height resized_image standardized_image,
    scaled_size 1 4 8 6 = Ret (new_width, new_height)
    /\ (1 <= new_width <= 8)%Z /\ (1 <= new_height <= 6)%Z
    /\ resize_INTER_AREA Demo.cv Demo.narrow (new_width, new_height)
       = Ret resized_image
    /\ standardize_image Demo.cv Demo.narrow 8 6 = Ret standardized_image
    /\ Z.of_nat (shape0 standardized_image) = 6%Z
    /\ Z.of_nat (shape1 standardized_image) = 8%Z.
Proof.
  destruct (standardize_image_fits Demo.cv Demo.narrow 8 6 demo_cv_spec)
    as (nw & nh & resized & out & E & Bw & Bh & Er & Eo & H0 & H1 & _);
    try (simpl; lia).
  - apply tabulate_wf.
  - exists nw, nh, resized, out. auto 10.
Defined.

Lemma standardize_image_raises_when_a_side_vanishes_witness :
  standardize_image Demo.cv Demo.wide 4 4 = Raise cv2_error.
Proof.
  apply (standardize_image_raises_when_a_side_vanishes Demo.cv Demo.wide 4 4
           demo_cv_spec); simpl; lia.
Defined.

Lemma standardize_image_empty_image_witness :
  standardize_image Demo.cv (Demo.tabulate 0 5 (fun _ _ => black))
                    TARGET_WIDTH TARGET_HEIGHT
  = Raise ZeroDivisionError.
Proof.
  apply (standardize_image_empty_image Demo.cv
           (Demo.tabulate 0 5 (fun _ _ => black)) TARGET_WIDTH TARGET_HEIGHT).
  - reflexivity.
  - simpl. lia.
  - unfold TARGET_WIDTH. lia.
Defined.

Lemma standardize_image_of_target_size_witness :
  exists resized_image standardized_image,
    resize_INTER_AREA Demo.cv Demo.wide (6, 1)%Z = Ret resized_image
    /\ standardize_image Demo.cv Demo.wide 6 1 = Ret standardized_image
    /\ shape0 standardized_image = 1
    /\ shape1 standardized_image = 6
    /\ forall r c,
        r < 1 -> c < 6 ->
        getpixel standardized_image r c = getpixel resized_image r c.
Proof.
  apply (standardize_image_of_target_size Demo.cv Demo.wide demo_cv_spec
           demo_wide_wf).
  - reflexivity.
  - simpl. lia.
  - simpl. lia.
Defined.

Lemma stitch_images_keeps_warp_outside_paste_witness :
  exists train_photo H warped,
    cvtColor_BGR2RGB Demo.wide = Ret train_photo
    /\ warp Demo.cv train_photo H (12, 1)%Z = Ret warped
    /\ forall c,
        6 <= c < 12 ->
        getpixel (Demo.stitched Demo.wide Demo.wide) 0 c = getpixel warped 0 c.
Proof.
  destruct (stitch_images_keeps_warp_outside_paste Demo.cv Demo.wide Demo.wide
              (Demo.stitched Demo.wide Demo.wide) demo_cv_spec)
    as (tp & H & warped & Et & Ew & _ & _ & _ & Hpx).
  - vm_compute. reflexivity.
  - exists tp, H, warped. split; [exact Et |]. split; [exact Ew |].
    intros c Hc. apply Hpx.
    + vm_compute. lia.
    + change (shape1 (Demo.stitched Demo.wide Demo.wide)) with 12. lia.
    + right. change (shape1 Demo.wide) with 6. lia.
Defined.

Lemma shown_panorama_has_query_samples_as_decoded_witness :
  exists shown,
    show_result (Some (Demo.stitched Demo.wide Demo.wide))
    = ([st_image shown "Stitched Image";
        imageio_imwrite result_path (Demo.stitched Demo.wide Demo.wide);
        st_download_button "Download Stitched Image" result_path
                           result_path "image/jpeg"], Ret tt)
    /\ forall r c,
        r < shape0 Demo.wide -> c < shape1 Demo.wide ->
        exists p,
          getpixel Demo.wide r c = Some p
          /\ getpixel shown r c = Some p
          /\ getpixel (Demo.stitched Demo.wide Demo.wide) r c
             = Some (swap_channels p).
Proof.
  apply (shown_panorama_has_query_samples_as_decoded Demo.cv Demo.wide Demo.wide
           (Demo.stitched Demo.wide Demo.wide) demo_cv_spec demo_wide_wf).
  vm_compute. reflexivity.
Defined.

Lemma stitching_loop_panorama_size_witness :
  shape1 (Demo.stitched Demo.wide Demo.wide)
  = shape1 Demo.wide + list_sum (map shape1 [Demo.wide])
  /\ shape0 (Demo.stitched Demo.wide Demo.wide)
     = list_max (map shape0 [Demo.wide; Demo.wide]).
Proof.
  apply (stitching_loop_panorama_size Demo.cv Demo.wide [Demo.wide]
           [call_stitch_images Demo.wide Demo.wide]
           (Demo.stitched Demo.wide Demo.wide) demo_cv_spec).
  vm_compute. reflexivity.
Defined.

Lemma successful_run_shows_and_writes_the_panorama_witness :
  let files := [Demo.encode Demo.wide; Demo.encode Demo.wide] in
  let acc := Demo.stitched Demo.wide Demo.wide in
  exists calls shown,
    length calls = 1
    /\ (forall done image_k rest acc_k,
           [Demo.wide] = done ++ image_k :: rest ->
           stitches_to Demo.cv Demo.wide done acc_k ->
           nth_error calls (length done)
           = Some (call_stitch_images acc_k image_k))
    /\ cvtColor_BGR2RGB acc = Ret shown
    /\ main Demo.cv files
       = (page_header
            ++ [st_subheader "Uploaded Images"; st_columns 2]
            ++ column_events 0 [Demo.wide; Demo.wide]
            ++ [st_subheader "Stitched Image";
                st_spinner_enter "Stitching images..."]
            ++ calls
            ++ [st_spinner_exit;
                st_image shown "Stitched Image";
                imageio_imwrite result_path acc;
                st_download_button "Download Stitched Image" result_path
                                   result_path "image/jpeg"],
          Ret tt).
Proof.
  intros files acc.
  apply (successful_run_shows_and_writes_the_panorama Demo.cv files Demo.wide
           [Demo.wide] acc demo_cv_spec).
  - repeat constructor.
  - exists acc. split; [vm_compute; reflexivity | reflexivity].
Defined.

Lemma key_points_matching_keeps_order_of_ties_witness :
  let a := concat (img_rows Demo.wide) in
  let b := concat (img_rows Demo.backwards) in
  exists best_matches,
    BFMatcher_match Demo.cv NORM_L2 true a b = Ret best_matches
    /\ length (sorted_by_distance (Demo.match_from a b 0 a))
       = length best_matches
    /\ forall d,
        filter (fun m => Qeq_bool (distance m) d)
               (sorted_by_distance (Demo.match_from a b 0 a))
        = filter (fun m => Qeq_bool (distance m) d) best_matches.
Proof.
  intros a b.
  apply (key_points_matching_keeps_order_of_ties Demo.cv a b SIFT).
  reflexivity.
Defined.

(** Five matches and no key point at all. *)
Lemma homography_stitching_raises_on_index_out_of_range_witness :
  homography_stitching Demo.cv [] []
    (repeat {| queryIdx := 0; trainIdx := 0; distance := 0 |} 5) 4
  = Raise IndexError.
Proof.
  apply (homography_stitching_raises_on_index_out_of_range Demo.cv [] []).
  - simpl. lia.
  - exists {| queryIdx := 0; trainIdx := 0; distance := 0 |}.
    split; [simpl; auto |]. left. simpl. lia.
Defined.

Lemma scaled_size_keeps_proportion_witness :
  exists new_width new_height,
    scaled_size 43 77 1280 720 = Ret (new_width, new_height)
    /\ (new_width * 43 - new_height * 77 <= 77)%Z
    /\ (new_height * 77 - new_width * 43 <= 43)%Z.
Proof.
  apply (scaled_size_keeps_proportion 43 77 1280 720); lia.
Defined.

(** Six matches at the distances 9, 3, 6, 0, 12 and 3: the list is sorted
    to 0, 3, 3, 6, 9, 12, the two matches at 3 in the order of the matcher,
    and the six points of each image are given to the estimator, which
    finds the translation the canvas is made with. *)
Lemma stitch_images_estimates_from_all_sorted_matches_witness :
  exists best_matches matches,
    map queryIdx best_matches = [0; 1; 2; 3; 4; 5]%Z
    /\ map distance best_matches = map inject_Z [9; 3; 6; 0; 12; 3]%Z
    /\ map queryIdx matches = [3; 1; 5; 2; 0; 4]%Z
    /\ map distance matches = map inject_Z [0; 3; 3; 6; 9; 12]%Z
    /\ StronglySorted distance_le matches
    /\ Permutation best_matches matches
    /\ comprehension
         (fun m => np_index (map (pt Demo.cv) (Demo.positions Demo.wide))
                            (queryIdx m))
         matches
       = Ret [(3, 0); (1, 0); (5, 0); (2, 0); (0, 0); (4, 0)]%Z
    /\ stitch_images Demo.cv Demo.wide Demo.shifted
       = Ret (Some (Demo.stitched Demo.wide Demo.shifted)).
Proof.
  edestruct (stitch_images_estimates_from_all_sorted_matches
               Demo.cv Demo.wide Demo.shifted)
    as (matches & Hk & Hs & Hp & He & _ & _).
  - reflexivity.
  - reflexivity.
  - match type of Hp with Permutation ?best _ => exists best end.
    exists matches.
    vm_compute in Hk. injection Hk as <-.
    split; [reflexivity |]. split; [reflexivity |].
    split; [reflexivity |]. split; [reflexivity |].
    split; [exact Hs |]. split; [exact Hp |].
    split; [reflexivity |].
    rewrite He. vm_compute. reflexivity.
Defined.

(** Two files, the second of no bytes. *)
Lemma decode_exception_ends_run_without_message_witness :
  let files := [Demo.encode Demo.wide; []] in
  main Demo.cv files = (page_header, Raise cv2_error)
  /\ filter is_error (fst (main Demo.cv files)) = []
  /\ filter is_call (fst (main Demo.cv files)) = [].
Proof.
  intros files.
  apply (decode_exception_ends_run_without_message
           Demo.cv [Demo.encode Demo.wide] [] [] cv2_error).
  - intros d [<- | []]. eexists. vm_compute. reflexivity.
  - reflexivity.
Defined.

(** Two files: the strip and the strip from right to left, the pair of C2. *)
Lemma stitch_exception_ends_run_without_message_witness :
  let files := [Demo.encode Demo.wide; Demo.encode Demo.backwards] in
  snd (main Demo.cv files) = Raise cv2_error
  /\ filter is_error (fst (main Demo.cv files)) = []
  /\ filter is_result (fst (main Demo.cv files)) = []
  /\ exists calls,
      filter is_call (fst (main Demo.cv files))
      = calls ++ [call_stitch_images Demo.wide Demo.backwards]
      /\ length calls = 0.
Proof.
  intros files.
  apply (stitch_exception_ends_run_without_message Demo.cv files Demo.wide []
           Demo.backwards [] Demo.wide cv2_error).
  - repeat constructor.
  - reflexivity.
  - vm_compute. reflexivity.
Defined.

(** The image of one pixel whose blue, green and red parts are 1, 2 and 3:
    the picture shown has this colour, the file has blue 3 and red 1. *)
Lemma single_image_file_has_red_and_blue_exchanged_witness :
  exists shown,
    filter is_result (fst (main Demo.cv [Demo.encode Demo.dot]))
    = [st_image shown "Stitched Image";
       imageio_imwrite result_path Demo.dot;
       st_download_button "Download Stitched Image" result_path
                          result_path "image/jpeg"]
    /\ bgr_picture Demo.dot 0 0 = Some {| red := x03; green := x02; blue := x01 |}
    /\ rgb_picture shown 0 0 = Some {| red := x03; green := x02; blue := x01 |}
    /\ rgb_picture Demo.dot 0 0 = Some {| red := x01; green := x02; blue := x03 |}
    /\ rgb_picture Demo.dot 0 0 <> bgr_picture Demo.dot 0 0.
Proof.
  destruct (single_image_file_has_red_and_blue_exchanged
              Demo.cv (Demo.encode Demo.dot) Demo.dot demo_cv_spec eq_refl)
    as (_ & _ & shown & Hr & Hs & Hw & Hd).
  exists shown. split; [exact Hr |].
  split; [reflexivity |].
  split; [rewrite Hs; reflexivity |].
  split; [reflexivity |].
  apply (Hd 0 0 {| red := x03; green := x02; blue := x01 |});
    [reflexivity | discriminate].
Defined.
